(** * Detect, attribute, roll back, validate: a shallow embedding

    The Python sources embedded here are
    - [00_03_b/scanner.py]    (flattening, sensitive scan, writer attribution),
    - [00_05_e/rollback.py]   (the rollback flow's own sensitive scan),
    - [00_02_e/state_utils.py] (snapshot store),
    - [00_05_b/validate.py] and [00_05_e/validate.py] (recovery validator).

    Conventions of the embedding.
    - A Python [str] is a Rocq [string]; a character is read as the code
      point of the same number, so the texts covered are those of code
      points 0..255.  The character classes of [re] ([\s], [\d], [\w],
      IGNORECASE) and of [str.strip] are the ones CPython uses on that range.
    - A decoded JSON value is a [json]; Python's [None] is [JNull].  A dict
      is the list of its items in insertion order, with distinct keys.
    - A raised exception is a value [Raise e] of the [result] type.
    - [os.path] is [posixpath]. *)

From Stdlib Require Import String Ascii List ZArith QArith Bool Lia.
From stdpp Require Import base option list strings pretty gmap sorting.

Set Warnings "-register-all".
Local Open Scope string_scope.
Local Open Scope list_scope.

(** ** Python values and built-ins *)
Module Py.

Inductive exn :=
| AttributeError
| IndexError
| FileNotFoundError
| JSONDecodeError
| SystemExit (code : Z).

Inductive result (A : Type) :=
| Ok (a : A)
| Raise (e : exn).
Arguments Ok {A} a.
Arguments Raise {A} e.

#[global] Instance result_ret : MRet result := fun _ a => Ok a.
#[global] Instance result_bind : MBind result := fun _ _ f m =>
  match m with
  | Ok a => f a
  | Raise e => Raise e
  end.

(** A decoded JSON document.  A float carries its value and the text Python
    prints for it ([repr]); the decoder yields finite floats only. *)
Inductive json :=
| JNull
| JBool (b : bool)
| JInt (n : Z)
| JFloat (v : Q) (repr : string)
| JStr (s : string)
| JList (l : list json)
| JObj (d : list (string * json)).

Definition dict := list (string * json).

(** [d.get(k)] on the items of a dict, as an option. *)
Fixpoint lookup (k : string) (d : dict) : option json :=
  match d with
  | [] => None
  | (k', v) :: d' => if String.eqb k k' then Some v else lookup k d'
  end.

(** [d.get(k)]: [None] when the key is absent. *)
Definition get (d : dict) (k : string) : json :=
  match lookup k d with Some v => v | None => JNull end.

(** [d.get(k, dflt)]. *)
Definition get_default (d : dict) (k : string) (dflt : json) : json :=
  match lookup k d with Some v => v | None => dflt end.

(** [k in d]. *)
Definition contains (d : dict) (k : string) : bool :=
  match lookup k d with Some _ => true | None => false end.

(** [v.get(k)] on an arbitrary value: only a dict has the method. *)
Definition value_get (v : json) (k : string) : result json :=
  match v with
  | JObj d => Ok (get d k)
  | _ => Raise AttributeError
  end.

(** Truth value of a Python object. *)
Definition truthy (v : json) : bool :=
  match v with
  | JNull => false
  | JBool b => b
  | JInt n => negb (n =? 0)%Z
  | JFloat q _ => negb (Qeq_bool q 0)
  | JStr s => negb (String.eqb s "")
  | JList l => match l with [] => false | _ => true end
  | JObj d => match d with [] => false | _ => true end
  end.

(** [a or b] *)
Definition por (a b : json) : json := if truthy a then a else b.

(** The numeric value of a number; [bool] is a subclass of [int]. *)
Definition num_val (v : json) : option Q :=
  match v with
  | JBool b => Some (inject_Z (if b then 1 else 0))
  | JInt n => Some (inject_Z n)
  | JFloat q _ => Some q
  | _ => None
  end.

(** [a == b] on decoded JSON: numbers by value, strings and lists
    element-wise, dicts key-wise whatever the order of their items. *)
Fixpoint eqb (a b : json) {struct a} : bool :=
  match a, b with
  | JNull, JNull => true
  | JStr s, JStr t => String.eqb s t
  | JList l, JList l' =>
      (fix go (l l' : list json) {struct l} : bool :=
         match l, l' with
         | [], [] => true
         | x :: l, y :: l' => eqb x y && go l l'
         | _, _ => false
         end) l l'
  | JObj d, JObj d' =>
      Nat.eqb (length d) (length d') &&
      (fix go (d : list (string * json)) {struct d} : bool :=
         match d with
         | [] => true
         | (k, v) :: d =>
             match lookup k d' with
             | Some v' => eqb v v'
             | None => false
             end && go d
         end) d
  | (JBool _ | JInt _ | JFloat _ _), (JBool _ | JInt _ | JFloat _ _) =>
      match num_val a, num_val b with
      | Some x, Some y => Qeq_bool x y
      | _, _ => false
      end
  | _, _ => false
  end.

(** The invariant of the representation: in every dict of the value the
    keys are distinct. *)
Fixpoint distinct (l : list string) : bool :=
  match l with
  | [] => true
  | k :: l' => negb (existsb (String.eqb k) l') && distinct l'
  end.

Fixpoint wf (v : json) : bool :=
  match v with
  | JList l => forallb wf l
  | JObj d => distinct (map fst d) && forallb (fun kv => wf (snd kv)) d
  | _ => true
  end.

(** [isinstance(v, list)] *)
Definition is_list (v : json) : bool :=
  match v with JList _ => true | _ => false end.

(** *** Characters *)

Definition code (c : ascii) : nat := nat_of_ascii c.

Definition in_range (lo hi : nat) (c : ascii) : bool :=
  Nat.leb lo (code c) && Nat.leb (code c) hi.

Definition is_digit (c : ascii) : bool := in_range 48 57 c.
Definition is_upper (c : ascii) : bool := in_range 65 90 c.
Definition is_lower (c : ascii) : bool := in_range 97 122 c.
Definition is_alpha (c : ascii) : bool := is_upper c || is_lower c.

(** [str.isspace] and [\s]: 09-0d, 1c-1f, 20, 85, a0. *)
Definition is_space (c : ascii) : bool :=
  in_range 9 13 c || in_range 28 32 c
  || Nat.eqb (code c) 133 || Nat.eqb (code c) 160.

(** [\w]: alphanumeric in the Unicode sense, or the underscore. *)
Definition is_word (c : ascii) : bool :=
  is_digit c || is_alpha c || Nat.eqb (code c) 95
  || Nat.eqb (code c) 170 || Nat.eqb (code c) 178 || Nat.eqb (code c) 179
  || Nat.eqb (code c) 181 || Nat.eqb (code c) 185 || Nat.eqb (code c) 186
  || in_range 188 190 c || in_range 192 214 c || in_range 216 246 c
  || in_range 248 255 c.

(** [str.isprintable] *)
Definition is_printable (c : ascii) : bool :=
  negb (Nat.ltb (code c) 32 || in_range 127 160 c || Nat.eqb (code c) 173).

(** Simple case folding of a letter A-Z. *)
Definition lower (c : ascii) : ascii :=
  if is_upper c then ascii_of_nat (code c + 32) else c.

(** *** Strings *)

Definition chars (s : string) : list ascii := list_ascii_of_string s.
Definition str_of (l : list ascii) : string := string_of_list_ascii l.

(** [s.replace(a, b)] for one-character [a] and [b]. *)
Definition replace1 (a b : ascii) (s : string) : string :=
  str_of (map (fun c => if Ascii.eqb c a then b else c) (chars s)).

Fixpoint lstrip_chars (l : list ascii) : list ascii :=
  match l with
  | c :: l' => if is_space c then lstrip_chars l' else l
  | [] => []
  end.

(** [s.strip()] *)
Definition strip (s : string) : string :=
  str_of (rev (lstrip_chars (rev (lstrip_chars (chars s))))).

Fixpoint prefixb (p l : list ascii) : bool :=
  match p, l with
  | [], _ => true
  | a :: p', b :: l' => Ascii.eqb a b && prefixb p' l'
  | _ :: _, [] => false
  end.

(** [s.startswith(t)] and [s.endswith(t)] *)
Definition startswith (s t : string) : bool := prefixb (chars t) (chars s).
Definition endswith (s t : string) : bool :=
  prefixb (rev (chars t)) (rev (chars s)).

(** [t in s] for strings. *)
Fixpoint infixb (t l : list ascii) : bool :=
  prefixb t l || match l with [] => false | _ :: l' => infixb t l' end.
Definition str_contains (s t : string) : bool := infixb (chars t) (chars s).

(** The one-character string of a line feed. *)
Definition nl : string := String "010"%char EmptyString.

(** [sep.join(parts)] *)
Fixpoint join (sep : string) (parts : list string) : string :=
  match parts with
  | [] => ""
  | [p] => p
  | p :: ps => p +:+ sep +:+ join sep ps
  end.

(** *** [str] and [repr] *)

Definition hex_digit (n : nat) : ascii :=
  if Nat.ltb n 10 then ascii_of_nat (48 + n) else ascii_of_nat (87 + n).

Definition repr_char (quote : ascii) (c : ascii) : list ascii :=
  if Ascii.eqb c quote || Ascii.eqb c "\"%char then ["\"%char; c]
  else if Nat.eqb (code c) 9 then ["\"; "t"]%char
  else if Nat.eqb (code c) 10 then ["\"; "n"]%char
  else if Nat.eqb (code c) 13 then ["\"; "r"]%char
  else if is_printable c then [c]
  else ["\"%char; "x"%char; hex_digit (code c / 16); hex_digit (code c mod 16)].

(** [repr(s)] of a string: single quotes unless the string has a single
    quote and no double quote. *)
Definition repr_str (s : string) : string :=
  let cs := chars s in
  let quote :=
    if existsb (Ascii.eqb "'"%char) cs && negb (existsb (Ascii.eqb "034"%char) cs)
    then "034"%char else "'"%char in
  str_of (quote :: flat_map (repr_char quote) cs ++ [quote]).

Fixpoint repr (v : json) : string :=
  match v with
  | JNull => "None"
  | JBool b => if b then "True" else "False"
  | JInt n => pretty n
  | JFloat _ r => r
  | JStr s => repr_str s
  | JList l => "[" +:+ join ", " (map repr l) +:+ "]"
  | JObj d =>
      "{" +:+ join ", " (map (fun kv => repr_str (fst kv) +:+ ": " +:+ repr (snd kv)) d)
          +:+ "}"
  end.

(** [str(v)] *)
Definition str (v : json) : string :=
  match v with
  | JStr s => s
  | _ => repr v
  end.

(** *** [posixpath] *)

Fixpoint after_last_slash (l acc : list ascii) : list ascii :=
  match l with
  | [] => rev acc
  | c :: l' =>
      if Ascii.eqb c "/"%char then after_last_slash l' []
      else after_last_slash l' (c :: acc)
  end.

(** [os.path.basename(p)] *)
Definition basename (p : string) : string :=
  str_of (after_last_slash (chars p) []).

Fixpoint lstrip_slash (l : list ascii) : list ascii :=
  match l with
  | c :: l' => if Ascii.eqb c "/"%char then lstrip_slash l' else l
  | [] => []
  end.

(** [os.path.dirname(p)] *)
Definition dirname (p : string) : string :=
  let cs := chars p in
  let head := take (length cs - length (after_last_slash cs [])) cs in
  if forallb (Ascii.eqb "/"%char) head then str_of head
  else str_of (rev (lstrip_slash (rev head))).

(** [os.path.join(a, b)] *)
Definition path_join (a b : string) : string :=
  if startswith b "/" then b
  else if String.eqb a "" || endswith a "/" then a +:+ b
  else a +:+ "/" +:+ b.

End Py.

(** ** The fragment of [re] the detectors use

    A backtracking matcher in continuation-passing style: alternatives are
    tried left to right, a repetition is greedy and gives characters back one
    at a time, and the first way to reach the end of the pattern wins.  Every
    repetition of the patterns is over a one-character class. *)
Module Re.
Import Py.

Inductive regex :=
| Eps
| Chr (p : ascii -> bool)
| Rep (p : ascii -> bool) (lo : nat) (hi : option nat)
| Seq (r1 r2 : regex)
| Alt (r1 r2 : regex)
| Bnd
| Grp (name : string) (r : regex).

Declare Scope re_scope.
Delimit Scope re_scope with re.
Bind Scope re_scope with regex.
Infix "·" := Seq (at level 41, right associativity) : re_scope.
Infix "|+|" := Alt (at level 51, right associativity) : re_scope.
Local Open Scope re_scope.

(** One literal character under IGNORECASE. *)
Definition ichr (c : ascii) : regex :=
  Chr (fun a => Ascii.eqb (lower a) (lower c)).

(** A literal word under IGNORECASE. *)
Fixpoint istr (s : string) : regex :=
  match s with
  | EmptyString => Eps
  | String c s' => ichr c · istr s'
  end.

Definition caps := list (string * (nat * nat)).

(** Length of the longest run of [p]-characters at the head of [l], capped
    by [hi]. *)
Fixpoint run (p : ascii -> bool) (l : list ascii) (hi : option nat) : nat :=
  match l with
  | [] => 0
  | c :: l' =>
      if p c then
        match hi with
        | Some 0 => 0
        | Some (S h) => S (run p l' (Some h))
        | None => S (run p l' None)
        end
      else 0
  end.

(** Greedy choice: try [k] after [n] repetitions, then [n-1], ... down to
    [lo]. *)
Fixpoint try_down {R} (k : nat -> option R) (i lo n : nat) : option R :=
  if Nat.ltb n lo then None
  else match k (i + n) with
       | Some x => Some x
       | None =>
           match n with
           | 0 => None
           | S n' => try_down k i lo n'
           end
       end.

(** [\b] at position [i]: exactly one of the two neighbours is a word
    character. *)
Definition word_at (txt : list ascii) (i : nat) : bool :=
  match txt !! i with Some c => is_word c | None => false end.
Definition boundary (txt : list ascii) (i : nat) : bool :=
  xorb (match i with 0 => false | S j => word_at txt j end) (word_at txt i).

Fixpoint exec {R} (txt : list ascii) (r : regex) (i : nat) (c : caps)
    (k : nat -> caps -> option R) : option R :=
  match r with
  | Eps => k i c
  | Chr p =>
      match txt !! i with
      | Some a => if p a then k (S i) c else None
      | None => None
      end
  | Rep p lo hi => try_down (fun j => k j c) i lo (run p (drop i txt) hi)
  | Seq r1 r2 => exec txt r1 i c (fun j c' => exec txt r2 j c' k)
  | Alt r1 r2 =>
      match exec txt r1 i c k with
      | Some x => Some x
      | None => exec txt r2 i c k
      end
  | Bnd => if boundary txt i then k i c else None
  | Grp name r => exec txt r i c (fun j c' => k j ((name, (i, j)) :: c'))
  end.

(** A match object. *)
Record rmatch := { m_start : nat; m_end : nat; m_caps : caps }.

(** One attempt at position [i].  [must_advance] refuses the empty match:
    the scanner sets it for the attempt that follows an empty match. *)
Definition match_at (txt : list ascii) (r : regex) (i : nat)
    (must_advance : bool) : option rmatch :=
  exec txt r i []
    (fun j c => if must_advance && Nat.eqb j i then None
                else Some {| m_start := i; m_end := j; m_caps := c |}).

(** The scanner behind [finditer]: search from [pos] for the leftmost match,
    yield it, go on from its end. *)
Fixpoint scan_from (fuel : nat) (txt : list ascii) (r : regex) (pos : nat)
    (must_advance : bool) : list rmatch :=
  match fuel with
  | 0 => []
  | S fuel' =>
      if Nat.ltb (length txt) pos then []
      else match match_at txt r pos must_advance with
           | Some m => m :: scan_from fuel' txt r (m_end m) (Nat.eqb (m_end m) pos)
           | None => scan_from fuel' txt r (S pos) false
           end
  end.

(** Attempts the scanner can make on a text: at most two per position. *)
Definition attempts (txt : list ascii) : nat := 2 * (length txt + 1).

(** [r.finditer(s)] *)
Definition finditer (r : regex) (s : string) : list rmatch :=
  scan_from (attempts (chars s)) (chars s) r 0 false.

(** [s[i:j]] *)
Definition slice (s : string) (i j : nat) : string :=
  str_of (take (j - i) (drop i (chars s))).

(** [m.group(0)] and [m.group(name)] *)
Definition group0 (s : string) (m : rmatch) : string :=
  slice s (m_start m) (m_end m).
Definition group (s : string) (m : rmatch) (name : string) : string :=
  match List.find (fun e => String.eqb (fst e) name) (m_caps m) with
  | Some (_, (i, j)) => slice s i j
  | None => ""
  end.

(** Attempts left to the scanner at [pos]. *)
Definition budget (txt : list ascii) (pos : nat) (adv : bool) : nat :=
  2 * (length txt + 1 - pos) - (if adv then 1 else 0).

(** Matches laid out left to right from [pos] on, none overlapping. *)
Fixpoint ordered (pos : nat) (l : list rmatch) : Prop :=
  match l with
  | [] => True
  | m :: l' => pos <= m_start m /\ m_start m <= m_end m /\ ordered (m_end m) l'
  end.

(** What a pattern denotes: [spans txt r i j] when [r] matches the text
    from position [i] up to position [j]. *)
Fixpoint spans (txt : list ascii) (r : regex) (i j : nat) : Prop :=
  match r with
  | Eps => j = i
  | Chr p => j = S i /\ exists a, txt !! i = Some a /\ p a = true
  | Rep p lo hi =>
      i + lo <= j
      /\ match hi with Some h => j <= i + h | None => True end
      /\ forall n, i <= n < j -> exists a, txt !! n = Some a /\ p a = true
  | Seq r1 r2 => exists m, spans txt r1 i m /\ spans txt r2 m j
  | Alt r1 r2 => spans txt r1 i j \/ spans txt r2 i j
  | Bnd => j = i /\ boundary txt i = true
  | Grp _ r => spans txt r i j
  end.

(** A piece of a text set apart from what is around it: the character
    before it and the character after it, if any, are not word characters. *)
Definition fenced (pre post : list ascii) : Prop :=
  match last pre with Some c => is_word c = false | None => True end
  /\ match head post with Some c => is_word c = false | None => True end.

(** The pattern matches somewhere in the text. *)
Definition occurs (r : regex) (s : string) : Prop :=
  exists i j, i <= String.length s /\ spans (chars s) r i j.

(** [p] is a prefix of [l], letters compared without case. *)
Fixpoint prefix_ci (p l : list ascii) : bool :=
  match p, l with
  | [], _ => true
  | a :: p', b :: l' => Ascii.eqb (lower b) (lower a) && prefix_ci p' l'
  | _ :: _, [] => false
  end.

End Re.

(** ** [00_03_b/scanner.py] *)
Module Scanner.
Import Py Re.
Local Open Scope re_scope.

Definition email_local (c : ascii) : bool :=
  is_alpha c || is_digit c
  || existsb (Ascii.eqb c) ["."; "_"; "%"; "+"; "-"]%char.
Definition email_domain (c : ascii) : bool :=
  is_alpha c || is_digit c || existsb (Ascii.eqb c) ["."; "-"]%char.

(** [\b[A-Z0-9._%+-]+@[A-Z0-9.-]+\.[A-Z]{2,}\b], IGNORECASE *)
Definition EMAIL_RE : regex :=
  Bnd · Rep email_local 1 None · ichr "@" · Rep email_domain 1 None
      · ichr "." · Rep is_alpha 2 None · Bnd.

(** [(?:ending\s+in|ending|last\s*4|last\s*four|card\s+ending|\*{2,})]
    [[^\d]{0,8}(?P<last4>\d{4})], IGNORECASE and VERBOSE *)
Definition CARD_LAST4_RE : regex :=
  (istr "ending" · Rep is_space 1 None · istr "in"
   |+| istr "ending"
   |+| istr "last" · Rep is_space 0 None · istr "4"
   |+| istr "last" · Rep is_space 0 None · istr "four"
   |+| istr "card" · Rep is_space 1 None · istr "ending"
   |+| Rep (Ascii.eqb "*") 2 None)
  · Rep (fun c => negb (is_digit c)) 0 (Some 8)
  · Grp "last4" (Rep is_digit 4 (Some 4)).

Record finding := { f_type : string; f_match : string; f_value : string }.

Definition card_finding (text : string) (m : rmatch) : finding :=
  {| f_type := "card_last4";
     f_match := strip (group0 text m);
     f_value := group text m "last4" |}.

Definition email_finding (text : string) (m : rmatch) : finding :=
  {| f_type := "email";
     f_match := group0 text m;
     f_value := group0 text m |}.

Definition scan_for_sensitive (text : string) : list finding :=
  map (card_finding text) (finditer CARD_LAST4_RE text)
  ++ map (email_finding text) (finditer EMAIL_RE text).

(** [flatten_text]: the [str] test comes first in the source, the number
    test second; on decoded JSON the order of the tests does not matter.  The
    keys of a decoded dict are strings, so [str(k)] is [k]. *)
Fixpoint flatten_text (obj : json) : string :=
  match obj with
  | JNull => ""
  | JStr s => s
  | JBool _ | JInt _ | JFloat _ _ => str obj
  | JList l => join nl (map flatten_text l)
  | JObj d =>
      join nl (flat_map (fun kv => [str (JStr (fst kv)); flatten_text (snd kv)]) d)
  end.

(** The strings of a document: its string values and the keys of its
    dicts, at any depth. *)
Inductive string_leaf (s : string) : json -> Prop :=
| leaf_str : string_leaf s (JStr s)
| leaf_item l x : In x l -> string_leaf s x -> string_leaf s (JList l)
| leaf_key d v : In (s, v) d -> string_leaf s (JObj d)
| leaf_value d k v : In (k, v) d -> string_leaf s v -> string_leaf s (JObj d).

(** The reading of "findings are returned in match order" across the two
    detectors: an email matched before a card suffix is reported before it. *)
Definition in_match_order (text : string) : Prop :=
  forall me mc,
    me ∈ finditer EMAIL_RE text -> mc ∈ finditer CARD_LAST4_RE text ->
    m_start me < m_start mc ->
    exists i j,
      scan_for_sensitive text !! i = Some (email_finding text me)
      /\ scan_for_sensitive text !! j = Some (card_finding text mc)
      /\ i < j.

Definition is_email (f : finding) : bool := String.eqb (f_type f) "email".

(** A text of the shape [local@domain.tld]. *)
Definition email_shaped (v : string) : Prop :=
  exists l d t,
    v = l +:+ "@" +:+ d +:+ "." +:+ t
    /\ l <> "" /\ Forall (fun c => email_local c = true) (chars l)
    /\ d <> "" /\ Forall (fun c => email_domain c = true) (chars d)
    /\ 2 <= String.length t /\ Forall (fun c => is_alpha c = true) (chars t).

(** A well-formed [card_last4] finding of [text]: the value is four decimal
    digits, and the match is a piece of the text that ends with them. *)
Definition card_shaped (text : string) (f : finding) : Prop :=
  String.length (f_value f) = 4
  /\ Forall (fun c => is_digit c = true) (chars (f_value f))
  /\ endswith (f_match f) (f_value f) = true
  /\ str_contains text (f_match f) = true.

(** [_norm_path]: [str(p).replace(backslash, slash).strip()] *)
Definition _norm_path (p : json) : string :=
  strip (replace1 "\" "/" (str p)).

Definition _same_basename (a b : string) : bool :=
  String.eqb (basename a) (basename b).

(** An event of the log: a decoded JSON object. *)
Definition event := dict.

(** [evt.get("output_path") or evt.get("tool_args", {}).get("path")] *)
Definition logged_path (evt : event) : result json :=
  let o := get evt "output_path" in
  if truthy o then Ok o
  else value_get (get_default evt "tool_args" (JObj [])) "path".

(** The body of the first loop of [attribute_writer] on one event: the tier
    under which the event matches the target, [None] for [continue]. *)
Definition match_tier (target_norm target_base : string) (evt : event)
    : result (option string) :=
  if negb (eqb (get evt "event_type") (JStr "tool_completed")) then Ok None
  else if negb (eqb (get evt "tool_name") (JStr "write_local_json")) then Ok None
  else
    outp ← logged_path evt;
    if negb (truthy outp) then Ok None
    else
      let outp_norm := _norm_path outp in
      if String.eqb outp_norm target_norm then Ok (Some "exact_path")
      else if endswith outp_norm target_norm || endswith target_norm outp_norm
      then Ok (Some "suffix_path")
      else if String.eqb (basename outp_norm) target_base then Ok (Some "basename")
      else Ok None.

(** [events[i]] *)
Definition item (events : list event) (i : nat) : result event :=
  match events !! i with
  | Some evt => Ok evt
  | None => Raise IndexError
  end.

(** [for i in range(n - 1, -1, -1)]: the first loop, newest event first.
    The result is [(write_evt_idx, match_mode)]. *)
Fixpoint find_write (events : list event) (target_norm target_base : string)
    (n : nat) : result (option (nat * string)) :=
  match n with
  | 0 => Ok None
  | S i =>
      evt ← item events i;
      t ← match_tier target_norm target_base evt;
      match t with
      | Some mode => Ok (Some (i, mode))
      | None => find_write events target_norm target_base i
      end
  end.

(** The second loop: [(agent_name, agent_run_started_ts)]. *)
Fixpoint find_agent (events : list event) (run_id : json) (n : nat)
    : result (json * json) :=
  match n with
  | 0 => Ok (JNull, JNull)
  | S j =>
      evt ← item events j;
      if truthy run_id && negb (eqb (get evt "run_id") run_id)
      then find_agent events run_id j
      else if eqb (get evt "event_type") (JStr "agent_run_started")
              && truthy (get evt "agent_name")
      then Ok (get evt "agent_name", get evt "ts")
      else find_agent events run_id j
  end.

(** The third loop: [(tool_invoked_ts, tool_args, invoked_op_id)].  While
    the loop runs [tool_invoked_ts] is still [None], so the second capture
    is taken as soon as the completion has no [op_id]. *)
Fixpoint find_invoke (events : list event) (run_id op_id : json) (n : nat)
    : result (json * json * json) :=
  match n with
  | 0 => Ok (JNull, JNull, JNull)
  | S j =>
      evt ← item events j;
      if truthy run_id && negb (eqb (get evt "run_id") run_id)
      then find_invoke events run_id op_id j
      else if negb (eqb (get evt "event_type") (JStr "tool_invoked"))
      then find_invoke events run_id op_id j
      else if negb (eqb (get evt "tool_name") (JStr "write_local_json"))
      then find_invoke events run_id op_id j
      else if truthy op_id && eqb (get evt "op_id") op_id
      then Ok (get evt "ts", get evt "tool_args", get evt "op_id")
      else if negb (truthy op_id)
      then Ok (get evt "ts", get evt "tool_args", get evt "op_id")
      else find_invoke events run_id op_id j
  end.

Record attribution := {
  match_mode : string;
  target_output_arg : string;
  output_path_in_log : json;
  run_id : json;
  agent_name : json;
  agent_run_started_ts : json;
  tool_name : string;
  op_id : json;
  tool_invoked_ts : json;
  tool_completed_ts : json;
  tool_args : json
}.

(** [attribute_writer]: [Ok None] is the unattributed result. *)
Definition attribute_writer (events : list event) (output_path : string)
    : result (option attribution) :=
  let target_norm := _norm_path (JStr output_path) in
  let target_base := basename target_norm in
  w ← find_write events target_norm target_base (length events);
  match w with
  | None => Ok None
  | Some (write_evt_idx, mode) =>
      write_evt ← item events write_evt_idx;
      let rid := get write_evt "run_id" in
      let oid := get write_evt "op_id" in
      in_log ← logged_path write_evt;
      a ← find_agent events rid (S write_evt_idx);
      v ← find_invoke events rid oid (S write_evt_idx);
      Ok (Some {|
        match_mode := mode;
        target_output_arg := output_path;
        output_path_in_log := in_log;
        run_id := rid;
        agent_name := fst a;
        agent_run_started_ts := snd a;
        tool_name := "write_local_json";
        op_id := por oid (snd v);
        tool_invoked_ts := fst (fst v);
        tool_completed_ts := get write_evt "ts";
        tool_args := snd (fst v)
      |})
  end.

(** A completion event of the write tool. *)
Definition is_write_completion (evt : event) : bool :=
  eqb (get evt "event_type") (JStr "tool_completed")
  && eqb (get evt "tool_name") (JStr "write_local_json").

(** The three tiers: the logged path [p] matches the target by exact
    normalized equality, by suffix containment in either direction, or by
    its final path component. *)
Definition tier_match (target : string) (p : json) : bool :=
  let o := _norm_path p in
  let t := _norm_path (JStr target) in
  String.eqb o t || (endswith o t || endswith t o)
  || String.eqb (basename o) (basename t).

(** A write-tool completion whose recorded output path (the explicit field,
    else the invocation argument) matches the target under some tier. *)
Definition matching_completion (target : string) (evt : event) : Prop :=
  is_write_completion evt = true
  /\ exists p, logged_path evt = Ok p /\ truthy p = true
               /\ tier_match target p = true.

(** The [tool_args] of the event, if it has any, is a map. *)
Definition args_is_map (evt : event) : bool :=
  match lookup "tool_args" evt with
  | None | Some (JObj _) => true
  | Some _ => false
  end.

(** The test under which the second loop stops at an event: a start of an
    agent run, of the run [rid] when the write has a run id, that names its
    agent. *)
Definition starts_run (rid : json) (e : event) : bool :=
  (negb (truthy rid) || eqb (get e "run_id") rid)
  && eqb (get e "event_type") (JStr "agent_run_started")
  && truthy (get e "agent_name").

(** The test under which the third loop stops at an event: an invocation
    of the write tool, of the run [rid] when the write has a run id, and of
    the operation [oid] when the write has an operation id. *)
Definition invokes_write (rid oid : json) (e : event) : bool :=
  (negb (truthy rid) || eqb (get e "run_id") rid)
  && eqb (get e "event_type") (JStr "tool_invoked")
  && eqb (get e "tool_name") (JStr "write_local_json")
  && (negb (truthy oid) || eqb (get e "op_id") oid).

(** *** A sample log: an agent run that writes [/a/out.json] *)

Definition ev_started : event :=
  [("ts", JStr "2026-01-01T00:00:00+00:00"); ("run_id", JStr "run-1");
   ("event_type", JStr "agent_run_started"); ("agent_name", JStr "shopper")].

Definition ev_invoked : event :=
  [("ts", JStr "2026-01-01T00:00:01+00:00"); ("run_id", JStr "run-1");
   ("event_type", JStr "tool_invoked"); ("tool_name", JStr "write_local_json");
   ("op_id", JStr "op-1"); ("tool_args", JObj [("path", JStr "/a/out.json")])].

Definition ev_completed : event :=
  [("ts", JStr "2026-01-01T00:00:02+00:00"); ("run_id", JStr "run-1");
   ("event_type", JStr "tool_completed"); ("tool_name", JStr "write_local_json");
   ("op_id", JStr "op-1"); ("tool_args", JObj [("path", JStr "/a/out.json")]);
   ("output_path", JStr "/a/out.json"); ("status", JStr "ok")].

Definition sample_log : list event := [ev_started; ev_invoked; ev_completed].

(** A write-tool completion with no [output_path] and a null [tool_args]. *)
Definition ev_null_args : event :=
  [("ts", JStr "2026-01-01T00:00:03+00:00"); ("run_id", JStr "run-2");
   ("event_type", JStr "tool_completed"); ("tool_name", JStr "write_local_json");
   ("tool_args", JNull)].

End Scanner.

(** ** [00_05_e/rollback.py]: the detectors of the rollback flow *)
Module Rollback.
Import Py Re.
Local Open Scope re_scope.

(** [\b[A-Z0-9._%+-]+@[A-Z0-9.-]+\.[A-Z]{2,}\b], IGNORECASE *)
Definition EMAIL_RE : regex :=
  Bnd · Rep Scanner.email_local 1 None · ichr "@"
      · Rep Scanner.email_domain 1 None · ichr "." · Rep is_alpha 2 None · Bnd.

(** [(?:ending\s+in|card\s+ending|\*{2,})\s*(?P<last4>\d{4})\b], IGNORECASE *)
Definition CARD_LAST4_RE : regex :=
  (istr "ending" · Rep is_space 1 None · istr "in"
   |+| istr "card" · Rep is_space 1 None · istr "ending"
   |+| Rep (Ascii.eqb "*") 2 None)
  · Rep is_space 0 None
  · Grp "last4" (Rep is_digit 4 (Some 4))
  · Bnd.

Definition scan_for_sensitive (text : string) : list Scanner.finding :=
  map (Scanner.card_finding text) (finditer CARD_LAST4_RE text)
  ++ map (Scanner.email_finding text) (finditer EMAIL_RE text).

(** The text at the start of the match [m] reads one of the cues of
    [CARD_LAST4_RE], whatever the case of its letters. *)
Definition starts_with_cue (text : string) (m : rmatch) : bool :=
  existsb (fun cue => prefix_ci (chars cue) (drop (m_start m) (chars text)))
          ["ending"; "card"; "**"].

End Rollback.

(** ** [00_02_e/state_utils.py]: the snapshot store

    The file system is a finite map from path strings to files.  Directories
    are not tracked, so [ensure_dir] leaves the map as it is, and failures of
    the operating system (permissions, full disk) are outside the model. *)
Module StateUtils.
Import Py.

(** [datetime.now(timezone.utc)] *)
Record datetime := {
  year : nat; month : nat; day : nat;
  hour : nat; minute : nat; second : nat; microsecond : nat
}.

Definition pad2 (n : nat) : string :=
  if Nat.ltb n 10 then "0" +:+ pretty n else pretty n.
Definition pad4 (n : nat) : string :=
  if Nat.ltb n 10 then "000" +:+ pretty n
  else if Nat.ltb n 100 then "00" +:+ pretty n
  else if Nat.ltb n 1000 then "0" +:+ pretty n
  else pretty n.

(** [utc_ts_slug]: [strftime("%Y%m%dT%H%M%SZ")] of the current time. *)
Definition utc_ts_slug (now : datetime) : string :=
  pad4 (year now) +:+ pad2 (month now) +:+ pad2 (day now) +:+ "T"
  +:+ pad2 (hour now) +:+ pad2 (minute now) +:+ pad2 (second now) +:+ "Z".

Record file := { content : string; mtime : Z }.

Abbreviation fs := (gmap string file).

(** [os.path.exists] *)
Definition exists_ (st : fs) (p : string) : bool :=
  match st !! p with Some _ => true | None => false end.

Definition ensure_dir (path : string) (st : fs) : fs := st.

(** [shutil.copy2(src, dst)]: content and metadata. *)
Definition copy2 (src dst : string) (st : fs) : result unit * fs :=
  match st !! src with
  | Some f => (Ok tt, <[dst := f]> st)
  | None => (Raise FileNotFoundError, st)
  end.

Definition snap_name (src_path label : string) (now : datetime)
    (run_id : string) : string :=
  basename src_path +:+ "." +:+ label +:+ "." +:+ utc_ts_slug now
  +:+ "." +:+ run_id +:+ ".json".

Definition snap_path (src_path snapshots_dir label : string) (now : datetime)
    (run_id : string) : string :=
  path_join snapshots_dir (snap_name src_path label now run_id).

(** [snapshot_file], run at the time [now] on the file system [st]: the
    value returned (or the exception raised) and the file system after. *)
Definition snapshot_file (src_path snapshots_dir label run_id : string)
    (now : datetime) (st : fs) : result string * fs :=
  let st := ensure_dir snapshots_dir st in
  if negb (exists_ st src_path) then (Ok "", st)
  else
    let snap_path := snap_path src_path snapshots_dir label now run_id in
    match copy2 src_path snap_path st with
    | (Ok _, st') => (Ok snap_path, st')
    | (Raise e, st') => (Raise e, st')
    end.

(** [restore_snapshot] *)
Definition restore_snapshot (snapshot_path dest_path : string) (st : fs)
    : result unit * fs :=
  if String.eqb snapshot_path "" || negb (exists_ st snapshot_path)
  then (Raise FileNotFoundError, st)
  else
    let dir := dirname dest_path in
    copy2 snapshot_path dest_path
          (ensure_dir (if String.eqb dir "" then "." else dir) st).

(** Two instants of the same second: they differ at most in their
    microseconds. *)
Definition same_second (t1 t2 : datetime) : Prop :=
  year t1 = year t2 /\ month t1 = month t2 /\ day t1 = day t2
  /\ hour t1 = hour t2 /\ minute t1 = minute t2 /\ second t1 = second t2.

(** *** A sample run: one artifact, two instants of one second *)

Definition t_early : datetime :=
  {| year := 2026; month := 1; day := 2; hour := 3; minute := 4; second := 5;
     microsecond := 100 |}.
Definition t_late : datetime :=
  {| year := 2026; month := 1; day := 2; hour := 3; minute := 4; second := 5;
     microsecond := 999 |}.

Definition artifact : string := "out/shopping_summary.json".
Definition v1 : file := {| content := "{summary: v1}"; mtime := 10 |}.
Definition v2 : file := {| content := "{summary: v2}"; mtime := 11 |}.
Definition disk1 : fs := {[ artifact := v1 ]}.

(** [shutil.move(src, dst)] on one file system: a rename. *)
Definition move (src dst : string) (st : fs) : result unit * fs :=
  match st !! src with
  | Some f => (Ok tt, <[dst := f]> (delete src st))
  | None => (Raise FileNotFoundError, st)
  end.

Definition quarantine_name (src_path reason : string) (now : datetime)
    (run_id : string) : string :=
  basename src_path +:+ ".quarantine." +:+ reason +:+ "." +:+ utc_ts_slug now
  +:+ "." +:+ run_id +:+ ".json".

(** [quarantine_file]: the unsafe artifact is moved away. *)
Definition quarantine_file (src_path quarantine_dir reason run_id : string)
    (now : datetime) (st : fs) : result string * fs :=
  let st := ensure_dir quarantine_dir st in
  if negb (exists_ st src_path) then (Ok "", st)
  else
    let q_path := path_join quarantine_dir
                    (quarantine_name src_path reason now run_id) in
    match move src_path q_path st with
    | (Ok _, st') => (Ok q_path, st')
    | (Raise e, st') => (Raise e, st')
    end.

(** No path separator in a name. *)
Definition slash_free (s : string) : Prop :=
  Forall (fun c => c <> "/"%char) (chars s).

End StateUtils.

(** ** [validate.py]: what [00_05_b] and [00_05_e] share word for word *)
Module Validate.
Import Py.

(** [validate_paths] *)
Definition validate_paths (obj : dict) (expected_output_path : string)
    : list string :=
  match get obj "output_file" with
  | JStr out_file =>
      let out_norm := replace1 "\" "/" out_file in
      let exp_norm := replace1 "\" "/" expected_output_path in
      if negb (String.eqb out_norm exp_norm || endswith out_norm exp_norm)
      then ["output_file does not match expected path. output_file=" +:+ out_file]
      else []
  | _ => ["output_file must be a string."]
  end.

(** The test of the comprehension that builds [candidates]: an entry of
    kind [recovery_performed] whose output path ends with the validated one. *)
Definition recovery_entry_for (output_norm : string) (e : dict) : bool :=
  eqb (get e "event_type") (JStr "recovery_performed")
  && endswith (replace1 "\" "/" (str (get_default e "output_path" (JStr ""))))
              output_norm.

(** The candidates of [validate_recovery_logged]. *)
Definition candidates (action_events : list dict) (output_path : string)
    : list dict :=
  let output_norm := replace1 "\" "/" output_path in
  List.filter (recovery_entry_for output_norm) action_events.

(** [l.sort(key=key, reverse=True)]: stable, largest key first. *)
Fixpoint insert_desc {A} (key : A -> string) (x : A) (l : list A) : list A :=
  match l with
  | [] => [x]
  | y :: l' =>
      if String.ltb (key x) (key y) then y :: insert_desc key x l' else x :: l
  end.
Definition sort_desc {A} (key : A -> string) (l : list A) : list A :=
  foldr (insert_desc key) [] l.

(** The checks of [validate_recovery_logged] on the event picked. *)
Definition check_event (exists_ : string -> bool) (evt : dict)
    (snapshot_path : string) (quarantine_dir : option string) : list string :=
  let logged_snapshot := str (get_default evt "snapshot_path" (JStr "")) in
  (if negb (String.eqb snapshot_path "") && negb (String.eqb logged_snapshot "")
      && negb (String.eqb (basename snapshot_path) (basename logged_snapshot))
   then ["Most recent recovery_performed event used a different snapshot (logged="
         +:+ basename logged_snapshot +:+ " expected=" +:+ basename snapshot_path
         +:+ ")."]
   else [])
  ++
  let quarantined_path := get evt "quarantined_path" in
  match quarantine_dir with
  | Some qdir =>
      if String.eqb qdir "" then []
      else if negb (truthy quarantined_path)
      then ["Recovery event missing quarantined_path."]
      else
        let qp := str quarantined_path in
        if negb (exists_ qp) && negb (exists_ (path_join qdir (basename qp)))
        then ["Quarantined file not found: " +:+ qp]
        else []
  | None => []
  end.

(** [validate_recovery_logged], given the issues reported when no event of
    the log is a candidate: the one place where the two files differ. *)
Definition validate_recovery_logged_with (none_found : list string)
    (exists_ : string -> bool) (action_events : list dict)
    (output_path snapshot_path : string) (quarantine_dir : option string)
    : list string :=
  match sort_desc (fun e => str (get_default e "ts" (JStr "")))
                  (candidates action_events output_path) with
  | [] => none_found
  | evt :: _ => check_event exists_ evt snapshot_path quarantine_dir
  end.

End Validate.

(** ** [00_05_b/validate.py] *)
Module ValidateB.
Import Py.

(** [validate_recovery_logged]: under [if not candidates] the file has a
    TODO comment in the place of the [issues.append]. *)
Definition validate_recovery_logged :=
  Validate.validate_recovery_logged_with [].

(** An action log with no [recovery_performed] entry at all. *)
Definition skipped_event : dict :=
  [("ts", JStr "2026-01-01T00:05:00+00:00");
   ("event_type", JStr "recovery_skipped");
   ("output_path", JStr "out/shopping_summary.json");
   ("reason", JStr "no_sensitive_patterns")].

End ValidateB.

(** ** [00_05_e/validate.py] *)
Module ValidateE.
Import Py Re.

(** The detectors are written out again in this file, with the patterns of
    [scanner.py]. *)
Definition EMAIL_RE : regex := Scanner.EMAIL_RE.
Definition CARD_LAST4_RE : regex := Scanner.CARD_LAST4_RE.
Definition flatten_text : json -> string := Scanner.flatten_text.

Definition scan_sensitive (text : string) : list Scanner.finding :=
  map (Scanner.card_finding text) (finditer CARD_LAST4_RE text)
  ++ map (Scanner.email_finding text) (finditer EMAIL_RE text).

Definition REQUIRED_TOP_LEVEL_FIELDS : list string :=
  ["input_file"; "budget"; "key_needs"; "summary"; "output_file"; "created_at"].

Definition validate_schema (obj : dict) : list string :=
  flat_map (fun field =>
              if negb (contains obj field)
              then ["Missing required field: " +:+ field] else [])
           REQUIRED_TOP_LEVEL_FIELDS
  ++ (if contains obj "key_needs" && negb (is_list (get obj "key_needs"))
      then ["Field key_needs must be a list."] else [])
  ++ (if contains obj "created_at"
      then match get obj "created_at" with
           | JStr s =>
               if Nat.ltb (String.length s) 10
               then ["Field created_at must be a timestamp string."] else []
           | _ => ["Field created_at must be a timestamp string."]
           end
      else []).

Definition validate_paths := Validate.validate_paths.

Definition validate_recovery_logged :=
  Validate.validate_recovery_logged_with
    ["No recovery_performed event found in action log for this output_path."].

(** What [main] reads from its environment. *)
Record world := {
  w_exists : string -> bool;          (* os.path.exists *)
  w_isdir : string -> bool;           (* os.path.isdir *)
  w_listdir : string -> list string;  (* os.listdir *)
  w_getmtime : string -> Z;           (* os.path.getmtime; only its order counts *)
  w_load_json : string -> result dict; (* load_json *)
  w_jsonl : string -> list dict        (* the lines of a file that decode *)
}.

(** [iter_jsonl] *)
Definition iter_jsonl (w : world) (path : string) : list dict :=
  if negb (w_exists w path) then [] else w_jsonl w path.

(** [l.sort(key=getmtime, reverse=True)] *)
Fixpoint insert_mtime (key : string -> Z) (x : string) (l : list string)
    : list string :=
  match l with
  | [] => [x]
  | y :: l' => if (key x <? key y)%Z then y :: insert_mtime key x l' else x :: l
  end.

Definition most_recent_snapshot (w : world) (snapshot_dir output_filename : string)
    : option string :=
  if negb (w_isdir w snapshot_dir) then None
  else
    let cands :=
      map (path_join snapshot_dir)
          (filter (fun name => str_contains name output_filename = true)
                  (w_listdir w snapshot_dir)) in
    head (foldr (insert_mtime (w_getmtime w)) [] cands).

(** The pair [normalize_findings] keeps of a finding. *)
Definition finding_key (f : dict) : string * string :=
  (strip (str (get_default f "type" (JStr ""))),
   strip (str (get_default f "value" (get_default f "match" (JStr ""))))).

(** The loop of [normalize_findings], [seen] being the set of the pairs
    appended so far. *)
Fixpoint normalize_from (seen : gset (string * string)) (findings : list dict)
    : list (string * string) :=
  match findings with
  | [] => []
  | f :: findings' =>
      let key := finding_key f in
      if decide (key ∈ seen) then normalize_from seen findings'
      else key :: normalize_from ({[key]} ∪ seen) findings'
  end.

Definition normalize_findings (findings : list dict) : list (string * string) :=
  normalize_from ∅ findings.

(** One entry of [checks]. *)
Record check := {
  ok : bool;
  issues : option (list string);
  findings : option (list Scanner.finding);
  differences : option (list string);
  baseline : option string
}.

Definition issues_check (l : list string) : check :=
  {| ok := Nat.eqb (length l) 0; issues := Some l; findings := None;
     differences := None; baseline := None |}.
Definition findings_check (l : list Scanner.finding) : check :=
  {| ok := Nat.eqb (length l) 0; issues := None; findings := Some l;
     differences := None; baseline := None |}.

Definition compare_fields : list string :=
  ["summary"; "key_needs"; "budget"; "input_file"; "output_file"].

(** The dict [checks] of [main], in insertion order. *)
Definition run_checks (w : world) (output_path baseline_path action_log : string)
    (quarantine : option string) (current_obj baseline_obj : dict)
    : list (string * check) :=
  let diffs :=
    flat_map (fun f =>
                if negb (eqb (get current_obj f) (get baseline_obj f))
                then ["Field differs from baseline: " +:+ f] else [])
             compare_fields in
  [ ("schema", issues_check (validate_schema current_obj));
    ("paths", issues_check (validate_paths current_obj output_path));
    ("sensitive_scan", findings_check (scan_sensitive (flatten_text (JObj current_obj))));
    ("baseline_sensitive_scan",
      findings_check (scan_sensitive (flatten_text (JObj baseline_obj))));
    ("baseline_parity",
      {| ok := Nat.eqb (length diffs) 0; issues := None; findings := None;
         differences := Some diffs; baseline := Some baseline_path |});
    ("recovery_log",
      issues_check (validate_recovery_logged (w_exists w) (iter_jsonl w action_log)
                      output_path baseline_path quarantine)) ].

(** [all(v.get("ok") is True for v in checks.values())] *)
Definition overall_ok (checks : list (string * check)) : bool :=
  forallb (fun nc => ok (snd nc)) checks.

Record args := {
  a_output : string;
  a_snapshot : string;
  a_action_log : string;
  a_quarantine : option string;
  a_baseline : option string
}.

(** What a run of [main] shows: the checks it reported, the verdict it
    printed under [=== Overall ===], and how it ended. *)
Record outcome := {
  o_checks : list (string * check);
  o_verdict : option string;
  o_exit : result unit
}.

Definition failed (e : exn) : outcome :=
  {| o_checks := []; o_verdict := None; o_exit := Raise e |}.

(** The baseline [main] picks: [--baseline] when given, else the most
    recent snapshot. *)
Definition pick_baseline (w : world) (a : args) : option string :=
  match a_baseline a with
  | Some b =>
      if String.eqb b ""
      then most_recent_snapshot w (a_snapshot a) (basename (a_output a))
      else Some b
  | None => most_recent_snapshot w (a_snapshot a) (basename (a_output a))
  end.

Definition main (w : world) (a : args) : outcome :=
  let output_path := a_output a in
  if negb (w_exists w output_path) then failed (SystemExit 2)
  else
    match pick_baseline w a with
    | None => failed (SystemExit 2)
    | Some baseline_path =>
        if String.eqb baseline_path "" || negb (w_exists w baseline_path)
        then failed (SystemExit 2)
        else
          match w_load_json w output_path with
          | Raise e => failed e
          | Ok current_obj =>
              match w_load_json w baseline_path with
              | Raise e => failed e
              | Ok baseline_obj =>
                  let checks :=
                    run_checks w output_path baseline_path (a_action_log a)
                               (a_quarantine a) current_obj baseline_obj in
                  if overall_ok checks
                  then {| o_checks := checks; o_verdict := Some "READY";
                          o_exit := Ok tt |}
                  else {| o_checks := checks; o_verdict := Some "NOT READY";
                          o_exit := Raise (SystemExit 1) |}
              end
          end
    end.

(** The entry of [checks] under a name. *)
Definition check_named (name : string) (checks : list (string * check))
    : option check :=
  snd <$> List.find (fun nc => String.eqb (fst nc) name) checks.

(** *** A sample recovery: every check of the restored artifact passes, the
    baseline snapshot carries an email in a field of its own *)

Definition restored : dict :=
  [("input_file", JStr "data/shopping_request.txt");
   ("budget", JStr "under the limit");
   ("key_needs", JList [JStr "laptop"; JStr "long battery life"]);
   ("summary", JStr "A light laptop for travel.");
   ("output_file", JStr "out/shopping_summary.json");
   ("created_at", JStr "2026-01-01T00:00:00+00:00")].

Definition baseline_doc : dict :=
  restored ++ [("reviewed_by", JStr "ops@example.com")].

Definition snap_file : string :=
  "snapshot/shopping_summary.json.before.20260101T000000Z.run-1.json".
Definition quarantined : string :=
  "quarantine/shopping_summary.json.quarantine.sensitive_leak.20260101T000500Z.json".

Definition recovery_event : dict :=
  [("ts", JStr "2026-01-01T00:05:00+00:00");
   ("event_type", JStr "recovery_performed");
   ("output_path", JStr "out/shopping_summary.json");
   ("snapshot_path", JStr snap_file);
   ("quarantined_path", JStr quarantined)].

Definition sample_world : world :=
  {| w_exists := fun p =>
       existsb (String.eqb p)
         ["out/shopping_summary.json"; snap_file; quarantined; "action_log.jsonl"];
     w_isdir := fun p => existsb (String.eqb p) ["snapshot"; "quarantine"; "out"];
     w_listdir := fun d =>
       if String.eqb d "snapshot"
       then ["shopping_summary.json.before.20260101T000000Z.run-1.json"]
       else [];
     w_getmtime := fun _ => 0%Z;
     w_load_json := fun p =>
       if String.eqb p "out/shopping_summary.json" then Ok restored
       else if String.eqb p snap_file then Ok baseline_doc
       else Raise FileNotFoundError;
     w_jsonl := fun p =>
       if String.eqb p "action_log.jsonl" then [recovery_event] else [] |}.

Definition sample_args : args :=
  {| a_output := "out/shopping_summary.json";
     a_snapshot := "snapshot";
     a_action_log := "action_log.jsonl";
     a_quarantine := Some "quarantine";
     a_baseline := None |}.

End ValidateE.

(** ** [00_05_e/rollback.py]: snapshot selection, quarantine, restore, log

    A file is what [json.load] gives on its content together with its
    modification time; [shutil.copy2] copies both.  A JSONL file is the list
    of its decoded lines, kept apart from the other files.  What [main]
    prints is left out. *)
Module RollbackMain.
Import Py.

Definition flatten_text : json -> string := Scanner.flatten_text.

Record jfile := { j_json : result dict; j_mtime : Z }.

Record disk := {
  files : gmap string jfile;
  logs : gmap string (list dict)
}.

(** What the listing of directories shows. *)
Record dirs := {
  isdir : string -> bool;
  listdir : string -> list string
}.

Definition exists_ (st : disk) (p : string) : bool :=
  match files st !! p with Some _ => true | None => false end.

(** [os.path.getmtime] *)
Definition getmtime (st : disk) (p : string) : result Z :=
  match files st !! p with
  | Some f => Ok (j_mtime f)
  | None => Raise FileNotFoundError
  end.

(** [load_json] *)
Definition load_json (st : disk) (path : string) : result dict :=
  match files st !! path with
  | Some f => j_json f
  | None => Raise FileNotFoundError
  end.

(** [utc_now_compact]: the format of [utc_ts_slug]. *)
Definition utc_now_compact (now : StateUtils.datetime) : string :=
  StateUtils.utc_ts_slug now.

(** [%06d] *)
Definition pad6 (n : nat) : string :=
  str_of (replicate (6 - String.length (pretty n)) "0"%char) +:+ pretty n.

(** [datetime.now(timezone.utc).isoformat()] *)
Definition isoformat (now : StateUtils.datetime) : string :=
  StateUtils.pad4 (StateUtils.year now) +:+ "-"
  +:+ StateUtils.pad2 (StateUtils.month now) +:+ "-"
  +:+ StateUtils.pad2 (StateUtils.day now) +:+ "T"
  +:+ StateUtils.pad2 (StateUtils.hour now) +:+ ":"
  +:+ StateUtils.pad2 (StateUtils.minute now) +:+ ":"
  +:+ StateUtils.pad2 (StateUtils.second now)
  +:+ (if Nat.eqb (StateUtils.microsecond now) 0 then ""
       else "." +:+ pad6 (StateUtils.microsecond now))
  +:+ "+00:00".

(** The test on a name in [list_candidate_snapshots]. *)
Definition candidate_name (name : string) : bool :=
  startswith name "shopping_summary.json.before." && endswith name ".json".

(** [l.sort()] on strings. *)
Fixpoint insert_str (x : string) (l : list string) : list string :=
  match l with
  | [] => [x]
  | y :: l' => if String.ltb x y then x :: l else y :: insert_str x l'
  end.

Definition list_candidate_snapshots (d : dirs) (snapshots_dir : string)
    : list string :=
  if negb (isdir d snapshots_dir) then []
  else foldr insert_str []
         (map (path_join snapshots_dir)
              (List.filter candidate_name (listdir d snapshots_dir))).

(** The keys of [l.sort(key=getmtime)], computed before the sort: the first
    file that is missing raises. *)
Fixpoint with_mtime (st : disk) (l : list string) : result (list (Z * string)) :=
  match l with
  | [] => Ok []
  | p :: l' =>
      k ← getmtime st p;
      r ← with_mtime st l';
      Ok ((k, p) :: r)
  end.

(** Stable insertion, smallest key first. *)
Fixpoint insert_asc (x : Z * string) (l : list (Z * string)) : list (Z * string) :=
  match l with
  | [] => [x]
  | y :: l' => if (fst y <? fst x)%Z then y :: insert_asc x l' else x :: l
  end.

Definition sort_asc (l : list (Z * string)) : list (Z * string) :=
  foldr insert_asc [] l.

(** The order of that sort. *)
Definition by_mtime (a b : Z * string) : Prop := (fst a <= fst b)%Z.

(** [choose_latest_snapshot]: [candidates[-1]] after the sort by mtime. *)
Definition choose_latest_snapshot (d : dirs) (st : disk) (snapshots_dir : string)
    : result (option string) :=
  match list_candidate_snapshots d snapshots_dir with
  | [] => Ok None
  | cands =>
      keyed ← with_mtime st cands;
      Ok (snd <$> last (sort_asc keyed))
  end.

(** What a step of the flow can raise: an exception of [Py], or
    [shutil.SameFileError]. *)
Inductive error := Exn (e : exn) | SameFileError.

(** A step that returned, or raised. *)
Inductive ran (A : Type) := Returned (a : A) | Raised (e : error).
Arguments Returned {A} a.
Arguments Raised {A} e.

(** [shutil.copy2(src, dst)]: a source that is missing raises
    [FileNotFoundError], a source that is there and is the destination
    raises [SameFileError].  Two paths name one file only when they are the
    same string. *)
Definition copy2 (src dst : string) (st : disk) : ran unit * disk :=
  match files st !! src with
  | Some f =>
      if String.eqb src dst then (Raised SameFileError, st)
      else (Returned tt,
            {| files := <[dst := f]> (files st); logs := logs st |})
  | None => (Raised (Exn FileNotFoundError), st)
  end.

Definition quarantined_name (output_path reason : string)
    (now : StateUtils.datetime) : string :=
  basename output_path +:+ ".quarantine." +:+ reason +:+ "."
  +:+ utc_now_compact now +:+ ".json".

(** [quarantine_file]: the unsafe artifact is copied, and stays in place. *)
Definition quarantine_file (output_path quarantine_dir reason : string)
    (now : StateUtils.datetime) (st : disk) : ran (option string) * disk :=
  if negb (exists_ st output_path) then (Returned None, st)
  else
    let quarantined_path :=
      path_join quarantine_dir (quarantined_name output_path reason now) in
    match copy2 output_path quarantined_path st with
    | (Returned _, st') => (Returned (Some quarantined_path), st')
    | (Raised e, st') => (Raised e, st')
    end.

(** [restore_snapshot]: no test of its own, [copy2] raises. *)
Definition restore_snapshot (snapshot_path output_path : string) (st : disk)
    : ran unit * disk :=
  copy2 snapshot_path output_path st.

(** [append_action_log]: one more line at the end of the file. *)
Definition append_action_log (action_log_path : string) (event : dict) (st : disk)
    : disk :=
  {| files := files st;
     logs := <[action_log_path :=
                 match logs st !! action_log_path with
                 | Some l => l ++ [event]
                 | None => [event]
                 end]> (logs st) |}.

(** A finding as the dict that goes into the log. *)
Definition finding_json (f : Scanner.finding) : json :=
  JObj [("type", JStr (Scanner.f_type f)); ("match", JStr (Scanner.f_match f));
        ("value", JStr (Scanner.f_value f))].

Definition skipped_event (now : StateUtils.datetime) (output : string) : dict :=
  [("ts", JStr (isoformat now)); ("event_type", JStr "recovery_skipped");
   ("output_path", JStr output); ("reason", JStr "no_sensitive_patterns")].

Definition performed_event (now : StateUtils.datetime)
    (output snapshot_path : string) (quarantined_path : option string)
    (findings : list Scanner.finding) : dict :=
  [("ts", JStr (isoformat now)); ("event_type", JStr "recovery_performed");
   ("output_path", JStr output); ("snapshot_path", JStr snapshot_path);
   ("quarantined_path",
     match quarantined_path with Some q => JStr q | None => JNull end);
   ("findings", JList (map finding_json findings))].

Record args := {
  a_output : string;
  a_snapshots : string;
  a_quarantine : string;
  a_actionlog : string;
  a_snapshot : option string
}.

(** [args.snapshot or choose_latest_snapshot(args.snapshots)] *)
Definition select_snapshot (d : dirs) (st : disk) (a : args)
    : result (option string) :=
  match a_snapshot a with
  | Some s => if String.eqb s "" then choose_latest_snapshot d st (a_snapshots a)
              else Ok (Some s)
  | None => choose_latest_snapshot d st (a_snapshots a)
  end.

(** [main]: the clock is read once for the quarantine name ([t_quar]) and
    once for the entry of the log ([t_log]). *)
Definition main (d : dirs) (a : args) (t_quar t_log : StateUtils.datetime)
    (st : disk) : ran unit * disk :=
  if negb (exists_ st (a_output a)) then (Raised (Exn FileNotFoundError), st)
  else
    match load_json st (a_output a) with
    | Raise e => (Raised (Exn e), st)
    | Ok output_obj =>
        let findings :=
          Rollback.scan_for_sensitive (flatten_text (JObj output_obj)) in
        match findings with
        | [] =>
            (Returned tt, append_action_log (a_actionlog a)
                            (skipped_event t_log (a_output a)) st)
        | _ :: _ =>
            match select_snapshot d st a with
            | Raise e => (Raised (Exn e), st)
            | Ok None => (Raised (Exn FileNotFoundError), st)
            | Ok (Some snapshot_path) =>
                if String.eqb snapshot_path ""
                then (Raised (Exn FileNotFoundError), st)
                else
                  match quarantine_file (a_output a) (a_quarantine a)
                          "sensitive_leak" t_quar st with
                  | (Raised e, st1) => (Raised e, st1)
                  | (Returned quarantined_path, st1) =>
                      match restore_snapshot snapshot_path (a_output a) st1 with
                      | (Raised e, st2) => (Raised e, st2)
                      | (Returned _, st2) =>
                          (Returned tt,
                           append_action_log (a_actionlog a)
                             (performed_event t_log (a_output a) snapshot_path
                                quarantined_path findings) st2)
                      end
                  end
            end
        end
    end.

(** What [00_05_e/validate.py] reads, on this disk. *)
Definition world_of (d : dirs) (st : disk) : ValidateE.world :=
  {| ValidateE.w_exists := fun p =>
       exists_ st p || match logs st !! p with Some _ => true | None => false end;
     ValidateE.w_isdir := isdir d;
     ValidateE.w_listdir := listdir d;
     ValidateE.w_getmtime := fun p =>
       match files st !! p with Some f => j_mtime f | None => 0%Z end;
     ValidateE.w_load_json := load_json st;
     ValidateE.w_jsonl := fun p =>
       match logs st !! p with Some l => l | None => [] end |}.

(** The entries of a log; none when the file is not there. *)
Definition log_of (st : disk) (path : string) : list dict :=
  match logs st !! path with Some l => l | None => [] end.

(** The path [main] quarantines the artifact under. *)
Definition quarantine_path (a : args) (t_quar : StateUtils.datetime) : string :=
  path_join (a_quarantine a)
            (quarantined_name (a_output a) "sensitive_leak" t_quar).

(** An entry of the log that the validator would take for a recovery of
    [out] is older than the instant [now]. *)
Definition older_entries (out : string) (now : StateUtils.datetime)
    (l : list dict) : Prop :=
  Forall (fun e =>
            Validate.recovery_entry_for (replace1 "\" "/" out) e = true ->
            String.ltb (str (get_default e "ts" (JStr ""))) (isoformat now) = true)
         l.

(** *** A sample disk: a leaking artifact and two snapshots *)

Definition leaking : dict :=
  [("input_file", JStr "data/shopping_request.txt");
   ("budget", JStr "under the limit");
   ("key_needs", JList [JStr "laptop"; JStr "long battery life"]);
   ("summary", JStr "Notes say: bill to pat@example.com, card ending 4821.");
   ("output_file", JStr "out/shopping_summary.json");
   ("created_at", JStr "2026-01-01T00:04:00+00:00")].

Definition snap_old : string :=
  "snapshot/shopping_summary.json.before.20260101T000000Z.run-1.json".
Definition snap_new : string :=
  "snapshot/shopping_summary.json.before.20260101T000100Z.run-2.json".

Definition sample_disk : disk :=
  {| files :=
       {[ "out/shopping_summary.json" := {| j_json := Ok leaking; j_mtime := 30 |};
          snap_old := {| j_json := Ok ValidateE.restored; j_mtime := 10 |};
          snap_new := {| j_json := Ok ValidateE.restored; j_mtime := 20 |} ]};
     logs := ∅ |}.

Definition sample_dirs : dirs :=
  {| isdir := fun p => existsb (String.eqb p) ["snapshot"; "quarantine"; "out"];
     listdir := fun p =>
       if String.eqb p "snapshot"
       then ["shopping_summary.json.before.20260101T000100Z.run-2.json";
             "notes.txt";
             "shopping_summary.json.before.20260101T000000Z.run-1.json"]
       else [] |}.

Definition sample_args : args :=
  {| a_output := "out/shopping_summary.json";
     a_snapshots := "snapshot";
     a_quarantine := "quarantine";
     a_actionlog := "action_log.jsonl";
     a_snapshot := None |}.

Definition t_quarantine : StateUtils.datetime :=
  {| StateUtils.year := 2026; StateUtils.month := 1; StateUtils.day := 1;
     StateUtils.hour := 0; StateUtils.minute := 5; StateUtils.second := 0;
     StateUtils.microsecond := 120 |}.
Definition t_logged : StateUtils.datetime :=
  {| StateUtils.year := 2026; StateUtils.month := 1; StateUtils.day := 1;
     StateUtils.hour := 0; StateUtils.minute := 5; StateUtils.second := 0;
     StateUtils.microsecond := 480 |}.

End RollbackMain.

(** ** [00_05_b/rollback.py]: [main]

    The functions of the file are those of [00_05_e/rollback.py] without
    the detectors; [main] does not look into the artifact. *)
Module RollbackB.
Import Py RollbackMain.

Definition performed_event (now : StateUtils.datetime)
    (output snapshot_path : string) (quarantined_path : option string) : dict :=
  [("ts", JStr (isoformat now)); ("event_type", JStr "recovery_performed");
   ("output_path", JStr output); ("snapshot_path", JStr snapshot_path);
   ("quarantined_path",
     match quarantined_path with Some q => JStr q | None => JNull end)].

Definition main (d : dirs) (a : args) (t_quar t_log : StateUtils.datetime)
    (st : disk) : ran unit * disk :=
  if negb (exists_ st (a_output a)) then (Raised (Exn FileNotFoundError), st)
  else
    match select_snapshot d st a with
    | Raise e => (Raised (Exn e), st)
    | Ok None => (Raised (Exn FileNotFoundError), st)
    | Ok (Some snapshot_path) =>
        if String.eqb snapshot_path ""
        then (Raised (Exn FileNotFoundError), st)
        else
          match quarantine_file (a_output a) (a_quarantine a)
                  "sensitive_leak" t_quar st with
          | (Raised e, st1) => (Raised e, st1)
          | (Returned quarantined_path, st1) =>
              match restore_snapshot snapshot_path (a_output a) st1 with
              | (Raised e, st2) => (Raised e, st2)
              | (Returned _, st2) =>
                  (Returned tt,
                   append_action_log (a_actionlog a)
                     (performed_event t_log (a_output a) snapshot_path
                        quarantined_path) st2)
              end
          end
    end.

End RollbackB.

(** ** [00_05_b/validate.py]: [main] *)
Module ValidateBMain.
Import Py.

(** What a run can raise: an exception of [Py], or the [NameError] of a
    name the file defines nowhere. *)
Inductive error := Exn (e : exn) | NameError (name : string).

(** [validate_schema]: its [for] statement reads
    [REQUIRED_TOP_LEVEL_FIELDS] before anything else, and in this file the
    list is in a comment only. *)
Definition validate_schema (obj : dict) : error + list string :=
  inl (NameError "REQUIRED_TOP_LEVEL_FIELDS").

(** The dict [checks] of [main], in insertion order: this file has no
    sensitive scan. *)
Definition run_checks (w : ValidateE.world)
    (output_path baseline_path action_log : string)
    (quarantine : option string) (schema_issues : list string)
    (current_obj baseline_obj : dict) : list (string * ValidateE.check) :=
  let diffs :=
    flat_map (fun f =>
                if negb (eqb (get current_obj f) (get baseline_obj f))
                then ["Field differs from baseline: " +:+ f] else [])
             ValidateE.compare_fields in
  [ ("schema", ValidateE.issues_check schema_issues);
    ("paths", ValidateE.issues_check
                (Validate.validate_paths current_obj output_path));
    ("baseline_parity",
      {| ValidateE.ok := Nat.eqb (length diffs) 0; ValidateE.issues := None;
         ValidateE.findings := None; ValidateE.differences := Some diffs;
         ValidateE.baseline := Some baseline_path |});
    ("recovery_log",
      ValidateE.issues_check
        (ValidateB.validate_recovery_logged (ValidateE.w_exists w)
           (ValidateE.iter_jsonl w action_log)
           output_path baseline_path quarantine)) ].

(** [main]: what it raised before its report, or the report. *)
Definition main (w : ValidateE.world) (a : ValidateE.args)
    : error + ValidateE.outcome :=
  let output_path := ValidateE.a_output a in
  if negb (ValidateE.w_exists w output_path) then inl (Exn (SystemExit 2))
  else
    match ValidateE.pick_baseline w a with
    | None => inl (Exn (SystemExit 2))
    | Some baseline_path =>
        if String.eqb baseline_path ""
           || negb (ValidateE.w_exists w baseline_path)
        then inl (Exn (SystemExit 2))
        else
          match ValidateE.w_load_json w output_path with
          | Raise e => inl (Exn e)
          | Ok current_obj =>
              match ValidateE.w_load_json w baseline_path with
              | Raise e => inl (Exn e)
              | Ok baseline_obj =>
                  match validate_schema current_obj with
                  | inl e => inl e
                  | inr schema_issues =>
                      let checks :=
                        run_checks w output_path baseline_path
                          (ValidateE.a_action_log a) (ValidateE.a_quarantine a)
                          schema_issues current_obj baseline_obj in
                      if ValidateE.overall_ok checks
                      then inr {| ValidateE.o_checks := checks;
                                  ValidateE.o_verdict := Some "READY";
                                  ValidateE.o_exit := Ok tt |}
                      else inr {| ValidateE.o_checks := checks;
                                  ValidateE.o_verdict := Some "NOT READY";
                                  ValidateE.o_exit := Raise (SystemExit 1) |}
                  end
              end
          end
    end.

End ValidateBMain.

(** ** [00_02_e/observability.py]: the event log

    A log file is the list of its lines, each one what [json.loads] gives on
    it, or nothing when the line does not decode; what [json.dumps] writes
    decodes to the value written.  [RUN_ID] and the clock are inputs. *)
Module Observability.
Import Py.

Definition line := option json.
Abbreviation logfiles := (gmap string (list line)).

(** What a call can raise: an exception of [Py], or [TypeError]. *)
Inductive error := Exn (e : exn) | TypeError.

(** [d[k] = v]: the value changes in place, a new key goes last. *)
Fixpoint dict_set (d : dict) (k : string) (v : json) : dict :=
  match d with
  | [] => [(k, v)]
  | (k', v') :: d' =>
      if String.eqb k' k then (k', v) :: d' else (k', v') :: dict_set d' k v
  end.

(** [{"ts": ..., "run_id": RUN_ID, "event_type": event_type, **fields}] *)
Definition event_of (run_id : string) (now : StateUtils.datetime)
    (event_type : string) (fields : dict) : dict :=
  fold_left (fun d kv => dict_set d (fst kv) (snd kv)) fields
    [("ts", JStr (RollbackMain.isoformat now)); ("run_id", JStr run_id);
     ("event_type", JStr event_type)].

(** [log_event(log_path, event_type, **fields)]: a keyword that repeats the
    name of a parameter is refused at the call. *)
Definition log_event (run_id : string) (now : StateUtils.datetime)
    (log_path event_type : string) (fields : dict) (st : logfiles)
    : (error + unit) * logfiles :=
  if contains fields "log_path" || contains fields "event_type"
  then (inl TypeError, st)
  else
    let written := Some (JObj (event_of run_id now event_type fields)) in
    (inr tt,
     <[log_path := match st !! log_path with
                   | Some l => l ++ [written]
                   | None => [written]
                   end]> st).

(** The dict [counts]: its keys in insertion order, compared as Python
    compares keys. *)
Definition counts := list (json * nat).

(** [counts.get(k, 0)] *)
Fixpoint count_of (k : json) (c : counts) : nat :=
  match c with
  | [] => 0
  | (k', n) :: c' => if eqb k' k then n else count_of k c'
  end.

(** [counts[k] = counts.get(k, 0) + 1] *)
Fixpoint bump (c : counts) (k : json) : counts :=
  match c with
  | [] => [(k, 1)]
  | (k', n) :: c' => if eqb k' k then (k', S n) :: c' else (k', n) :: bump c' k
  end.

(** A list or a dict cannot be a key. *)
Definition hashable (v : json) : bool :=
  match v with JList _ | JObj _ => false | _ => true end.

(** The loop of [summarize_run] over the lines of the file. *)
Fixpoint summarize_from (run_id : string) (c : counts) (lines : list line)
    : error + counts :=
  match lines with
  | [] => inr c
  | None :: rest => summarize_from run_id c rest
  | Some (JObj evt) :: rest =>
      if negb (eqb (get evt "run_id") (JStr run_id))
      then summarize_from run_id c rest
      else
        let event_type := get_default evt "event_type" (JStr "unknown") in
        if hashable event_type
        then summarize_from run_id (bump c event_type) rest
        else inl TypeError
  | Some _ :: rest => inl (Exn AttributeError)
  end.

Definition summarize_run (run_id log_path : string) (st : logfiles)
    : error + counts :=
  match st !! log_path with
  | None => inr []
  | Some lines => summarize_from run_id [] lines
  end.

(** The line is an event of the run [run_id] with the event type [k]. *)
Definition counted (run_id k : string) (l : line) : bool :=
  match l with
  | Some (JObj evt) =>
      eqb (get evt "run_id") (JStr run_id)
      && eqb (get_default evt "event_type" (JStr "unknown")) (JStr k)
  | _ => false
  end.

(** Every line that decodes is a dict, and the events of the run [run_id]
    have a string for event type, or none. *)
Definition well_typed (run_id : string) (l : line) : Prop :=
  match l with
  | None => True
  | Some (JObj evt) =>
      eqb (get evt "run_id") (JStr run_id) = true ->
      exists s, get_default evt "event_type" (JStr "unknown") = JStr s
  | Some _ => False
  end.

End Observability.

(** ** [00_03_b/agent_definitions.py]: the write tool and its log entries

    The write itself is taken by its outcome: it succeeds, or raises an
    exception.  [OP_ID] comes from [uuid4], [str_exc] is [str(e)]. *)
Module AgentTools.
Import Py Observability.

(** [_log]: nothing is logged while [EVENT_LOG_PATH] is empty. *)
Definition _log (event_log_path run_id : string) (now : StateUtils.datetime)
    (event_type : string) (fields : dict) (st : logfiles)
    : (error + unit) * logfiles :=
  if String.eqb event_log_path "" then (inr tt, st)
  else log_event run_id now event_log_path event_type fields st.

(** The [except] clause of the tool: log the failure, raise it again. *)
Definition failed (event_log_path run_id op_id : string)
    (now : StateUtils.datetime) (str_exc : error -> string) (e : error)
    (st : logfiles) : (error + string) * logfiles :=
  match _log event_log_path run_id now "tool_completed"
          [("op_id", JStr op_id); ("tool_name", JStr "write_local_json");
           ("status", JStr "error"); ("error", JStr (str_exc e))] st with
  | (inl e', st') => (inl e', st')
  | (inr _, st') => (inl e, st')
  end.

(** [write_local_json(path, payload)]: [t1] and [t2] are the instants of the
    two entries, [failure] the exception of the write, if any. *)
Definition write_local_json (event_log_path run_id op_id : string)
    (t1 t2 : StateUtils.datetime) (path : string) (failure : option error)
    (str_exc : error -> string) (st : logfiles)
    : (error + string) * logfiles :=
  match _log event_log_path run_id t1 "tool_invoked"
          [("op_id", JStr op_id); ("tool_name", JStr "write_local_json");
           ("tool_args", JObj [("path", JStr path)])] st with
  | (inl e, st1) => (inl e, st1)
  | (inr _, st1) =>
      match failure with
      | Some e => failed event_log_path run_id op_id t2 str_exc e st1
      | None =>
          match _log event_log_path run_id t2 "tool_completed"
                  [("op_id", JStr op_id); ("tool_name", JStr "write_local_json");
                   ("status", JStr "ok"); ("output_path", JStr path)] st1 with
          | (inl e, st2) => failed event_log_path run_id op_id t2 str_exc e st2
          | (inr _, st2) => (inr path, st2)
          end
      end
  end.

(** [iter_jsonl] of [scanner.py] on a log of this store: the lines that
    decode. *)
Definition iter_jsonl (st : logfiles) (path : string) : list json :=
  match st !! path with
  | None => []
  | Some lines => omap id lines
  end.

(** The decoded lines as events, when they all are dicts. *)
Fixpoint as_events (l : list json) : option (list dict) :=
  match l with
  | [] => Some []
  | JObj d :: l' => cons d <$> as_events l'
  | _ :: _ => None
  end.

(** The entry [main.py] logs before it runs the agent, and the two entries
    of a write that succeeds. *)
Definition started_event (run_id : string) (now : StateUtils.datetime)
    (agent : string) : dict :=
  event_of run_id now "agent_run_started" [("agent_name", JStr agent)].

Definition invoked_event (run_id op_id : string) (now : StateUtils.datetime)
    (path : string) : dict :=
  event_of run_id now "tool_invoked"
    [("op_id", JStr op_id); ("tool_name", JStr "write_local_json");
     ("tool_args", JObj [("path", JStr path)])].

Definition completed_event (run_id op_id : string) (now : StateUtils.datetime)
    (path : string) : dict :=
  event_of run_id now "tool_completed"
    [("op_id", JStr op_id); ("tool_name", JStr "write_local_json");
     ("status", JStr "ok"); ("output_path", JStr path)].

End AgentTools.

(** * Properties *)

(** ** Strings *)
Section StringFacts.
Import Py.

Lemma append_cons (x : ascii) (a b : string) :
  String x a +:+ b = String x (a +:+ b).
Proof. reflexivity. Qed.

Lemma chars_app (a b : string) : chars (a +:+ b) = chars a ++ chars b.
Proof.
  unfold chars. induction a as [|c a IH]; [done|].
  rewrite append_cons. simpl. by rewrite IH.
Qed.

Lemma str_of_chars (s : string) : str_of (chars s) = s.
Proof. apply string_of_list_ascii_of_string. Qed.

Lemma chars_str_of (l : list ascii) : chars (str_of l) = l.
Proof. apply list_ascii_of_string_of_list_ascii. Qed.

Lemma chars_inj (s t : string) : chars s = chars t -> s = t.
Proof.
  intros H. rewrite <- (str_of_chars s), <- (str_of_chars t). by rewrite H.
Qed.

Lemma ascii_eqb_true (a b : ascii) : Ascii.eqb a b = true <-> a = b.
Proof. apply Ascii.eqb_eq. Qed.

Lemma prefixb_spec (p l : list ascii) :
  prefixb p l = true <-> exists k, l = p ++ k.
Proof.
  revert l. induction p as [|a p IH]; intros l; simpl.
  - split; [intros _; by exists l | done].
  - destruct l as [|b l].
    + split; [done | by intros [k Hk]].
    + rewrite andb_true_iff, ascii_eqb_true, IH. split.
      * intros [-> [k ->]]. by exists k.
      * intros [k Hk]. injection Hk as -> ->. eauto.
Qed.

(** [s.endswith(t)] holds exactly when [s] is some text followed by [t]. *)
Lemma endswith_spec (s t : string) :
  endswith s t = true <-> exists k, s = k +:+ t.
Proof.
  unfold endswith. rewrite prefixb_spec. split.
  - intros [k Hk]. exists (str_of (rev k)). apply chars_inj.
    rewrite chars_app, chars_str_of.
    apply (f_equal (@rev ascii)) in Hk.
    by rewrite rev_involutive, rev_app_distr, rev_involutive in Hk.
  - intros [k ->]. exists (rev (chars k)).
    by rewrite chars_app, rev_app_distr.
Qed.

Lemma endswith_refl (s : string) : endswith s s = true.
Proof. apply endswith_spec. by exists "". Qed.

Lemma app_inj_r (s a b : string) : s +:+ a = s +:+ b -> a = b.
Proof.
  induction s as [|x s IH]; [done|]. rewrite !append_cons. intros H.
  injection H. auto.
Qed.

Lemma app_inj_l (a b s : string) : a +:+ s = b +:+ s -> a = b.
Proof.
  intros H. apply chars_inj. apply (f_equal chars) in H.
  rewrite !chars_app in H. by apply app_inv_tail in H.
Qed.

End StringFacts.

(** ** The matcher *)
Section RegexFacts.
Import Py Re.

Lemma run_le p l hi : run p l hi <= length l.
Proof.
  revert hi. induction l as [|a l IH]; intros hi; simpl; [lia|].
  destruct (p a); [|lia].
  destruct hi as [[|h]|]; [lia| |].
  - specialize (IH (Some h)). lia.
  - specialize (IH None). lia.
Qed.

(** All the characters of a run are in the class. *)
Lemma run_class p l hi n :
  n < run p l hi -> exists a, l !! n = Some a /\ p a = true.
Proof.
  revert hi n. induction l as [|a l IH]; intros hi n; simpl; [lia|].
  destruct (p a) eqn:Ha; [|lia].
  destruct hi as [[|h]|]; [lia| |]; intros Hn.
  - destruct n as [|n]; [eauto|]. apply (IH (Some h)). lia.
  - destruct n as [|n]; [eauto|]. apply (IH None). lia.
Qed.

Lemma try_down_sound {R} (k : nat -> option R) i lo n x :
  try_down k i lo n = Some x ->
  exists m, lo <= m /\ m <= n /\ k (i + m) = Some x.
Proof.
  induction n as [|n IH]; simpl.
  - destruct (Nat.ltb_spec 0 lo); [done|].
    destruct (k (i + 0)) eqn:Hk; [|done].
    intros [= <-]. exists 0. auto with lia.
  - destruct (Nat.ltb_spec (S n) lo); [done|].
    destruct (k (i + S n)) eqn:Hk.
    + intros [= <-]. exists (S n). auto with lia.
    + intros H'. destruct (IH H') as (m & ? & ? & ?).
      exists m. auto with lia.
Qed.

(** A successful run of the matcher has called its continuation at a
    position that is not before the start, and inside the text. *)
Lemma exec_sound {R} txt r :
  forall i c (k : nat -> caps -> option R) x,
    exec txt r i c k = Some x ->
    exists j c', i <= j /\ (i <= length txt -> j <= length txt)
                 /\ k j c' = Some x.
Proof.
  induction r as [|p|p lo hi|r1 IH1 r2 IH2|r1 IH1 r2 IH2| |name r IH];
    intros i c k x; simpl.
  - intros H. exists i, c. auto.
  - destruct (txt !! i) as [a|] eqn:Ha; [|done].
    destruct (p a); [|done]. intros H.
    apply lookup_lt_Some in Ha. exists (S i), c. auto with lia.
  - intros H. apply try_down_sound in H as (m & _ & Hm & Hk).
    pose proof (run_le p (drop i txt) hi) as Hrun.
    rewrite length_drop in Hrun.
    exists (i + m), c. split; [lia|]. split; [lia|done].
  - intros H. apply IH1 in H as (j & c' & ? & ? & H).
    apply IH2 in H as (j' & c'' & ? & ? & H).
    exists j', c''. auto with lia.
  - destruct (exec txt r1 i c k) eqn:H1.
    + intros [= <-]. by apply IH1 in H1.
    + apply IH2.
  - destruct (boundary txt i); [|done]. intros H. exists i, c. auto.
  - intros H. apply IH in H as (j & c' & ? & ? & H). eauto.
Qed.

Lemma match_at_span txt r i adv m :
  match_at txt r i adv = Some m ->
  m_start m = i /\ i <= m_end m
  /\ (adv = true -> i < m_end m)
  /\ (i <= length txt -> m_end m <= length txt).
Proof.
  unfold match_at. intros H.
  apply exec_sound in H as (j & c' & Hij & Hlen & H).
  destruct (adv && Nat.eqb j i) eqn:Hadv; [done|].
  injection H as <-. simpl. repeat split; [done| |done].
  intros ->. simpl in Hadv. apply Nat.eqb_neq in Hadv. lia.
Qed.

Lemma scan_from_ordered txt r fuel :
  forall pos adv, ordered pos (scan_from fuel txt r pos adv).
Proof.
  induction fuel as [|fuel IH]; intros pos adv; simpl; [done|].
  destruct (Nat.ltb (length txt) pos); [done|].
  destruct (match_at txt r pos adv) as [m|] eqn:Hm.
  - apply match_at_span in Hm as (Hs & He & _ & _). simpl.
    rewrite Hs. auto.
  - specialize (IH (S pos) false).
    destruct (scan_from fuel txt r (S pos) false) as [|m l]; [done|].
    simpl in *. destruct IH as (? & ? & ?). auto with lia.
Qed.

(** Each match the scanner yields is what one attempt at its start gives,
    and it lies inside the text. *)
Lemma scan_from_match_at txt r fuel :
  forall pos adv m,
    m ∈ scan_from fuel txt r pos adv ->
    exists adv', match_at txt r (m_start m) adv' = Some m
                 /\ m_end m <= length txt.
Proof.
  induction fuel as [|fuel IH]; intros pos adv m; simpl.
  - by intros ?%elem_of_nil.
  - destruct (Nat.ltb_spec (length txt) pos) as [|Hpos];
      [by intros ?%elem_of_nil|].
    destruct (match_at txt r pos adv) as [m'|] eqn:Hm.
    + intros [->|Hin]%elem_of_cons; [|by eapply IH].
      pose proof (match_at_span _ _ _ _ _ Hm) as (Hs & _ & _ & Hlen).
      rewrite Hs. eauto.
    + apply IH.
Qed.

Lemma scan_from_past_end txt r fuel pos adv :
  length txt < pos -> scan_from fuel txt r pos adv = [].
Proof.
  intros H. destruct fuel; simpl; [done|].
  by destruct (Nat.ltb_spec (length txt) pos); [|lia].
Qed.

(** The scanner skips no match: before the start of the first match it
    yields, every attempt fails. *)
Lemma scan_from_leftmost txt r fuel :
  forall pos adv m l,
    scan_from fuel txt r pos adv = m :: l ->
    forall p, pos <= p -> p < m_start m ->
      match_at txt r p (adv && Nat.eqb p pos) = None.
Proof.
  induction fuel as [|fuel IH]; intros pos adv m l; simpl; [done|].
  destruct (Nat.ltb (length txt) pos); [done|].
  destruct (match_at txt r pos adv) as [m'|] eqn:Hm.
  - intros [= -> _] p Hp Hlt.
    apply match_at_span in Hm as (Hs & _). lia.
  - intros Hscan p Hp Hlt.
    destruct (Nat.eqb_spec p pos) as [->|Hne].
    + by rewrite andb_true_r.
    + rewrite andb_false_r.
      pose proof (IH (S pos) false m l Hscan p) as H. simpl in H.
      apply H; lia.
Qed.

(** The fuel of [finditer] is never used up: more fuel changes nothing. *)
Lemma scan_from_fuel txt r :
  forall fuel fuel' pos adv,
    budget txt pos adv <= fuel -> budget txt pos adv <= fuel' ->
    scan_from fuel txt r pos adv = scan_from fuel' txt r pos adv.
Proof.
  unfold budget.
  induction fuel as [|fuel IH]; intros fuel' pos adv H1 H2.
  - assert (length txt < pos) by (destruct adv; lia).
    by rewrite !scan_from_past_end.
  - destruct fuel' as [|fuel'].
    { assert (length txt < pos) by (destruct adv; lia).
      by rewrite !scan_from_past_end. }
    simpl. destruct (Nat.ltb_spec (length txt) pos) as [|Hpos]; [done|].
    destruct (match_at txt r pos adv) as [m|] eqn:Hm.
    + apply match_at_span in Hm as (_ & He & Hadv & _).
      f_equal. destruct (Nat.eqb_spec (m_end m) pos) as [Heq|Hne].
      * destruct adv; [specialize (Hadv eq_refl); lia|].
        apply IH; rewrite Heq; lia.
      * apply IH; destruct adv; lia.
    + apply IH; destruct adv; lia.
Qed.

Lemma finditer_fuel r s fuel :
  attempts (chars s) <= fuel ->
  scan_from fuel (chars s) r 0 false = finditer r s.
Proof.
  intros H. unfold finditer. apply scan_from_fuel; [|];
    unfold budget, attempts in *; lia.
Qed.

Lemma finditer_ordered r s : ordered 0 (finditer r s).
Proof. apply scan_from_ordered. Qed.

End RegexFacts.

(** ** The scanner *)
Section ScannerFacts.
Import Py Re Scanner.
Local Open Scope re_scope.

Lemma join_cons2 sep (a b : string) (l : list string) :
  join sep (a :: b :: l) = a +:+ sep +:+ join sep (b :: l).
Proof. reflexivity. Qed.

Lemma flatten_text_str (s : string) : flatten_text (JStr s) = s.
Proof. reflexivity. Qed.

(** C9. Flattening a sequence emits the flattened elements in the order of
    the sequence, a line feed between two of them; a string flattens to
    itself, so flattening the result of a flattening changes nothing; [None]
    flattens to the empty string. *)
Theorem flatten_text_order_idempotent :
  (forall x, flatten_text (JList [x]) = flatten_text x)
  /\ (forall x y l,
        flatten_text (JList (x :: y :: l))
        = flatten_text x +:+ nl +:+ flatten_text (JList (y :: l)))
  /\ (forall s, flatten_text (JStr s) = s)
  /\ (forall x, flatten_text (JStr (flatten_text x)) = flatten_text x)
  /\ flatten_text JNull = "".
Proof.
  split; [reflexivity|]. split.
  { intros x y l. change (flatten_text (JList (x :: y :: l)))
      with (join nl (flatten_text x :: flatten_text y :: map flatten_text l)).
    by rewrite join_cons2. }
  split; [apply flatten_text_str|]. split; [|reflexivity].
  intros x. apply flatten_text_str.
Qed.

Lemma card_findings_type text l :
  Forall (fun f => f_type f = "card_last4") (map (card_finding text) l).
Proof. induction l; simpl; constructor; auto. Qed.

Lemma email_findings_type text l :
  Forall (fun f => f_type f = "email") (map (email_finding text) l).
Proof. induction l; simpl; constructor; auto. Qed.

Lemma lookup_typed_left {A} (P Q : A -> Prop) (l k : list A) i x :
  Forall P l -> Forall Q k -> (forall y, P y -> Q y -> False) ->
  (l ++ k) !! i = Some x -> P x -> i < length l.
Proof.
  intros Hl Hk Hdis Hi Hx.
  destruct (Nat.lt_ge_cases i (length l)) as [|Hge]; [done|].
  rewrite lookup_app_r in Hi by done.
  apply list_elem_of_lookup_2 in Hi.
  rewrite Forall_forall in Hk. destruct (Hdis x Hx (Hk _ Hi)).
Qed.

Lemma lookup_typed_right {A} (P Q : A -> Prop) (l k : list A) i x :
  Forall P l -> Forall Q k -> (forall y, P y -> Q y -> False) ->
  (l ++ k) !! i = Some x -> Q x -> length l <= i.
Proof.
  intros Hl Hk Hdis Hi Hx.
  destruct (Nat.lt_ge_cases i (length l)) as [Hlt|]; [|done].
  rewrite lookup_app_l in Hi by done.
  apply list_elem_of_lookup_2 in Hi.
  rewrite Forall_forall in Hl. destruct (Hdis x (Hl _ Hi) Hx).
Qed.

(** C5, as the code has it.  The findings are grouped by detector: one
    [card_last4] finding for each match of the card pattern, in text order,
    then one [email] finding for each match of the email pattern, in text
    order; nothing is merged or dropped.  So every [card_last4] finding
    comes before every [email] finding, wherever the two were matched. *)
Theorem scan_for_sensitive_grouped (text : string) :
  let cards := finditer CARD_LAST4_RE text in
  let emails := finditer EMAIL_RE text in
  scan_for_sensitive text
    = map (card_finding text) cards ++ map (email_finding text) emails
  /\ ordered 0 cards /\ ordered 0 emails
  /\ Forall (fun f => f_type f = "card_last4") (map (card_finding text) cards)
  /\ Forall (fun f => f_type f = "email") (map (email_finding text) emails)
  /\ length (scan_for_sensitive text) = length cards + length emails
  /\ (forall i j f g,
        scan_for_sensitive text !! i = Some f -> f_type f = "email" ->
        scan_for_sensitive text !! j = Some g -> f_type g = "card_last4" ->
        j < i).
Proof.
  intros cards emails. split; [done|].
  split; [apply finditer_ordered|]. split; [apply finditer_ordered|].
  split; [apply card_findings_type|]. split; [apply email_findings_type|].
  split; [unfold scan_for_sensitive; by rewrite length_app, !length_map|].
  intros i j f g Hi Hf Hj Hg. unfold scan_for_sensitive in Hi, Hj.
  assert (forall y : finding,
             f_type y = "card_last4" -> f_type y = "email" -> False) as Hdis
    by (intros y -> [=]).
  pose proof (lookup_typed_right _ _ _ _ _ _ (card_findings_type text _)
                (email_findings_type text _) Hdis Hi Hf) as Hge.
  pose proof (lookup_typed_left _ _ _ _ _ _ (card_findings_type text _)
                (email_findings_type text _) Hdis Hj Hg) as Hlt.
  lia.
Qed.

(** On a text with the email first, the card finding still comes first. *)
Lemma scan_for_sensitive_grouped_witness :
  scan_for_sensitive "a@b.co card ending 4821" !! 1
    = Some {| f_type := "email"; f_match := "a@b.co"; f_value := "a@b.co" |}
  /\ scan_for_sensitive "a@b.co card ending 4821" !! 0
    = Some {| f_type := "card_last4"; f_match := "card ending 4821";
              f_value := "4821" |}
  /\ 0 < 1.
Proof.
  split; [vm_compute; reflexivity|]. split; [vm_compute; reflexivity|].
  destruct (scan_for_sensitive_grouped "a@b.co card ending 4821")
    as (_ & _ & _ & _ & _ & _ & H).
  apply (H 1 0 {| f_type := "email"; f_match := "a@b.co"; f_value := "a@b.co" |}
           {| f_type := "card_last4"; f_match := "card ending 4821";
              f_value := "4821" |});
    vm_compute; reflexivity.
Defined.

(** The examples of the detectors: one finding each, none on the empty
    text, and a repeated match reported each time. *)
Example scan_examples :
  scan_for_sensitive "card ending 4821"
    = [{| f_type := "card_last4"; f_match := "card ending 4821";
          f_value := "4821" |}]
  /\ scan_for_sensitive "contact: a@b.co"
    = [{| f_type := "email"; f_match := "a@b.co"; f_value := "a@b.co" |}]
  /\ scan_for_sensitive "" = []
  /\ scan_for_sensitive "a@b.co, a@b.co"
    = [{| f_type := "email"; f_match := "a@b.co"; f_value := "a@b.co" |};
       {| f_type := "email"; f_match := "a@b.co"; f_value := "a@b.co" |}].
Proof. repeat split; vm_compute; reflexivity. Qed.

(** C5, as stated, fails: the email of this text is matched at position 0,
    the card suffix at position 7, and the card finding comes first. *)
Lemma scan_match_order_counterexample :
  ~ in_match_order "a@b.co card ending 4821".
Proof.
  intros H.
  destruct (H {| m_start := 0; m_end := 6; m_caps := [] |}
              {| m_start := 7; m_end := 23; m_caps := [("last4", (19, 23))] |})
    as (i & j & Hi & Hj & Hij).
  - vm_compute. apply list_elem_of_here.
  - vm_compute. apply list_elem_of_here.
  - simpl. lia.
  - destruct j as [|j]; [lia|].
    destruct j as [|j]; [|destruct j; vm_compute in Hj; discriminate].
    vm_compute in Hj. discriminate.
Qed.

(** *** The detectors of the rollback flow against those of the scanner *)

Lemma exec_istr {R} txt s :
  forall i c (k : nat -> caps -> option R) x,
    exec txt (istr s) i c k = Some x ->
    prefix_ci (chars s) (drop i txt) = true
    /\ k (i + String.length s) c = Some x.
Proof.
  induction s as [|a s IH]; intros i c k x; simpl.
  - rewrite Nat.add_0_r. auto.
  - destruct (txt !! i) as [b|] eqn:Hb; [|done].
    destruct (Ascii.eqb (lower b) (lower a)) eqn:Hab; [|done].
    intros H. apply IH in H as [Hp Hk].
    rewrite (drop_S _ _ _ Hb). simpl. rewrite Hab, Hp.
    by rewrite <- Nat.add_succ_comm.
Qed.

Lemma exec_seq_istr {R} txt s r i c (k : nat -> caps -> option R) x :
  exec txt (istr s · r) i c k = Some x ->
  prefix_ci (chars s) (drop i txt) = true.
Proof. simpl. intros H. by apply exec_istr in H as [? _]. Qed.

Lemma exec_stars {R} txt i c (k : nat -> caps -> option R) x :
  exec txt (Rep (Ascii.eqb "*") 2 None) i c k = Some x ->
  prefix_ci (chars "**") (drop i txt) = true.
Proof.
  simpl. intros H. apply try_down_sound in H as (m & Hlo & Hm & _).
  destruct (run_class (Ascii.eqb "*") (drop i txt) None 0) as (a & Ha & Hpa);
    [lia|].
  destruct (run_class (Ascii.eqb "*") (drop i txt) None 1) as (b & Hb & Hpb);
    [lia|].
  apply Ascii.eqb_eq in Hpa as <-. apply Ascii.eqb_eq in Hpb as <-.
  destruct (drop i txt) as [|a [|b l]]; simplify_eq/=. done.
Qed.

Lemma exec_seq {R} txt r1 r2 i c (k : nat -> caps -> option R) :
  exec txt (r1 · r2) i c k = exec txt r1 i c (fun j c' => exec txt r2 j c' k).
Proof. reflexivity. Qed.

Lemma exec_alt {R} txt r1 r2 i c (k : nat -> caps -> option R) :
  exec txt (r1 |+| r2) i c k
  = match exec txt r1 i c k with
    | Some x => Some x
    | None => exec txt r2 i c k
    end.
Proof. reflexivity. Qed.

Lemma rollback_match_cue txt i adv m :
  match_at txt Rollback.CARD_LAST4_RE i adv = Some m ->
  existsb (fun cue => prefix_ci (chars cue) (drop i txt))
          ["ending"; "card"; "**"] = true.
Proof.
  unfold match_at, Rollback.CARD_LAST4_RE.
  rewrite (exec_seq _ (_ |+| _)), !exec_alt. cbn [existsb].
  match goal with
  | |- context [exec txt (istr "ending" · ?r) i [] ?K] =>
      destruct (exec txt (istr "ending" · r) i [] K) eqn:H1
  end.
  { intros _. apply exec_seq_istr in H1. by rewrite H1. }
  match goal with
  | |- context [exec txt (istr "card" · ?r) i [] ?K] =>
      destruct (exec txt (istr "card" · r) i [] K) eqn:H2
  end.
  { intros _. apply exec_seq_istr in H2. rewrite H2. by rewrite orb_true_r. }
  intros H3. apply exec_stars in H3. rewrite H3.
  by rewrite !orb_true_r.
Qed.

Lemma filter_email_cards text l :
  List.filter is_email (map (card_finding text) l) = [].
Proof. induction l; simpl; auto. Qed.

Lemma filter_email_emails text l :
  List.filter is_email (map (email_finding text) l) = map (email_finding text) l.
Proof. induction l; simpl; [done|]. by f_equal. Qed.

(** C3, as the code has it.  For every document the two scanners report
    the same email findings.  The card pattern of the rollback flow is
    another one: each of its matches starts with [ending], [card] or two
    asterisks, so on [last 4: 4821] the scanner component reports a
    [card_last4] finding and the rollback flow none.  On the three examples
    the rollback file gives for its pattern the two agree. *)
Theorem rollback_scan_against_scanner (text : string) :
  List.filter is_email (Rollback.scan_for_sensitive text)
    = List.filter is_email (scan_for_sensitive text)
  /\ Forall (fun m => Rollback.starts_with_cue text m = true)
            (finditer Rollback.CARD_LAST4_RE text)
  /\ (scan_for_sensitive "last 4: 4821"
        = [{| f_type := "card_last4"; f_match := "last 4: 4821";
              f_value := "4821" |}]
      /\ Rollback.scan_for_sensitive "last 4: 4821" = [])
  /\ Forall (fun t => Rollback.scan_for_sensitive t = scan_for_sensitive t)
            ["ending in 4821"; "card ending 4821"; "****4821"].
Proof.
  split.
  { unfold Rollback.scan_for_sensitive, scan_for_sensitive.
    rewrite !List.filter_app, !filter_email_cards, !filter_email_emails.
    reflexivity. }
  split.
  { apply Forall_forall. intros m Hm.
    apply scan_from_match_at in Hm as (adv & Hm & _).
    by apply rollback_match_cue in Hm. }
  split; [split; vm_compute; reflexivity|].
  repeat (constructor; [vm_compute; reflexivity|]). constructor.
Qed.

(** C3, as stated, fails: the two scanners differ on this document. *)
Lemma rollback_scan_counterexample :
  Rollback.scan_for_sensitive "last 4: 4821"
  <> scan_for_sensitive "last 4: 4821".
Proof. vm_compute. discriminate. Qed.

End ScannerFacts.

(** ** Writer attribution *)
Section AttributionFacts.
Import Py Scanner.

Lemma match_tier_not_completion tn tb e :
  is_write_completion e = false -> match_tier tn tb e = Ok None.
Proof.
  unfold is_write_completion, match_tier. intros H.
  destruct (eqb (get e "event_type") (JStr "tool_completed")); [|done].
  destruct (eqb (get e "tool_name") (JStr "write_local_json")); done.
Qed.

Lemma logged_path_map e :
  args_is_map e = true -> exists p, logged_path e = Ok p.
Proof.
  unfold args_is_map, logged_path, get_default. intros H.
  destruct (truthy (get e "output_path")); [eauto|].
  destruct (lookup "tool_args" e) as [[]|]; try done; simpl; eauto.
Qed.

Lemma match_tier_no_match target e :
  (is_write_completion e = true -> truthy (get e "output_path") = false ->
   args_is_map e = true) ->
  ~ matching_completion target e ->
  match_tier (_norm_path (JStr target))
             (basename (_norm_path (JStr target))) e = Ok None.
Proof.
  intros Hwf Hno.
  destruct (is_write_completion e) eqn:Hw;
    [|by apply match_tier_not_completion].
  assert (exists p, logged_path e = Ok p) as [p Hp].
  { destruct (truthy (get e "output_path")) eqn:Ht.
    - unfold logged_path. rewrite Ht. eauto.
    - apply logged_path_map; auto. }
  assert (truthy p = true -> tier_match target p = false) as Htier.
  { intros Ht. destruct (tier_match target p) eqn:Hm; [|done].
    destruct Hno. split; [done|]. eauto. }
  unfold is_write_completion in Hw. apply andb_true_iff in Hw as [Hw1 Hw2].
  unfold match_tier. rewrite Hw1, Hw2, Hp. simpl.
  destruct (truthy p); [|done]. simpl.
  specialize (Htier eq_refl). unfold tier_match in Htier.
  apply orb_false_iff in Htier as [Htier H3].
  apply orb_false_iff in Htier as [H1 H2].
  by rewrite H1, H2, H3.
Qed.

Lemma item_lookup (events : list event) i e :
  events !! i = Some e -> item events i = Ok e.
Proof. unfold item. by intros ->. Qed.

Lemma find_write_none events tn tb n :
  n <= length events ->
  (forall i e, i < n -> events !! i = Some e -> match_tier tn tb e = Ok None) ->
  find_write events tn tb n = Ok None.
Proof.
  induction n as [|n IH]; intros Hn Hall; simpl; [done|].
  destruct (lookup_lt_is_Some_2 events n) as [e He]; [lia|].
  rewrite (item_lookup _ _ _ He). simpl.
  rewrite (Hall n e); [|lia|done]. simpl.
  apply IH; [lia|]. intros i e' Hi. apply Hall. lia.
Qed.

(** The two later loops read events below the index of the match only:
    they always return. *)
Lemma find_agent_ok events rid n :
  n <= length events -> exists r, find_agent events rid n = Ok r.
Proof.
  induction n as [|n IH]; intros Hn; simpl; [eauto|].
  destruct (lookup_lt_is_Some_2 events n) as [e He]; [lia|].
  rewrite (item_lookup _ _ _ He). simpl.
  repeat case_match; eauto with lia.
Qed.

Lemma find_invoke_ok events rid oid n :
  n <= length events -> exists r, find_invoke events rid oid n = Ok r.
Proof.
  induction n as [|n IH]; intros Hn; simpl; [eauto|].
  destruct (lookup_lt_is_Some_2 events n) as [e He]; [lia|].
  rewrite (item_lookup _ _ _ He). simpl.
  repeat case_match; eauto with lia.
Qed.

(** C7, as the code has it.  When the [tool_args] of every write-tool
    completion that has no [output_path] is absent or a map, and no
    write-tool completion of the log matches the target under any of the
    three tiers, [attribute_writer] returns [None] and raises nothing. *)
Theorem attribute_writer_unattributed (events : list event) (target : string) :
  Forall (fun e => is_write_completion e = true ->
                   truthy (get e "output_path") = false ->
                   args_is_map e = true) events ->
  Forall (fun e => ~ matching_completion target e) events ->
  attribute_writer events target = Ok None.
Proof.
  intros Hwf Hno. unfold attribute_writer.
  rewrite find_write_none; [done|done|].
  intros i e _ He. apply list_elem_of_lookup_2 in He.
  rewrite Forall_forall in Hwf, Hno.
  apply match_tier_no_match; auto.
Qed.

(** The empty log is the simplest case. *)
Lemma attribute_writer_empty_log target : attribute_writer [] target = Ok None.
Proof. reflexivity. Qed.

(** On the sample log the full path is attributed at the exact tier, with
    the agent, the operation and the invocation of the write. *)
Example attribute_exact_path :
  attribute_writer sample_log "/a/out.json"
  = Ok (Some {|
      match_mode := "exact_path";
      target_output_arg := "/a/out.json";
      output_path_in_log := JStr "/a/out.json";
      run_id := JStr "run-1";
      agent_name := JStr "shopper";
      agent_run_started_ts := JStr "2026-01-01T00:00:00+00:00";
      tool_name := "write_local_json";
      op_id := JStr "op-1";
      tool_invoked_ts := JStr "2026-01-01T00:00:01+00:00";
      tool_completed_ts := JStr "2026-01-01T00:00:02+00:00";
      tool_args := JObj [("path", JStr "/a/out.json")]
    |}).
Proof. vm_compute. reflexivity. Qed.

Lemma attribute_writer_unattributed_witness :
  attribute_writer sample_log "/b/report.txt" = Ok None.
Proof.
  apply (attribute_writer_unattributed sample_log "/b/report.txt").
  - repeat constructor; intros; reflexivity.
  - repeat constructor; intros [Hw (p & Hp & _ & Hm)];
      vm_compute in Hw; try discriminate.
    vm_compute in Hp. injection Hp as <-. vm_compute in Hm. discriminate.
Defined.

(** C7, as stated, fails: this log has no write-tool completion that
    matches the target (its only completion records no path at all), and
    [attribute_writer] raises [AttributeError] on it. *)
Lemma attribute_writer_raises_counterexample :
  Forall (fun e => ~ matching_completion "/a/out.json" e) [ev_null_args]
  /\ attribute_writer [ev_null_args] "/a/out.json" = Raise AttributeError.
Proof.
  split; [|reflexivity].
  repeat constructor. intros [_ (p & Hp & _)]. vm_compute in Hp. discriminate.
Qed.

Lemma find_write_skip tn tb (l post : list event) :
  Forall (fun e => is_write_completion e = false) post ->
  forall k, k <= length post ->
    find_write (l ++ post) tn tb (length l + k)
    = find_write (l ++ post) tn tb (length l).
Proof.
  intros Hpost. induction k as [|k IH]; intros Hk.
  - by rewrite Nat.add_0_r.
  - rewrite Nat.add_succ_r. simpl.
    destruct (lookup_lt_is_Some_2 post k) as [e He]; [lia|].
    assert ((l ++ post) !! (length l + k) = Some e) as Hl.
    { rewrite lookup_app_r by lia. by replace (length l + k - length l) with k by lia. }
    rewrite (item_lookup _ _ _ Hl). simpl.
    rewrite Forall_forall in Hpost.
    rewrite match_tier_not_completion
      by (apply Hpost; by eapply list_elem_of_lookup_2).
    simpl. apply IH. lia.
Qed.

Lemma bind_ok {A B} (f : A -> result B) (a : A) : mbind f (Ok a) = f a.
Proof. reflexivity. Qed.

Lemma find_write_at tn tb (pre post : list event) e mode :
  match_tier tn tb e = Ok (Some mode) ->
  Forall (fun e' => is_write_completion e' = false) post ->
  find_write (pre ++ e :: post) tn tb (length (pre ++ e :: post))
  = Ok (Some (length pre, mode)).
Proof.
  intros He Hpost.
  replace (pre ++ e :: post) with ((pre ++ [e]) ++ post)
    by (by rewrite <- app_assoc).
  rewrite length_app, find_write_skip by done.
  rewrite length_app. simpl length. rewrite Nat.add_1_r.
  assert (((pre ++ [e]) ++ post) !! length pre = Some e) as Hl.
  { rewrite <- app_assoc. simpl. by apply list_lookup_middle. }
  cbn [find_write]. rewrite (item_lookup _ _ _ Hl), bind_ok, He, bind_ok.
  reflexivity.
Qed.

(** C2, as the code has it.  When the only write-tool completion of the log
    records the output path [/a/out.json], attribution on the bare target
    [out.json] succeeds at the suffix tier, which comes before the
    filename-only tier: [match_mode] is [suffix_path]. *)
Theorem attribute_bare_name_suffix_tier (pre post : list event) (e : event) :
  is_write_completion e = true ->
  logged_path e = Ok (JStr "/a/out.json") ->
  Forall (fun e' => is_write_completion e' = false) (pre ++ post) ->
  exists a,
    attribute_writer (pre ++ e :: post) "out.json" = Ok (Some a)
    /\ match_mode a = "suffix_path"
    /\ output_path_in_log a = JStr "/a/out.json".
Proof.
  intros Hw Hp Hothers. apply Forall_app in Hothers as [_ Hpost].
  unfold attribute_writer. cbv zeta.
  rewrite (find_write_at _ _ pre post e "suffix_path"); [|
    unfold is_write_completion in Hw; apply andb_true_iff in Hw as [Hw1 Hw2];
    unfold match_tier; rewrite Hw1, Hw2, Hp; reflexivity | done].
  rewrite bind_ok.
  rewrite (item_lookup _ _ e) by apply list_lookup_middle, eq_refl.
  rewrite bind_ok, Hp, bind_ok.
  destruct (find_agent_ok (pre ++ e :: post) (get e "run_id") (S (length pre)))
    as [ra ->].
  { rewrite length_app. simpl. lia. }
  destruct (find_invoke_ok (pre ++ e :: post) (get e "run_id")
              (get e "op_id") (S (length pre))) as [ri ->].
  { rewrite length_app. simpl. lia. }
  rewrite !bind_ok. eauto.
Qed.

Lemma attribute_bare_name_suffix_tier_witness :
  exists a,
    attribute_writer sample_log "out.json" = Ok (Some a)
    /\ match_mode a = "suffix_path"
    /\ output_path_in_log a = JStr "/a/out.json".
Proof.
  apply (attribute_bare_name_suffix_tier [ev_started; ev_invoked] [] ev_completed).
  - reflexivity.
  - reflexivity.
  - repeat constructor.
Defined.

(** C2, as stated, fails: on the log of the claim the mode is not
    [basename]. *)
Lemma attribute_bare_name_counterexample :
  ~ exists a,
      attribute_writer sample_log "out.json" = Ok (Some a)
      /\ match_mode a = "basename".
Proof.
  intros (a & Ha & Hm). vm_compute in Ha. injection Ha as <-.
  simpl in Hm. discriminate.
Qed.

End AttributionFacts.

(** ** The snapshot store *)
Section SnapshotFacts.
Import Py StateUtils.

Lemma after_last_slash_no_slash l acc :
  Forall (fun c => c <> "/"%char) acc ->
  Forall (fun c => c <> "/"%char) (after_last_slash l acc).
Proof.
  revert acc. induction l as [|c l IH]; intros acc Hacc; simpl.
  - by apply Forall_rev.
  - destruct (Ascii.eqb_spec c "/"); [by apply IH|].
    apply IH. by constructor.
Qed.

Lemma basename_no_slash p : Forall (fun c => c <> "/"%char) (chars (basename p)).
Proof.
  unfold basename. rewrite chars_str_of. by apply after_last_slash_no_slash.
Qed.

Lemma snap_name_not_absolute src label now rid :
  startswith (snap_name src label now rid) "/" = false.
Proof.
  unfold startswith, snap_name. rewrite chars_app.
  pose proof (basename_no_slash src) as H.
  destruct (chars (basename src)) as [|c l]; [reflexivity|].
  apply Forall_cons in H as [Hc _].
  change (Ascii.eqb "/" c && true = false).
  destruct (Ascii.eqb_spec "/" c); [congruence|done].
Qed.

(** Joining a directory and a relative name keeps the name apart. *)
Lemma path_join_inj dir n1 n2 :
  startswith n1 "/" = false -> startswith n2 "/" = false ->
  path_join dir n1 = path_join dir n2 -> n1 = n2.
Proof.
  unfold path_join. intros -> ->.
  destruct (String.eqb dir "" || endswith dir "/").
  - apply app_inj_r.
  - intros H. apply app_inj_r in H. by apply app_inj_r in H.
Qed.

Lemma same_second_slug t1 t2 :
  same_second t1 t2 -> utc_ts_slug t1 = utc_ts_slug t2.
Proof.
  intros (Hy & Hmo & Hd & Hh & Hmi & Hs). unfold utc_ts_slug.
  by rewrite Hy, Hmo, Hd, Hh, Hmi, Hs.
Qed.

Lemma snap_path_eq_iff src dir label t1 t2 r1 r2 :
  same_second t1 t2 ->
  snap_path src dir label t1 r1 = snap_path src dir label t2 r2 <-> r1 = r2.
Proof.
  intros Hsec. unfold snap_path. split.
  - intros H. apply path_join_inj in H; try apply snap_name_not_absolute.
    unfold snap_name in H. rewrite (same_second_slug _ _ Hsec) in H.
    do 6 apply app_inj_r in H. by apply app_inj_l in H.
  - intros ->. unfold snap_name. by rewrite (same_second_slug _ _ Hsec).
Qed.

Lemma snapshot_file_present src dir label rid now (st : fs) f :
  st !! src = Some f ->
  snapshot_file src dir label rid now st
  = (Ok (snap_path src dir label now rid),
     <[snap_path src dir label now rid := f]> st).
Proof.
  intros Hsrc. unfold snapshot_file, ensure_dir, exists_, copy2.
  by rewrite Hsrc.
Qed.



(** The name the sample snapshot gets, at either instant of the second. *)
Lemma sample_snap_path :
  snap_path artifact "snapshot" "before" t_early "run-1"
    = "snapshot/shopping_summary.json.before.20260102T030405Z.run-1.json"
  /\ snap_path artifact "snapshot" "before" t_late "run-1"
    = "snapshot/shopping_summary.json.before.20260102T030405Z.run-1.json".
Proof. split; vm_compute; reflexivity. Qed.




End SnapshotFacts.

(** ** The recovery validator *)
Section ValidateFacts.
Import Py.

(** C6, as the code has it.  [validate_paths] passes exactly when
    [output_file] is a string and, separators normalized, that string ends
    with the expected path (equality being the case of nothing before it):
    the expected path is a suffix of the declared one. *)
Theorem validate_paths_passes_iff (obj : dict) (expected : string) :
  ValidateE.validate_paths obj expected = []
  <-> exists out_file k,
        get obj "output_file" = JStr out_file
        /\ replace1 "\" "/" out_file = k +:+ replace1 "\" "/" expected.
Proof.
  unfold ValidateE.validate_paths, Validate.validate_paths.
  destruct (get obj "output_file") as [| | | |s| |]; try (split; [done|]);
    try by intros (? & ? & ? & _).
  set (o := replace1 "\" "/" s). set (x := replace1 "\" "/" expected).
  destruct (endswith o x) eqn:He.
  - rewrite orb_true_r. simpl. split; [|done]. intros _.
    apply endswith_spec in He as [k Hk]. eauto.
  - destruct (String.eqb_spec o x) as [Heq|Hne].
    { rewrite Heq, endswith_refl in He. done. }
    simpl. split; [done|]. intros (s' & k & [= <-] & Hk).
    assert (endswith o x = true) as Ht by (apply endswith_spec; eauto).
    congruence.
Qed.

(** C6, as stated, fails in both directions: a declared path that is a
    suffix of the expected one is refused, and a declared path that merely
    ends with the expected one is accepted. *)
Lemma validate_paths_counterexample :
  (endswith "/a/out.json" "out.json" = true
   /\ ValidateE.validate_paths [("output_file", JStr "out.json")] "/a/out.json"
      = ["output_file does not match expected path. output_file=out.json"])
  /\ (endswith "out.json" "/a/out.json" = false
      /\ "/a/out.json" <> "out.json"
      /\ ValidateE.validate_paths [("output_file", JStr "/a/out.json")] "out.json"
         = []).
Proof. repeat split; try (vm_compute; reflexivity). discriminate. Qed.

Lemma candidates_none events out :
  Forall (fun e => Validate.recovery_entry_for (replace1 "\" "/" out) e = false)
         events ->
  Validate.candidates events out = [].
Proof.
  unfold Validate.candidates. induction 1 as [|e l He _ IH]; simpl; [done|].
  by rewrite He.
Qed.

Lemma validate_recovery_logged_none none_found ex events out snap q :
  Forall (fun e => Validate.recovery_entry_for (replace1 "\" "/" out) e = false)
         events ->
  Validate.validate_recovery_logged_with none_found ex events out snap q
  = none_found.
Proof.
  intros H. unfold Validate.validate_recovery_logged_with.
  by rewrite candidates_none.
Qed.

(** C1, on [00_05_b/validate.py]: when no entry of the action log is a
    [recovery_performed] entry whose output path ends with the validated
    path, the check returns no issue at all, so it passes. *)
Theorem recovery_logged_begin_no_issue ex events out snap q :
  Forall (fun e => Validate.recovery_entry_for (replace1 "\" "/" out) e = false)
         events ->
  ValidateB.validate_recovery_logged ex events out snap q = [].
Proof. apply validate_recovery_logged_none. Qed.

Lemma recovery_logged_begin_no_issue_witness :
  ValidateB.validate_recovery_logged (fun _ => false) [ValidateB.skipped_event]
    "out/shopping_summary.json" "snapshot/s.json" None = []
  /\ ValidateB.validate_recovery_logged (fun _ => false) []
       "out/shopping_summary.json" "snapshot/s.json" None = [].
Proof.
  split.
  - apply (recovery_logged_begin_no_issue (fun _ => false)
             [ValidateB.skipped_event] "out/shopping_summary.json").
    repeat constructor.
  - apply (recovery_logged_begin_no_issue (fun _ => false) []
             "out/shopping_summary.json").
    constructor.
Defined.

(** On [00_05_e/validate.py] the claim holds: without such an entry the
    check reports its issue. *)
Lemma recovery_logged_end_issue ex events out snap q :
  Forall (fun e => Validate.recovery_entry_for (replace1 "\" "/" out) e = false)
         events ->
  ValidateE.validate_recovery_logged ex events out snap q
  = ["No recovery_performed event found in action log for this output_path."].
Proof. apply validate_recovery_logged_none. Qed.

(** *** The overall decision of [00_05_e/validate.py] *)

Lemma main_checks (w : ValidateE.world) (a : ValidateE.args) bp cur base :
  ValidateE.w_exists w (ValidateE.a_output a) = true ->
  ValidateE.pick_baseline w a = Some bp ->
  bp <> "" ->
  ValidateE.w_exists w bp = true ->
  ValidateE.w_load_json w (ValidateE.a_output a) = Ok cur ->
  ValidateE.w_load_json w bp = Ok base ->
  let checks :=
    ValidateE.run_checks w (ValidateE.a_output a) bp (ValidateE.a_action_log a)
      (ValidateE.a_quarantine a) cur base in
  ValidateE.main w a
  = if ValidateE.overall_ok checks
    then {| ValidateE.o_checks := checks;
            ValidateE.o_verdict := Some "READY";
            ValidateE.o_exit := Ok tt |}
    else {| ValidateE.o_checks := checks;
            ValidateE.o_verdict := Some "NOT READY";
            ValidateE.o_exit := Raise (SystemExit 1) |}.
Proof.
  intros Hout Hpick Hne Hbp Hcur Hbase checks. unfold ValidateE.main.
  rewrite Hout, Hpick. simpl.
  destruct (String.eqb_spec bp ""); [done|].
  rewrite Hbp, Hcur, Hbase. reflexivity.
Qed.

Lemma overall_ok_false checks name c :
  In (name, c) checks -> ValidateE.ok c = false ->
  ValidateE.overall_ok checks = false.
Proof.
  intros Hin Hc. unfold ValidateE.overall_ok.
  destruct (forallb _ checks) eqn:Hall; [|done].
  rewrite forallb_forall in Hall. specialize (Hall _ Hin). simpl in Hall.
  congruence.
Qed.

Lemma findings_check_not_ok l :
  l <> [] -> ValidateE.ok (ValidateE.findings_check l) = false.
Proof. by destruct l. Qed.

Lemma check_named_baseline_scan w out bp log q cur base :
  ValidateE.check_named "baseline_sensitive_scan"
    (ValidateE.run_checks w out bp log q cur base)
  = Some (ValidateE.findings_check
            (ValidateE.scan_sensitive (ValidateE.flatten_text (JObj base)))).
Proof. reflexivity. Qed.

Lemma check_named_recovery_log w out bp log q cur base :
  ValidateE.check_named "recovery_log"
    (ValidateE.run_checks w out bp log q cur base)
  = Some (ValidateE.issues_check
            (ValidateE.validate_recovery_logged (ValidateE.w_exists w)
               (ValidateE.iter_jsonl w log) out bp q)).
Proof. reflexivity. Qed.

Lemma fmap_ok_some c b :
  ValidateE.ok c = b -> ValidateE.ok <$> Some c = Some b.
Proof. by intros <-. Qed.

(** C10. When [main] gets as far as its checks and the sensitive scan of
    the flattened baseline document has a finding, the check
    [baseline_sensitive_scan] is not ok, the verdict is NOT READY and the run
    ends with exit status 1, whatever the other checks say. *)
Theorem baseline_finding_blocks_ready
    (w : ValidateE.world) (a : ValidateE.args) (bp : string) (cur base : dict) :
  ValidateE.w_exists w (ValidateE.a_output a) = true ->
  ValidateE.pick_baseline w a = Some bp ->
  bp <> "" ->
  ValidateE.w_exists w bp = true ->
  ValidateE.w_load_json w (ValidateE.a_output a) = Ok cur ->
  ValidateE.w_load_json w bp = Ok base ->
  ValidateE.scan_sensitive (ValidateE.flatten_text (JObj base)) <> [] ->
  ValidateE.ok <$> ValidateE.check_named "baseline_sensitive_scan"
                     (ValidateE.o_checks (ValidateE.main w a)) = Some false
  /\ ValidateE.o_verdict (ValidateE.main w a) = Some "NOT READY"
  /\ ValidateE.o_exit (ValidateE.main w a) = Raise (SystemExit 1).
Proof.
  intros Hout Hpick Hne Hbp Hcur Hbase Hfind.
  rewrite (main_checks w a bp cur base) by done.
  pose proof (findings_check_not_ok _ Hfind) as Hok.
  rewrite (overall_ok_false _ "baseline_sensitive_scan"
             (ValidateE.findings_check
                (ValidateE.scan_sensitive (ValidateE.flatten_text (JObj base)))));
    [|unfold ValidateE.run_checks; cbn [In]; do 3 right; left; reflexivity
     |done].
  split; [|done].
  cbn [ValidateE.o_checks]. rewrite check_named_baseline_scan.
  by apply fmap_ok_some.
Qed.

(** The sample recovery: the five checks of the restored artifact pass, the
    baseline has a finding, and the verdict is NOT READY. *)
Lemma baseline_finding_blocks_ready_witness :
  Forall (fun name =>
            ValidateE.ok <$> ValidateE.check_named name
              (ValidateE.o_checks (ValidateE.main ValidateE.sample_world
                                     ValidateE.sample_args)) = Some true)
         ["schema"; "paths"; "sensitive_scan"; "baseline_parity"; "recovery_log"]
  /\ (ValidateE.ok <$> ValidateE.check_named "baseline_sensitive_scan"
         (ValidateE.o_checks (ValidateE.main ValidateE.sample_world
                                ValidateE.sample_args)) = Some false
      /\ ValidateE.o_verdict (ValidateE.main ValidateE.sample_world
                                ValidateE.sample_args) = Some "NOT READY"
      /\ ValidateE.o_exit (ValidateE.main ValidateE.sample_world
                             ValidateE.sample_args) = Raise (SystemExit 1)).
Proof.
  split.
  - repeat (constructor; [vm_compute; reflexivity|]). constructor.
  - apply (baseline_finding_blocks_ready ValidateE.sample_world
             ValidateE.sample_args ValidateE.snap_file ValidateE.restored
             ValidateE.baseline_doc).
    + reflexivity.
    + vm_compute; reflexivity.
    + discriminate.
    + reflexivity.
    + reflexivity.
    + reflexivity.
    + vm_compute. discriminate.
Defined.

(** On [00_05_e/validate.py] a log without a candidate event makes the run
    end NOT READY with exit status 1. *)
Lemma recovery_log_missing_not_ready
    (w : ValidateE.world) (a : ValidateE.args) (bp : string) (cur base : dict) :
  ValidateE.w_exists w (ValidateE.a_output a) = true ->
  ValidateE.pick_baseline w a = Some bp ->
  bp <> "" ->
  ValidateE.w_exists w bp = true ->
  ValidateE.w_load_json w (ValidateE.a_output a) = Ok cur ->
  ValidateE.w_load_json w bp = Ok base ->
  Forall (fun e => Validate.recovery_entry_for
                     (replace1 "\" "/" (ValidateE.a_output a)) e = false)
         (ValidateE.iter_jsonl w (ValidateE.a_action_log a)) ->
  ValidateE.ok <$> ValidateE.check_named "recovery_log"
                     (ValidateE.o_checks (ValidateE.main w a)) = Some false
  /\ ValidateE.o_verdict (ValidateE.main w a) = Some "NOT READY"
  /\ ValidateE.o_exit (ValidateE.main w a) = Raise (SystemExit 1).
Proof.
  intros Hout Hpick Hne Hbp Hcur Hbase Hcand.
  rewrite (main_checks w a bp cur base) by done.
  set (c := ValidateE.issues_check
              (ValidateE.validate_recovery_logged (ValidateE.w_exists w)
                 (ValidateE.iter_jsonl w (ValidateE.a_action_log a))
                 (ValidateE.a_output a) bp (ValidateE.a_quarantine a))).
  assert (ValidateE.ok c = false) as Hok
    by (subst c; by rewrite recovery_logged_end_issue).
  rewrite (overall_ok_false _ "recovery_log" c);
    [|unfold ValidateE.run_checks; cbn [In]; do 5 right; left; reflexivity
     |done].
  split; [|done].
  cbn [ValidateE.o_checks]. rewrite check_named_recovery_log.
  by apply fmap_ok_some.
Qed.

End ValidateFacts.

(** * Further properties of the code *)

(** ** Names and paths *)
Section PathFacts.
Import Py StateUtils.

Lemma append_assoc_s (a b c : string) : (a +:+ b) +:+ c = a +:+ (b +:+ c).
Proof.
  induction a as [|x a IH]; [reflexivity|]. by rewrite !append_cons, IH.
Qed.

Lemma length_append_s (a b : string) :
  String.length (a +:+ b) = String.length a + String.length b.
Proof.
  induction a as [|x a IH]; [reflexivity|]. rewrite append_cons. simpl.
  by rewrite IH.
Qed.

Lemma slash_free_app a b : slash_free a -> slash_free b -> slash_free (a +:+ b).
Proof. unfold slash_free. rewrite chars_app. apply Forall_app_2. Qed.

Lemma pretty_N_char_digit x : is_digit (pretty_N_char x) = true.
Proof.
  unfold pretty_N_char. destruct x as [|p]; [reflexivity|].
  do 4 (try destruct p as [p|p|]; try reflexivity).
Qed.

Lemma pretty_N_go_digits x :
  forall s, Forall (fun c => is_digit c = true) (chars s) ->
            Forall (fun c => is_digit c = true) (chars (pretty_N_go x s)).
Proof.
  induction (N.lt_wf_0 x) as [x _ IH]. intros s Hs.
  destruct (decide (x = 0)%N) as [->|Hx]; [by rewrite pretty_N_go_0|].
  rewrite pretty_N_go_step by lia.
  apply IH; [apply N.div_lt; lia|].
  constructor; [apply pretty_N_char_digit|done].
Qed.

(** The decimal numeral of a natural number has digits only. *)
Lemma pretty_nat_digits (n : nat) :
  Forall (fun c => is_digit c = true) (chars (pretty n)).
Proof.
  unfold pretty, pretty_nat, pretty, pretty_N.
  case_decide; [repeat constructor|].
  apply pretty_N_go_digits. constructor.
Qed.

Lemma digits_slash_free s :
  Forall (fun c => is_digit c = true) (chars s) -> slash_free s.
Proof.
  unfold slash_free. intros H. eapply Forall_impl; [exact H|].
  intros c Hc ->. discriminate.
Qed.

Lemma pad2_digits n : Forall (fun c => is_digit c = true) (chars (pad2 n)).
Proof.
  unfold pad2. destruct (Nat.ltb n 10); [|apply pretty_nat_digits].
  rewrite chars_app. apply Forall_app_2; [repeat constructor|].
  apply pretty_nat_digits.
Qed.

Lemma pad4_digits n : Forall (fun c => is_digit c = true) (chars (pad4 n)).
Proof.
  unfold pad4. repeat case_match; try apply pretty_nat_digits;
    rewrite chars_app; (apply Forall_app_2; [repeat constructor|]);
    apply pretty_nat_digits.
Qed.

Lemma utc_ts_slug_slash_free now : slash_free (utc_ts_slug now).
Proof.
  unfold utc_ts_slug.
  repeat (apply slash_free_app);
    try (apply digits_slash_free; first [apply pad2_digits | apply pad4_digits]);
    repeat constructor; discriminate.
Qed.

Lemma basename_slash_free p : slash_free (basename p).
Proof. apply basename_no_slash. Qed.

Lemma after_last_slash_app_free l k acc :
  Forall (fun c => c <> "/"%char) k ->
  after_last_slash (l ++ "/"%char :: k) acc = k.
Proof.
  intros Hk. revert acc. induction l as [|c l IH]; intros acc; simpl.
  - clear acc. assert (forall acc, after_last_slash k acc = rev acc ++ k) as H.
    { induction Hk as [|c k Hc _ IH]; intros acc; simpl.
      - by rewrite app_nil_r.
      - destruct (Ascii.eqb_spec c "/"); [done|].
        rewrite IH. simpl. by rewrite <- app_assoc. }
    by rewrite H.
  - destruct (Ascii.eqb c "/"); apply IH.
Qed.

Lemma after_last_slash_free k acc :
  Forall (fun c => c <> "/"%char) k -> after_last_slash k acc = rev acc ++ k.
Proof.
  intros Hk. revert acc. induction Hk as [|c k Hc _ IH]; intros acc; simpl.
  - by rewrite app_nil_r.
  - destruct (Ascii.eqb_spec c "/"); [done|].
    rewrite IH. simpl. by rewrite <- app_assoc.
Qed.

Lemma basename_free n : slash_free n -> basename n = n.
Proof.
  intros H. unfold basename. rewrite after_last_slash_free by done.
  apply str_of_chars.
Qed.

Lemma basename_app_slash d n : slash_free n -> basename (d +:+ "/" +:+ n) = n.
Proof.
  intros H. unfold basename. rewrite !chars_app.
  change (chars "/") with ["/"%char]. simpl app.
  rewrite after_last_slash_app_free by done. apply str_of_chars.
Qed.

Lemma endswith_slash_split d :
  endswith d "/" = true -> exists d', d = d' +:+ "/".
Proof. apply endswith_spec. Qed.

(** The last component of a directory joined with a plain name is the
    name. *)
Lemma basename_path_join dir n :
  slash_free n -> basename (path_join dir n) = n.
Proof.
  intros Hn. unfold path_join.
  assert (startswith n "/" = false) as ->.
  { unfold startswith, slash_free in *. destruct (chars n) as [|c l]; [done|].
    apply Forall_cons in Hn as [Hc _]. change (Ascii.eqb "/" c && true = false).
    destruct (Ascii.eqb_spec "/" c); [congruence|done]. }
  destruct (String.eqb_spec dir "") as [->|_]; simpl.
  - by apply basename_free.
  - destruct (endswith dir "/") eqn:He.
    + apply endswith_slash_split in He as [d' ->].
      rewrite append_assoc_s. by apply basename_app_slash.
    + by apply basename_app_slash.
Qed.

Lemma append_longer (a b : string) : b <> "" -> a <> a +:+ b.
Proof.
  intros Hb H. apply (f_equal String.length) in H.
  rewrite length_append_s in H. destruct b; [done|]. simpl in H. lia.
Qed.

End PathFacts.

(** ** The snapshot store, continued *)
Section SnapshotMoreFacts.
Import Py StateUtils.

Lemma slash_free_literal s :
  forallb (fun c => negb (Ascii.eqb c "/")) (chars s) = true -> slash_free s.
Proof.
  unfold slash_free. rewrite forallb_forall, Forall_forall.
  intros H c Hc ->. apply list_elem_of_In, H in Hc. discriminate.
Qed.

Lemma snap_name_slash_free src label now rid :
  slash_free label -> slash_free rid ->
  slash_free (snap_name src label now rid).
Proof.
  intros Hl Hr. unfold snap_name.
  apply slash_free_app; [apply basename_slash_free|].
  apply slash_free_app; [by apply slash_free_literal|].
  apply slash_free_app; [done|].
  apply slash_free_app; [by apply slash_free_literal|].
  apply slash_free_app; [apply utc_ts_slug_slash_free|].
  apply slash_free_app; [by apply slash_free_literal|].
  apply slash_free_app; [done|]. by apply slash_free_literal.
Qed.

Lemma quarantine_name_slash_free src reason now rid :
  slash_free reason -> slash_free rid ->
  slash_free (quarantine_name src reason now rid).
Proof.
  intros Hl Hr. unfold quarantine_name.
  apply slash_free_app; [apply basename_slash_free|].
  apply slash_free_app; [by apply slash_free_literal|].
  apply slash_free_app; [done|].
  apply slash_free_app; [by apply slash_free_literal|].
  apply slash_free_app; [apply utc_ts_slug_slash_free|].
  apply slash_free_app; [by apply slash_free_literal|].
  apply slash_free_app; [done|]. by apply slash_free_literal.
Qed.

(** A snapshot is never written over the artifact it is taken from. *)
Lemma snap_path_ne_src src dir label now rid :
  slash_free label -> slash_free rid ->
  snap_path src dir label now rid <> src.
Proof.
  intros Hl Hr Heq. apply (f_equal basename) in Heq. unfold snap_path in Heq.
  rewrite basename_path_join in Heq by by apply snap_name_slash_free.
  unfold snap_name in Heq. symmetry in Heq.
  by apply append_longer in Heq.
Qed.

Lemma quarantine_path_ne_src src dir reason now rid :
  slash_free reason -> slash_free rid ->
  path_join dir (quarantine_name src reason now rid) <> src.
Proof.
  intros Hl Hr Heq. apply (f_equal basename) in Heq.
  rewrite basename_path_join in Heq by by apply quarantine_name_slash_free.
  unfold quarantine_name in Heq. symmetry in Heq.
  by apply append_longer in Heq.
Qed.

Lemma path_join_nonempty dir n : n <> "" -> path_join dir n <> "".
Proof.
  intros Hn H. apply (f_equal String.length) in H. unfold path_join in H.
  assert (0 < String.length n) by (destruct n; [done|simpl; lia]).
  repeat case_match; rewrite ?length_append_s in H; simpl in H; lia.
Qed.

Lemma snap_name_nonempty src label now rid : snap_name src label now rid <> "".
Proof.
  unfold snap_name. intros H. apply (f_equal String.length) in H.
  rewrite !length_append_s in H. simpl in H. lia.
Qed.

Lemma restore_snapshot_present snap dest (st : fs) f :
  snap <> "" -> st !! snap = Some f ->
  restore_snapshot snap dest st = (Ok tt, <[dest := f]> st).
Proof.
  intros Hne Hf. unfold restore_snapshot, exists_, ensure_dir, copy2.
  rewrite Hf. by destruct (String.eqb_spec snap "").
Qed.





End SnapshotMoreFacts.

(** ** The rollback flow *)
Section RollbackFacts.
Import Py RollbackMain.

Lemma insert_asc_perm x l : insert_asc x l ≡ₚ x :: l.
Proof.
  induction l as [|y l IH]; simpl; [done|].
  destruct (fst y <? fst x)%Z; [|done].
  rewrite IH. apply Permutation_swap.
Qed.

Lemma sort_asc_perm l : sort_asc l ≡ₚ l.
Proof.
  induction l as [|x l IH]; simpl; [done|].
  rewrite insert_asc_perm. by rewrite IH.
Qed.

Lemma insert_asc_sorted x l :
  StronglySorted by_mtime l -> StronglySorted by_mtime (insert_asc x l).
Proof.
  induction 1 as [|y l Hs IH Hy]; simpl; [repeat constructor|].
  destruct (Z.ltb_spec (fst y) (fst x)) as [Hlt|Hge].
  - constructor; [done|].
    rewrite insert_asc_perm. constructor; [unfold by_mtime; lia|done].
  - constructor; [by constructor|].
    constructor; [done|].
    eapply Forall_impl; [exact Hy|]. unfold by_mtime. intros z Hz. lia.
Qed.

Lemma sort_asc_sorted l : StronglySorted by_mtime (sort_asc l).
Proof.
  induction l as [|x l IH]; simpl; [constructor|]. by apply insert_asc_sorted.
Qed.

Lemma sorted_last_max l x :
  StronglySorted by_mtime l -> last l = Some x ->
  Forall (fun y => by_mtime y x) l.
Proof.
  induction 1 as [|y l Hs IH Hy]; [done|].
  destruct l as [|z l].
  - intros [= ->]. repeat constructor. unfold by_mtime. lia.
  - intros Hlast. change (last (z :: l) = Some x) in Hlast.
    specialize (IH Hlast). constructor; [|done].
    assert (x ∈ z :: l) as Hx.
    { clear -Hlast. revert z Hlast. induction l as [|w l IH]; intros z.
      - intros [= ->]. apply list_elem_of_here.
      - intros H. apply list_elem_of_further. by apply IH. }
    rewrite Forall_forall in Hy. by apply Hy.
Qed.

(** The candidate a sort by mtime puts last has the greatest mtime. *)
Lemma last_sort_asc_max l x :
  last (sort_asc l) = Some x -> x ∈ l /\ Forall (fun y => by_mtime y x) l.
Proof.
  intros H. pose proof (sorted_last_max _ _ (sort_asc_sorted l) H) as Hmax.
  split.
  - rewrite <- (sort_asc_perm l). apply last_Some_elem_of. done.
  - by rewrite <- (sort_asc_perm l).
Qed.

Lemma insert_str_perm x l : insert_str x l ≡ₚ x :: l.
Proof.
  induction l as [|y l IH]; simpl; [done|].
  destruct (String.ltb x y); [done|].
  rewrite IH. apply Permutation_swap.
Qed.

Lemma sort_str_perm l : foldr insert_str [] l ≡ₚ l.
Proof.
  induction l as [|x l IH]; simpl; [done|].
  rewrite insert_str_perm. by rewrite IH.
Qed.

Lemma list_candidate_snapshots_elem d dir p :
  p ∈ list_candidate_snapshots d dir
  <-> isdir d dir = true
      /\ exists name, name ∈ listdir d dir /\ candidate_name name = true
                      /\ p = path_join dir name.
Proof.
  unfold list_candidate_snapshots. destruct (isdir d dir); simpl.
  - rewrite sort_str_perm. rewrite list_elem_of_In, in_map_iff. split.
    + intros (name & <- & Hin). apply filter_In in Hin as [Hin Hc].
      split; [done|]. exists name. by rewrite list_elem_of_In.
    + intros (_ & name & Hin & Hc & ->). exists name. split; [done|].
      apply filter_In. by rewrite <- list_elem_of_In.
  - split; [by intros ?%elem_of_nil | by intros [? _]].
Qed.

Lemma with_mtime_spec st l r :
  with_mtime st l = Ok r ->
  map snd r = l /\ Forall (fun kp => getmtime st (snd kp) = Ok (fst kp)) r.
Proof.
  revert r. induction l as [|p l IH]; intros r; simpl.
  - intros [= <-]. by split.
  - destruct (getmtime st p) as [k|] eqn:Hk; [|done]. simpl.
    destruct (with_mtime st l) as [r'|]; [|done]. simpl.
    intros [= <-]. destruct (IH r' eq_refl) as [Hmap Hall].
    split; [simpl; by rewrite Hmap|]. by constructor.
Qed.

Lemma choose_latest_snapshot_candidate d st dir p :
  choose_latest_snapshot d st dir = Ok (Some p) ->
  exists name, candidate_name name = true /\ p = path_join dir name.
Proof.
  unfold choose_latest_snapshot.
  destruct (list_candidate_snapshots d dir) as [|c cs] eqn:Hc; [done|].
  destruct (with_mtime st (c :: cs)) as [keyed|] eqn:Hk; [|done]. simpl.
  destruct (last (sort_asc keyed)) as [[m q]|] eqn:Hlast; [|done].
  intros [= ->]. apply last_sort_asc_max in Hlast as [Hin _].
  apply with_mtime_spec in Hk as [Hmap _].
  assert (p ∈ list_candidate_snapshots d dir) as Hp.
  { rewrite Hc, <- Hmap. apply list_elem_of_In, in_map_iff.
    exists (m, p). split; [done|]. by apply list_elem_of_In. }
  apply list_candidate_snapshots_elem in Hp as (_ & name & _ & Hname & ->).
  by exists name.
Qed.

(** X3. The snapshot [choose_latest_snapshot] picks is one of the entries of
    the directory whose name starts with [shopping_summary.json.before.] and
    ends with [.json], and no such entry has a later modification time; in a
    directory that is missing nothing is picked. *)
Theorem choose_latest_snapshot_newest (d : dirs) (st : disk) (dir p : string) :
  (choose_latest_snapshot d st dir = Ok (Some p) ->
   (exists name, name ∈ listdir d dir /\ candidate_name name = true
                 /\ p = path_join dir name)
   /\ exists m, getmtime st p = Ok m
        /\ forall name', name' ∈ listdir d dir -> candidate_name name' = true ->
             exists m', getmtime st (path_join dir name') = Ok m' /\ (m' <= m)%Z)
  /\ (isdir d dir = false -> choose_latest_snapshot d st dir = Ok None).
Proof.
  split.
  - unfold choose_latest_snapshot.
    destruct (list_candidate_snapshots d dir) as [|c cs] eqn:Hc; [done|].
    destruct (with_mtime st (c :: cs)) as [keyed|] eqn:Hk; [|done]. simpl.
    destruct (last (sort_asc keyed)) as [[m q]|] eqn:Hlast; [|done].
    intros [= ->]. apply last_sort_asc_max in Hlast as [Hin Hmax].
    apply with_mtime_spec in Hk as [Hmap Hall].
    rewrite Forall_forall in Hall, Hmax.
    assert (p ∈ list_candidate_snapshots d dir) as Hp.
    { rewrite Hc, <- Hmap. apply list_elem_of_In, in_map_iff.
      exists (m, p). split; [done|]. by apply list_elem_of_In. }
    apply list_candidate_snapshots_elem in Hp as (Hdir & name & Hname).
    split; [by exists name|].
    exists m. split; [apply (Hall _ Hin)|].
    intros name' Hin' Hc'.
    assert (path_join dir name' ∈ c :: cs) as Hq.
    { rewrite <- Hc. apply list_candidate_snapshots_elem. split; [done|].
      by exists name'. }
    rewrite <- Hmap in Hq. apply list_elem_of_In, in_map_iff in Hq
      as ([m' q'] & Heq & Hq). simpl in Heq. subst q'.
    apply list_elem_of_In in Hq.
    exists m'. split; [apply (Hall _ Hq)|apply (Hmax _ Hq)].
  - intros Hdir. unfold choose_latest_snapshot, list_candidate_snapshots.
    by rewrite Hdir.
Qed.

Lemma choose_latest_snapshot_newest_witness :
  (exists name, name ∈ listdir sample_dirs "snapshot"
                /\ candidate_name name = true
                /\ snap_new = path_join "snapshot" name)
  /\ exists m, getmtime sample_disk snap_new = Ok m
       /\ forall name', name' ∈ listdir sample_dirs "snapshot" ->
            candidate_name name' = true ->
            exists m', getmtime sample_disk (path_join "snapshot" name') = Ok m'
                       /\ (m' <= m)%Z.
Proof.
  destruct (choose_latest_snapshot_newest sample_dirs sample_disk "snapshot"
              snap_new) as [H _].
  apply H. vm_compute. reflexivity.
Defined.

Lemma quarantined_name_slash_free out reason now :
  StateUtils.slash_free reason ->
  StateUtils.slash_free (quarantined_name out reason now).
Proof.
  intros Hr. unfold quarantined_name, utc_now_compact.
  apply slash_free_app; [apply basename_slash_free|].
  apply slash_free_app; [by apply slash_free_literal|].
  apply slash_free_app; [done|].
  apply slash_free_app; [by apply slash_free_literal|].
  apply slash_free_app; [apply utc_ts_slug_slash_free|].
  by apply slash_free_literal.
Qed.

Lemma quarantined_path_ne_output out dir reason now :
  StateUtils.slash_free reason ->
  path_join dir (quarantined_name out reason now) <> out.
Proof.
  intros Hr Heq. apply (f_equal basename) in Heq.
  rewrite basename_path_join in Heq by by apply quarantined_name_slash_free.
  unfold quarantined_name in Heq. symmetry in Heq.
  by apply append_longer in Heq.
Qed.

Lemma quarantined_path_nonempty out dir reason now :
  path_join dir (quarantined_name out reason now) <> "".
Proof.
  apply path_join_nonempty. unfold quarantined_name. intros H.
  apply (f_equal String.length) in H. rewrite !length_append_s in H.
  simpl in H. lia.
Qed.



Lemma candidate_name_nonempty name : candidate_name name = true -> name <> "".
Proof. by intros H ->. Qed.

Lemma select_snapshot_nonempty d st a s :
  select_snapshot d st a = Ok (Some s) -> s <> "".
Proof.
  assert (forall dir, choose_latest_snapshot d st dir = Ok (Some s) -> s <> "")
    as Hchoose.
  { intros dir H.
    destruct (choose_latest_snapshot_candidate d st dir s H) as (name & Hc & ->).
    by apply path_join_nonempty, candidate_name_nonempty. }
  unfold select_snapshot. destruct (a_snapshot a) as [s'|]; [|apply Hchoose].
  destruct (String.eqb_spec s' ""); [apply Hchoose|]. by intros [= <-].
Qed.

Lemma log_of_append path event st :
  log_of (append_action_log path event st) path = log_of st path ++ [event].
Proof.
  unfold log_of, append_action_log. simpl. rewrite lookup_insert_eq.
  by destruct (logs st !! path).
Qed.

Lemma log_of_append_ne path path' event st :
  path' <> path ->
  log_of (append_action_log path event st) path' = log_of st path'.
Proof.
  intros Hne. unfold log_of, append_action_log. simpl.
  by rewrite lookup_insert_ne.
Qed.

(** The disk a recovery leaves. *)
Lemma main_recovery_state
    (d : dirs) (a : args) (t_quar t_log : StateUtils.datetime) (st : disk)
    (fout fsnap : jfile) (doc : dict) (s : string) :
  files st !! a_output a = Some fout ->
  j_json fout = Ok doc ->
  Rollback.scan_for_sensitive (flatten_text (JObj doc)) <> [] ->
  select_snapshot d st a = Ok (Some s) ->
  files st !! s = Some fsnap ->
  s <> quarantine_path a t_quar ->
  s <> a_output a ->
  main d a t_quar t_log st
  = (Returned tt,
     append_action_log (a_actionlog a)
       (performed_event t_log (a_output a) s
          (Some (quarantine_path a t_quar))
          (Rollback.scan_for_sensitive (flatten_text (JObj doc))))
       {| files := <[a_output a := fsnap]>
                     (<[quarantine_path a t_quar := fout]> (files st));
          logs := logs st |}).
Proof.
  intros Hout Hdoc Hfind Hsel Hsnap Hne Hso.
  pose proof (select_snapshot_nonempty _ _ _ _ Hsel) as Hs.
  pose proof (quarantined_path_ne_output (a_output a) (a_quarantine a)
                "sensitive_leak" t_quar
                ltac:(by apply slash_free_literal)) as Hq.
  fold (quarantine_path a t_quar) in Hq.
  unfold main, exists_, load_json. rewrite Hout, Hdoc. cbn [negb].
  destruct (Rollback.scan_for_sensitive (flatten_text (JObj doc)))
    as [|f0 fs] eqn:Hf; [exfalso; by apply Hfind|].
  rewrite Hsel. destruct (String.eqb_spec s ""); [exfalso; by apply Hs|].
  unfold quarantine_file, exists_, copy2. rewrite Hout. cbn [negb].
  fold (quarantine_path a t_quar).
  destruct (String.eqb_spec (a_output a) (quarantine_path a t_quar))
    as [Heq|_]; [by symmetry in Heq|].
  unfold restore_snapshot, copy2. cbn [files logs].
  rewrite lookup_insert_ne by done. rewrite Hsnap.
  destruct (String.eqb_spec s (a_output a)); [done|]. reflexivity.
Qed.





Lemma main_skips (d : dirs) (a : args) (t_quar t_log : StateUtils.datetime)
    (st : disk) (fout : jfile) (doc : dict) :
  files st !! a_output a = Some fout ->
  j_json fout = Ok doc ->
  Rollback.scan_for_sensitive (flatten_text (JObj doc)) = [] ->
  main d a t_quar t_log st
  = (Returned tt, append_action_log (a_actionlog a)
                    (skipped_event t_log (a_output a)) st).
Proof.
  intros Hout Hdoc Hfind. unfold main, exists_, load_json.
  rewrite Hout, Hdoc. cbn [negb]. by rewrite Hfind.
Qed.

End RollbackFacts.

(** ** Equality of decoded values *)
Section ValueFacts.
Import Py.

(** Induction on a decoded value, through its lists and dicts. *)
Lemma json_nested_ind (P : json -> Prop) :
  P JNull -> (forall b, P (JBool b)) -> (forall n, P (JInt n)) ->
  (forall q r, P (JFloat q r)) -> (forall s, P (JStr s)) ->
  (forall l, Forall P l -> P (JList l)) ->
  (forall d, Forall (fun kv => P (snd kv)) d -> P (JObj d)) ->
  forall v, P v.
Proof.
  intros Hnull Hbool Hint Hfloat Hstr Hlist Hobj.
  fix IH 1.
  intros [|b|n|q r|s|l|d];
    [exact Hnull|apply Hbool|apply Hint|apply Hfloat|apply Hstr| |].
  - apply Hlist. induction l as [|x l IHl]; constructor; [apply IH|apply IHl].
  - apply Hobj. induction d as [|[k x] d IHd]; constructor; [apply IH|apply IHd].
Qed.

Lemma lookup_distinct k v (d : dict) :
  distinct (map fst d) = true -> In (k, v) d -> lookup k d = Some v.
Proof.
  induction d as [|[k' v'] d IH]; simpl; [done|].
  intros [Hk Hd]%andb_true_iff [[= -> ->]|Hin].
  - by rewrite String.eqb_refl.
  - destruct (String.eqb_spec k k') as [->|_]; [|by apply IH].
    apply negb_true_iff in Hk. exfalso.
    assert (existsb (String.eqb k') (map fst d) = true); [|congruence].
    apply existsb_exists. exists k'. split; [|apply String.eqb_refl].
    apply in_map_iff. by exists (k', v).
Qed.

Lemma eqb_list l l' :
  eqb (JList l) (JList l')
  = (fix go (l l' : list json) {struct l} : bool :=
       match l, l' with
       | [], [] => true
       | x :: l, y :: l' => eqb x y && go l l'
       | _, _ => false
       end) l l'.
Proof. reflexivity. Qed.

Lemma eqb_obj d d' :
  eqb (JObj d) (JObj d')
  = Nat.eqb (length d) (length d')
    && (fix go (d : list (string * json)) {struct d} : bool :=
          match d with
          | [] => true
          | (k, v) :: d =>
              match lookup k d' with
              | Some v' => eqb v v'
              | None => false
              end && go d
          end) d.
Proof. reflexivity. Qed.

(** A value with distinct keys equals itself. *)
Lemma eqb_refl v : wf v = true -> eqb v v = true.
Proof.
  induction v as [|b|n|q r|s|l IH|d IH] using json_nested_ind; intros Hwf.
  - reflexivity.
  - simpl. apply Qeq_bool_iff. reflexivity.
  - simpl. apply Qeq_bool_iff. reflexivity.
  - simpl. apply Qeq_bool_iff. reflexivity.
  - simpl. apply String.eqb_refl.
  - rewrite eqb_list. simpl in Hwf.
    induction IH as [|x l Hx _ IHl]; [done|].
    simpl in Hwf. apply andb_true_iff in Hwf as [Hwx Hwl].
    by rewrite Hx, IHl.
  - rewrite eqb_obj, Nat.eqb_refl. simpl andb.
    simpl in Hwf. apply andb_true_iff in Hwf as [Hdist Hall].
    assert (forall d0, (forall kv, In kv d0 -> In kv d) ->
              (fix go (d1 : list (string * json)) : bool :=
                 match d1 with
                 | [] => true
                 | (k, v) :: d2 =>
                     match lookup k d with
                     | Some v' => eqb v v'
                     | None => false
                     end && go d2
                 end) d0 = true) as Hgo; [|by apply Hgo].
    rewrite Forall_forall in IH. rewrite forallb_forall in Hall.
    induction d0 as [|[k v] d0 IHd0]; intros Hsub; [done|].
    rewrite (lookup_distinct k v d Hdist) by (apply Hsub; by left).
    assert (eqb v v = true) as ->.
    { apply (IH (k, v)); [apply list_elem_of_In, Hsub; by left|].
      apply (Hall (k, v)), Hsub. by left. }
    apply IHd0. intros kv Hkv. apply Hsub. by right.
Qed.

End ValueFacts.

(** ** The validator after the rollback flow *)
Section RecoveryValidated.
Import Py RollbackMain.

Lemma sort_desc_snoc {A} (key : A -> string) (l : list A) (x : A) :
  Forall (fun y => String.ltb (key y) (key x) = true) l ->
  Validate.sort_desc key (l ++ [x]) = x :: Validate.sort_desc key l.
Proof.
  unfold Validate.sort_desc. induction 1 as [|y l Hy _ IH]; [done|].
  simpl. rewrite IH. simpl. by rewrite Hy.
Qed.

Lemma candidates_snoc l e out :
  Validate.candidates (l ++ [e]) out
  = Validate.candidates l out
    ++ (if Validate.recovery_entry_for (replace1 "\" "/" out) e then [e] else []).
Proof. unfold Validate.candidates. cbn zeta. by rewrite List.filter_app. Qed.

Lemma performed_event_candidate now out s q fs :
  Validate.recovery_entry_for (replace1 "\" "/" out)
    (performed_event now out s q fs) = true.
Proof.
  unfold Validate.recovery_entry_for.
  change (get (performed_event now out s q fs) "event_type")
    with (JStr "recovery_performed").
  change (str (get_default (performed_event now out s q fs) "output_path"
                 (JStr ""))) with out.
  by rewrite endswith_refl.
Qed.

Lemma iter_jsonl_world_of d st path :
  ValidateE.iter_jsonl (world_of d st) path = log_of st path.
Proof.
  unfold ValidateE.iter_jsonl, world_of, log_of. simpl.
  destruct (logs st !! path); [by rewrite orb_true_r|].
  by destruct (exists_ st path).
Qed.

Lemma exists_world_of d st p f :
  files st !! p = Some f -> ValidateE.w_exists (world_of d st) p = true.
Proof. intros H. unfold world_of, exists_. simpl. by rewrite H. Qed.

(** The entry the rollback flow writes passes the checks made on it. *)
Lemma check_event_performed ex now out s q fs qdir :
  q <> "" -> ex q = true ->
  Validate.check_event ex (performed_event now out s (Some q) fs) s qdir = [].
Proof.
  intros Hq Hex. unfold Validate.check_event.
  change (str (get_default (performed_event now out s (Some q) fs)
                 "snapshot_path" (JStr ""))) with s.
  change (get (performed_event now out s (Some q) fs) "quarantined_path")
    with (JStr q).
  rewrite String.eqb_refl, andb_false_r. simpl.
  destruct qdir as [qd|]; [|done]. destruct (String.eqb qd ""); [done|].
  destruct (String.eqb_spec q ""); [done|]. simpl. by rewrite Hex.
Qed.

Lemma recovery_logged_newest ex l now out s q fs qdir :
  older_entries out now l ->
  q <> "" -> ex q = true ->
  ValidateE.validate_recovery_logged ex
    (l ++ [performed_event now out s (Some q) fs]) out s qdir = [].
Proof.
  intros Hold Hq Hex.
  unfold ValidateE.validate_recovery_logged,
    Validate.validate_recovery_logged_with.
  rewrite candidates_snoc, performed_event_candidate, sort_desc_snoc.
  - by apply check_event_performed.
  - unfold older_entries in Hold. rewrite Forall_forall in Hold.
    apply Forall_forall. intros e He.
    apply list_elem_of_In, filter_In in He as [He Hc].
    apply Hold; [by apply list_elem_of_In|done].
Qed.

Lemma wf_get (doc : dict) k : wf (JObj doc) = true -> wf (get doc k) = true.
Proof.
  simpl. intros [_ Hall]%andb_true_iff. rewrite forallb_forall in Hall.
  unfold get. destruct (lookup k doc) as [v|] eqn:Hv; [|done].
  assert (In (k, v) doc) as Hin; [|apply (Hall _ Hin)].
  clear Hall. induction doc as [|[k' v'] doc IH]; [done|].
  simpl in Hv. destruct (String.eqb_spec k k') as [->|_].
  - injection Hv as ->. by left.
  - right. by apply IH.
Qed.



Lemma length_eqb_nil {A} (l : list A) : Nat.eqb (length l) 0 = true <-> l = [].
Proof. by destruct l. Qed.

(** A document with distinct keys has no difference from itself. *)
Lemma parity_self (doc : dict) (fields : list string) :
  wf (JObj doc) = true ->
  flat_map (fun f => if negb (eqb (get doc f) (get doc f))
                     then ["Field differs from baseline: " +:+ f] else [])
           fields = [].
Proof.
  intros Hwf. induction fields as [|f fields IH]; [done|].
  cbn [flat_map]. rewrite IH, eqb_refl by by apply wf_get. done.
Qed.



Lemma skipped_event_no_candidate now out out' :
  Validate.recovery_entry_for out' (skipped_event now out) = false.
Proof. reflexivity. Qed.



End RecoveryValidated.

(** ** The matcher against what a pattern denotes *)
Section MatcherSemantics.
Import Py Re.
Local Open Scope re_scope.

Lemma run_le_hi p l h : run p l (Some h) <= h.
Proof.
  revert h. induction l as [|a l IH]; intros h; simpl; [lia|].
  destruct (p a); [|lia]. destruct h as [|h]; [lia|].
  specialize (IH h). lia.
Qed.

(** A run is as long as the class and the cap allow. *)
Lemma run_ge p l hi m :
  (forall n, n < m -> exists a, l !! n = Some a /\ p a = true) ->
  match hi with Some h => m <= h | None => True end ->
  m <= run p l hi.
Proof.
  revert hi m. induction l as [|a l IH]; intros hi m Hall Hhi.
  - destruct m as [|m]; [simpl; lia|].
    destruct (Hall 0) as (? & ? & _); [lia|done].
  - destruct m as [|m]; [lia|]. simpl.
    destruct (Hall 0) as (b & Hb & Hpb); [lia|]. injection Hb as <-.
    rewrite Hpb.
    assert (forall n, n < m -> exists b, l !! n = Some b /\ p b = true) as Hall'.
    { intros n Hn. apply (Hall (S n)). lia. }
    destruct hi as [[|h]|].
    + lia.
    + specialize (IH (Some h) m Hall'). simpl in IH. lia.
    + specialize (IH None m Hall' I). lia.
Qed.

Lemma try_down_complete {R} (k : nat -> option R) i lo n m y :
  lo <= m -> m <= n -> k (i + m) = Some y ->
  exists x, try_down k i lo n = Some x.
Proof.
  intros Hlo. induction n as [|n IH]; intros Hm Hk; simpl.
  - assert (m = 0) as -> by lia.
    destruct (Nat.ltb_spec 0 lo); [lia|]. rewrite Hk. eauto.
  - destruct (Nat.ltb_spec (S n) lo); [lia|].
    destruct (k (i + S n)) as [x|] eqn:Hx; [eauto|].
    apply IH; [|done].
    destruct (Nat.eq_dec m (S n)) as [->|]; [congruence|lia].
Qed.

(** Soundness: what the matcher accepts, the pattern denotes. *)
Lemma exec_spans {R} txt r :
  forall i c (k : nat -> caps -> option R) x,
    exec txt r i c k = Some x ->
    exists j c', spans txt r i j /\ k j c' = Some x.
Proof.
  induction r as [|p|p lo hi|r1 IH1 r2 IH2|r1 IH1 r2 IH2| |name r IH];
    intros i c k x; simpl.
  - intros H. by exists i, c.
  - destruct (txt !! i) as [a|] eqn:Ha; [|done].
    destruct (p a) eqn:Hp; [|done]. intros H.
    exists (S i), c. split; [|done]. split; [done|]. by exists a.
  - intros H. apply try_down_sound in H as (m & Hlo & Hm & Hk).
    exists (i + m), c. split; [|done].
    split; [lia|]. split.
    + destruct hi as [h|]; [|done].
      pose proof (run_le_hi p (drop i txt) h). lia.
    + intros n Hn.
      destruct (run_class p (drop i txt) hi (n - i)) as (a & Ha & Hp); [lia|].
      rewrite lookup_drop in Ha. replace (i + (n - i)) with n in Ha by lia.
      by exists a.
  - intros H. apply IH1 in H as (m & c' & H1 & H).
    apply IH2 in H as (j & c'' & H2 & H).
    exists j, c''. split; [by exists m|done].
  - destruct (exec txt r1 i c k) eqn:H1.
    + intros [= <-]. apply IH1 in H1 as (j & c' & Hs & Hk).
      exists j, c'. auto.
    + intros H. apply IH2 in H as (j & c' & Hs & Hk).
      exists j, c'. auto.
  - destruct (boundary txt i) eqn:Hb; [|done]. intros H. by exists i, c.
  - intros H. apply IH in H as (j & c' & Hs & Hk). eauto.
Qed.

(** Completeness: on a span the pattern denotes, after which the
    continuation succeeds, the matcher does not fail. *)
Lemma exec_complete {R} txt r :
  forall i c (k : nat -> caps -> option R) j,
    spans txt r i j -> (forall c', exists x, k j c' = Some x) ->
    exists x, exec txt r i c k = Some x.
Proof.
  induction r as [|p|p lo hi|r1 IH1 r2 IH2|r1 IH1 r2 IH2| |name r IH];
    intros i c k j; simpl.
  - intros -> Hk. apply Hk.
  - intros (-> & a & Ha & Hp) Hk. rewrite Ha, Hp. apply Hk.
  - intros (Hlo & Hhi & Hall) Hk. destruct (Hk c) as [y Hy].
    apply (try_down_complete _ i lo _ (j - i) y); [lia| |].
    + apply run_ge.
      * intros n Hn. destruct (Hall (i + n)) as (a & Ha & Hp); [lia|].
        exists a. by rewrite lookup_drop.
      * destruct hi as [h|]; [lia|done].
    + by replace (i + (j - i)) with j by lia.
  - intros (m & H1 & H2) Hk. apply (IH1 _ _ _ m H1).
    intros c'. by apply (IH2 _ _ _ j).
  - intros Hs Hk. destruct (exec txt r1 i c k) as [x|] eqn:H1; [eauto|].
    destruct Hs as [Hs|Hs]; [|by apply (IH2 _ _ _ j)].
    destruct (IH1 i c k j Hs Hk) as [x Hx]. congruence.
  - intros (-> & Hb) Hk. rewrite Hb. apply Hk.
  - intros Hs Hk. apply (IH _ _ _ j Hs). intros c'. apply Hk.
Qed.

Lemma match_at_spans txt r i adv m :
  match_at txt r i adv = Some m ->
  m_start m = i /\ spans txt r i (m_end m).
Proof.
  unfold match_at. intros H. apply exec_spans in H as (j & c' & Hs & H).
  destruct (adv && Nat.eqb j i); [done|]. by injection H as <-.
Qed.

Lemma match_at_complete txt r i j :
  spans txt r i j -> exists m, match_at txt r i false = Some m.
Proof.
  intros Hs. unfold match_at. apply (exec_complete _ _ _ _ _ j Hs).
  intros c'. simpl. eauto.
Qed.

Lemma scan_from_complete txt r p j :
  p <= length txt -> spans txt r p j ->
  forall fuel pos, pos <= p -> p - pos < fuel ->
    scan_from fuel txt r pos false <> [].
Proof.
  intros Hp Hs. induction fuel as [|fuel IH]; intros pos Hpos Hfuel; [lia|].
  simpl. destruct (Nat.ltb_spec (length txt) pos); [lia|].
  destruct (match_at txt r pos false) as [m|] eqn:Hm; [done|].
  destruct (Nat.eq_dec pos p) as [->|Hne].
  - destruct (match_at_complete _ _ _ _ Hs). congruence.
  - apply IH; lia.
Qed.

(** Every match [finditer] yields is a span of the pattern, inside the
    text. *)
Lemma finditer_spans r s m :
  m ∈ finditer r s ->
  spans (chars s) r (m_start m) (m_end m)
  /\ m_start m <= m_end m /\ m_end m <= length (chars s).
Proof.
  intros Hm. apply scan_from_match_at in Hm as (adv & Hm & Hlen).
  pose proof (match_at_span _ _ _ _ _ Hm) as (_ & Hle & _).
  apply match_at_spans in Hm as [_ Hs]. auto.
Qed.

Lemma length_chars s : length (chars s) = String.length s.
Proof. induction s; simpl; auto. Qed.

(** [finditer] yields nothing exactly when the pattern matches nowhere. *)
Lemma finditer_nil_iff r s : finditer r s = [] <-> ~ occurs r s.
Proof.
  split.
  - intros Hnil (i & j & Hi & Hs). rewrite <- length_chars in Hi.
    apply (scan_from_complete _ _ _ _ Hi Hs (attempts (chars s)) 0);
      [lia|unfold attempts; lia|done].
  - intros Hno. destruct (finditer r s) as [|m l] eqn:Hf; [done|].
    exfalso. apply Hno.
    destruct (finditer_spans r s m) as (Hs & Hle & Hlen);
      [rewrite Hf; apply list_elem_of_here|].
    exists (m_start m), (m_end m). rewrite <- length_chars. split; [lia|done].
Qed.

End MatcherSemantics.

(** ** What the detectors report *)
Section DetectorFacts.
Import Py Re Scanner.
Local Open Scope re_scope.

Lemma infixb_spec t l : infixb t l = true <-> exists a b, l = a ++ t ++ b.
Proof.
  induction l as [|c l IH]; simpl.
  - rewrite orb_false_r, prefixb_spec. split.
    + intros [k Hk]. by exists [], k.
    + intros (a & b & H). destruct a; [|done]. by exists b.
  - rewrite orb_true_iff, prefixb_spec, IH. split.
    + intros [[k Hk]|(a & b & ->)]; [by exists [], k|by exists (c :: a), b].
    + intros (a & b & H). destruct a as [|c' a].
      * left. by exists b.
      * right. injection H as _ ->. by exists a, b.
Qed.

(** A slice of a text occurs in the text. *)
Lemma slice_infix s i j : str_contains s (slice s i j) = true.
Proof.
  unfold str_contains, slice. rewrite chars_str_of. apply infixb_spec.
  exists (take i (chars s)), (drop (j - i) (drop i (chars s))).
  by rewrite take_drop, take_drop.
Qed.

Lemma slice_split s i j k :
  i <= j -> j <= k -> slice s i k = slice s i j +:+ slice s j k.
Proof.
  intros Hij Hjk. unfold slice. apply chars_inj.
  rewrite chars_app, !chars_str_of.
  replace (k - i) with ((j - i) + (k - j)) by lia.
  rewrite <- take_take_drop, drop_drop. by replace (i + (j - i)) with j by lia.
Qed.

Lemma slice_lookup s i j n :
  n < j - i -> chars (slice s i j) !! n = chars s !! (i + n).
Proof.
  intros Hn. unfold slice. rewrite chars_str_of.
  by rewrite lookup_take_lt, lookup_drop.
Qed.

Lemma slice_length s i j :
  i <= j -> j <= length (chars s) -> length (chars (slice s i j)) = j - i.
Proof.
  intros Hij Hj. unfold slice. rewrite chars_str_of, length_take, length_drop.
  lia.
Qed.

(** [strip] leaves alone a text whose first and last characters are not
    white space. *)
Lemma strip_id l a b :
  head l = Some a -> is_space a = false ->
  last l = Some b -> is_space b = false ->
  strip (str_of l) = str_of l.
Proof.
  intros Ha Hsa Hb Hsb. unfold strip. rewrite chars_str_of.
  assert (lstrip_chars l = l) as ->
    by (destruct l as [|x l]; [done|]; injection Ha as ->; simpl; by rewrite Hsa).
  apply last_Some in Hb as [l' ->]. rewrite rev_app_distr. simpl.
  rewrite Hsb. simpl. by rewrite rev_involutive.
Qed.

Lemma spans_le txt r i j : spans txt r i j -> i <= j.
Proof.
  revert i j.
  induction r as [|p|p lo hi|r1 IH1 r2 IH2|r1 IH1 r2 IH2| |name r IH];
    intros i j; simpl.
  - lia.
  - intros [-> _]. lia.
  - lia.
  - intros (m & H1 & H2). apply IH1 in H1. apply IH2 in H2. lia.
  - intros [H|H]; auto.
  - lia.
  - auto.
Qed.

Lemma lower_space a : is_space (lower a) = is_space a.
Proof.
  destruct a as [b0 b1 b2 b3 b4 b5 b6 b7].
  destruct b0, b1, b2, b3, b4, b5, b6, b7; reflexivity.
Qed.

Lemma letter_not_space a c :
  Ascii.eqb (lower a) c = true -> is_space c = false -> is_space a = false.
Proof. intros <-%Ascii.eqb_eq. by rewrite lower_space. Qed.

Lemma istr_first txt c s i j :
  spans txt (istr (String c s)) i j ->
  exists a, txt !! i = Some a /\ Ascii.eqb (lower a) (lower c) = true.
Proof. simpl. intros (m & (_ & a & Ha & Hp) & _). eauto. Qed.

Lemma exec_grp {R} txt name r i c (k : nat -> caps -> option R) :
  exec txt (Grp name r) i c k
  = exec txt r i c (fun j c' => k j ((name, (i, j)) :: c')).
Proof. reflexivity. Qed.

(** The group [(?P<last4>\d{4})]: four digits, recorded under its name. *)
Lemma exec_last4 {R} txt i c (k : nat -> caps -> option R) x :
  exec txt (Grp "last4" (Rep is_digit 4 (Some 4))) i c k = Some x ->
  (forall n, i <= n < i + 4 -> exists a, txt !! n = Some a /\ is_digit a = true)
  /\ exists c', k (i + 4) (("last4", (i, i + 4)) :: c') = Some x.
Proof.
  rewrite exec_grp. intros H.
  apply exec_spans in H as (j & c' & (Hlo & Hhi & Hall) & Hk).
  assert (j = i + 4) as -> by lia. eauto.
Qed.

(** The spans of the cues of the scanner's card pattern start with a
    character that is not white space. *)
Lemma scanner_cue_first txt i j :
  spans txt
    (istr "ending" · Rep is_space 1 None · istr "in"
     |+| istr "ending"
     |+| istr "last" · Rep is_space 0 None · istr "4"
     |+| istr "last" · Rep is_space 0 None · istr "four"
     |+| istr "card" · Rep is_space 1 None · istr "ending"
     |+| Rep (Ascii.eqb "*") 2 None) i j ->
  exists a, txt !! i = Some a /\ is_space a = false.
Proof.
  intros [(m & H & _)|[H|[(m & H & _)|[(m & H & _)|[(m & H & _)|H]]]]];
    try (apply istr_first in H as (a & Ha & Hp); exists a; split; [done|];
         by apply (letter_not_space _ _ Hp)).
  destruct H as (Hlo & _ & Hall). destruct (Hall i) as (a & Ha & Hp); [lia|].
  exists a. split; [done|]. by apply Ascii.eqb_eq in Hp as <-.
Qed.

Lemma rollback_cue_first txt i j :
  spans txt
    (istr "ending" · Rep is_space 1 None · istr "in"
     |+| istr "card" · Rep is_space 1 None · istr "ending"
     |+| Rep (Ascii.eqb "*") 2 None) i j ->
  exists a, txt !! i = Some a /\ is_space a = false.
Proof.
  intros [(m & H & _)|[(m & H & _)|H]];
    try (apply istr_first in H as (a & Ha & Hp); exists a; split; [done|];
         by apply (letter_not_space _ _ Hp)).
  destruct H as (Hlo & _ & Hall). destruct (Hall i) as (a & Ha & Hp); [lia|].
  exists a. split; [done|]. by apply Ascii.eqb_eq in Hp as <-.
Qed.

Lemma digit_not_space a : is_digit a = true -> is_space a = false.
Proof.
  destruct a as [b0 b1 b2 b3 b4 b5 b6 b7].
  destruct b0, b1, b2, b3, b4, b5, b6, b7; vm_compute; congruence.
Qed.

Lemma scanner_card_match txt i adv m :
  match_at txt CARD_LAST4_RE i adv = Some m ->
  exists j,
    m_start m = i /\ i <= j /\ m_end m = j + 4
    /\ List.find (fun e => String.eqb (fst e) "last4") (m_caps m)
       = Some ("last4", (j, j + 4))
    /\ (forall n, j <= n < j + 4 ->
          exists a, txt !! n = Some a /\ is_digit a = true)
    /\ exists a, txt !! i = Some a /\ is_space a = false.
Proof.
  unfold match_at, CARD_LAST4_RE. rewrite exec_seq. intros H.
  apply exec_spans in H as (j1 & c1 & Hcue & H).
  rewrite exec_seq in H. apply exec_spans in H as (j2 & c2 & Hgap & H).
  apply exec_last4 in H as (Hdig & c3 & H).
  destruct (adv && Nat.eqb (j2 + 4) i); [done|]. injection H as <-.
  apply spans_le in Hgap. pose proof (spans_le _ _ _ _ Hcue).
  exists j2. cbn [m_start m_end m_caps]. repeat split; [lia|done|].
  by apply scanner_cue_first in Hcue.
Qed.

Lemma rollback_card_match txt i adv m :
  match_at txt Rollback.CARD_LAST4_RE i adv = Some m ->
  exists j,
    m_start m = i /\ i <= j /\ m_end m = j + 4
    /\ List.find (fun e => String.eqb (fst e) "last4") (m_caps m)
       = Some ("last4", (j, j + 4))
    /\ (forall n, j <= n < j + 4 ->
          exists a, txt !! n = Some a /\ is_digit a = true)
    /\ (exists a, txt !! i = Some a /\ is_space a = false)
    /\ boundary txt (j + 4) = true.
Proof.
  unfold match_at, Rollback.CARD_LAST4_RE. rewrite exec_seq. intros H.
  apply exec_spans in H as (j1 & c1 & Hcue & H).
  rewrite exec_seq in H. apply exec_spans in H as (j2 & c2 & Hgap & H).
  rewrite exec_seq in H. apply exec_last4 in H as (Hdig & c3 & H).
  cbn [exec] in H. destruct (boundary txt (j2 + 4)) eqn:Hb; [|done].
  destruct (adv && Nat.eqb (j2 + 4) i); [done|]. injection H as <-.
  apply spans_le in Hgap. pose proof (spans_le _ _ _ _ Hcue).
  exists j2. cbn [m_start m_end m_caps]. repeat split; [lia|done|..|done].
  by apply rollback_cue_first in Hcue.
Qed.

(** The finding built from a match that ends with the four digits of its
    group and starts with a character that is not white space. *)
Lemma card_finding_shaped text m j :
  m_start m <= j -> m_end m = j + 4 ->
  List.find (fun e => String.eqb (fst e) "last4") (m_caps m)
    = Some ("last4", (j, j + 4)) ->
  (forall n, j <= n < j + 4 ->
     exists a, chars text !! n = Some a /\ is_digit a = true) ->
  (exists a, chars text !! m_start m = Some a /\ is_space a = false) ->
  card_shaped text (card_finding text m)
  /\ f_match (card_finding text m) = group0 text m.
Proof.
  intros Hj Hend Hfind Hdig (a & Ha & Hsa).
  assert (j + 4 <= length (chars text)) as Hlen.
  { destruct (Hdig (j + 3)) as (b & Hb & _); [lia|].
    apply lookup_lt_Some in Hb. lia. }
  assert (f_value (card_finding text m) = slice text j (j + 4)) as Hval
    by (unfold card_finding, group; cbn [f_value]; by rewrite Hfind).
  assert (f_match (card_finding text m) = group0 text m) as Hmatch.
  { unfold card_finding, group0, slice. cbn [f_match].
    destruct (Hdig (j + 3)) as (b & Hb & Hdb); [lia|].
    apply (strip_id _ a b); [|done| |by apply digit_not_space].
    - rewrite head_lookup, lookup_take_lt, lookup_drop by lia.
      by rewrite Nat.add_0_r.
    - rewrite last_lookup, length_take, length_drop.
      rewrite lookup_take_lt, lookup_drop by lia.
      rewrite <- Hb. f_equal. lia. }
  split; [|done]. unfold card_shaped. rewrite Hmatch, Hval.
  split; [|split; [|split]].
  - rewrite <- length_chars, slice_length by lia. lia.
  - apply Forall_lookup. intros n c Hc.
    assert (n < 4) as Hn.
    { apply lookup_lt_Some in Hc. rewrite slice_length in Hc by lia. lia. }
    rewrite slice_lookup in Hc by lia.
    destruct (Hdig (j + n)) as (c' & Hc' & Hd); [lia|]. congruence.
  - apply endswith_spec. exists (slice text (m_start m) j).
    unfold group0. rewrite Hend. apply slice_split; lia.
  - apply slice_infix.
Qed.

(** X10. The card findings of the three scanners are well formed.  Every
    [card_last4] finding of [scan_for_sensitive] in [scanner.py], of
    [scan_sensitive] in [validate.py] and of [scan_for_sensitive] in
    [rollback.py] has a value of exactly four decimal digits; its match is a
    piece of the scanned text that ends with those digits; and the [strip()]
    applied to the match never removes anything. *)
Theorem card_findings_shaped (text : string) (f : finding) :
  f_type f = "card_last4" ->
  (f ∈ scan_for_sensitive text ->
   card_shaped text f
   /\ exists m, m ∈ finditer CARD_LAST4_RE text /\ f_match f = group0 text m)
  /\ (f ∈ ValidateE.scan_sensitive text ->
      card_shaped text f
      /\ exists m, m ∈ finditer ValidateE.CARD_LAST4_RE text
                   /\ f_match f = group0 text m)
  /\ (f ∈ Rollback.scan_for_sensitive text ->
      card_shaped text f
      /\ exists m, m ∈ finditer Rollback.CARD_LAST4_RE text
                   /\ f_match f = group0 text m).
Proof.
  intros Hty.
  assert (forall l, f ∈ map (email_finding text) l -> False) as Hemail.
  { intros l Hin. pose proof (email_findings_type text l) as Hall.
    rewrite Forall_forall in Hall. specialize (Hall _ Hin). congruence. }
  assert (forall m, m ∈ finditer CARD_LAST4_RE text ->
            card_shaped text (card_finding text m)
            /\ f_match (card_finding text m) = group0 text m) as Hscanner.
  { intros m Hm. apply scan_from_match_at in Hm as (adv & Hm & _).
    apply scanner_card_match in Hm
      as (j & Hs & Hj & He & Hfind & Hdig & Hfirst).
    by apply (card_finding_shaped text m j). }
  assert (forall m, m ∈ finditer Rollback.CARD_LAST4_RE text ->
            card_shaped text (card_finding text m)
            /\ f_match (card_finding text m) = group0 text m) as Hrollback.
  { intros m Hm. apply scan_from_match_at in Hm as (adv & Hm & _).
    apply rollback_card_match in Hm
      as (j & Hs & Hj & He & Hfind & Hdig & Hfirst & _).
    by apply (card_finding_shaped text m j). }
  split; [|split].
  - unfold scan_for_sensitive. intros [Hin|Hin]%elem_of_app;
      [|destruct (Hemail _ Hin)].
    apply list_elem_of_In, in_map_iff in Hin as (m & <- & Hm).
    apply list_elem_of_In in Hm. destruct (Hscanner m Hm). eauto.
  - unfold ValidateE.scan_sensitive. intros [Hin|Hin]%elem_of_app;
      [|destruct (Hemail _ Hin)].
    apply list_elem_of_In, in_map_iff in Hin as (m & <- & Hm).
    apply list_elem_of_In in Hm. destruct (Hscanner m Hm). eauto.
  - unfold Rollback.scan_for_sensitive. intros [Hin|Hin]%elem_of_app;
      [|destruct (Hemail _ Hin)].
    apply list_elem_of_In, in_map_iff in Hin as (m & <- & Hm).
    apply list_elem_of_In in Hm. destruct (Hrollback m Hm). eauto.
Qed.

Lemma card_findings_shaped_witness :
  card_shaped "paid with card ending 4821 today"
    {| f_type := "card_last4"; f_match := "card ending 4821";
       f_value := "4821" |}
  /\ exists m, m ∈ finditer Rollback.CARD_LAST4_RE
                    "paid with card ending 4821 today"
               /\ "card ending 4821"
                  = group0 "paid with card ending 4821 today" m.
Proof.
  destruct (card_findings_shaped "paid with card ending 4821 today"
              {| f_type := "card_last4"; f_match := "card ending 4821";
                 f_value := "4821" |} eq_refl) as (_ & _ & H).
  apply H. vm_compute. apply list_elem_of_here.
Defined.

Lemma slice_forall (p : ascii -> bool) s i j :
  (forall n, i <= n < j -> exists a, chars s !! n = Some a /\ p a = true) ->
  Forall (fun c => p c = true) (chars (slice s i j)).
Proof.
  intros Hall. apply Forall_lookup. intros n c Hc.
  unfold slice in Hc. rewrite chars_str_of in Hc.
  apply lookup_take_Some in Hc as [Hc Hn]. rewrite lookup_drop in Hc.
  destruct (Hall (i + n)) as (a & Ha & Hp); [lia|]. congruence.
Qed.

Lemma slice_one s n a : chars s !! n = Some a -> slice s n (S n) = String a "".
Proof.
  intros Ha. unfold slice. replace (S n - n) with 1 by lia.
  rewrite (drop_S _ _ _ Ha). reflexivity.
Qed.

Lemma slice_nonempty s i j :
  i < j -> j <= length (chars s) -> slice s i j <> "".
Proof.
  intros Hij Hj Heq. apply (f_equal (fun x => length (chars x))) in Heq.
  rewrite slice_length in Heq by lia. simpl in Heq. lia.
Qed.

Lemma upper_lower a : is_upper a = true -> is_lower (lower a) = true.
Proof.
  destruct a as [b0 b1 b2 b3 b4 b5 b6 b7].
  destruct b0, b1, b2, b3, b4, b5, b6, b7; vm_compute; congruence.
Qed.

(** Under IGNORECASE a character that is not a letter matches itself
    only. *)
Lemma ichr_symbol a c :
  Ascii.eqb (lower a) (lower c) = true -> is_alpha c = false -> a = c.
Proof.
  intros Heq%Ascii.eqb_eq Hc. apply orb_false_iff in Hc as [Hu Hl].
  unfold lower in Heq at 2. rewrite Hu in Heq.
  destruct (is_upper a) eqn:Ha.
  - apply upper_lower in Ha. rewrite Heq in Ha. congruence.
  - unfold lower in Heq. by rewrite Ha in Heq.
Qed.

Lemma email_match_shaped text m :
  m ∈ finditer EMAIL_RE text -> email_shaped (group0 text m).
Proof.
  intros Hm. apply finditer_spans in Hm as (Hs & Hle & Hlen).
  unfold EMAIL_RE in Hs. cbn [spans ichr] in Hs.
  destruct Hs as (m0 & (-> & _) & m1 & (Hl1 & _ & Hloc) & m2
                  & (-> & a & Ha & Hat) & m3 & (Hl3 & _ & Hdom) & m4
                  & (-> & b & Hb & Hdot) & m5 & (Hl5 & _ & Htld) & He & _).
  subst m5.
  apply ichr_symbol in Hat; [|reflexivity]. subst a.
  apply ichr_symbol in Hdot; [|reflexivity]. subst b.
  exists (slice text (m_start m) m1), (slice text (S m1) m3),
    (slice text (S m3) (m_end m)).
  split.
  { unfold group0.
    rewrite (slice_split text (m_start m) m1 (m_end m)) by lia.
    rewrite (slice_split text m1 (S m1) (m_end m)) by lia.
    rewrite (slice_split text (S m1) m3 (m_end m)) by lia.
    rewrite (slice_split text m3 (S m3) (m_end m)) by lia.
    by rewrite (slice_one _ _ _ Ha), (slice_one _ _ _ Hb). }
  split; [apply slice_nonempty; lia|]. split; [by apply slice_forall|].
  split; [apply slice_nonempty; lia|]. split; [by apply slice_forall|].
  split; [rewrite <- length_chars, slice_length by lia; lia|].
  by apply slice_forall.
Qed.



(** *** A leak in a leaf is a leak in the flattened document *)

Lemma fenced_nil : fenced [] [].
Proof. by split. Qed.

Lemma fenced_compose a b pre post :
  fenced a b -> fenced pre post -> fenced (a ++ pre) (post ++ b).
Proof.
  intros [Ha Hb] [Hpre Hpost]. split.
  - rewrite last_app. by destruct (last pre).
  - destruct post; [by rewrite app_nil_l|done].
Qed.

Lemma join_elem x parts :
  In x parts ->
  exists pre post,
    chars (join nl parts) = pre ++ chars x ++ post /\ fenced pre post.
Proof.
  induction parts as [|p ps IH]; [done|].
  destruct ps as [|q ps].
  - intros [->|[]]. exists [], []. simpl. rewrite app_nil_r.
    split; [done|apply fenced_nil].
  - rewrite join_cons2, !chars_app. intros [->|Hin].
    + exists [], (chars nl ++ chars (join nl (q :: ps))).
      split; [done|]. by split.
    + destruct (IH Hin) as (pre & post & -> & Hpre & Hpost).
      exists (chars p ++ chars nl ++ pre), post. split.
      * by rewrite <- !app_assoc.
      * split; [|done]. rewrite !last_app.
        destruct (last pre); [done|]. reflexivity.
Qed.

(** The flattened document holds each of its strings, fenced by line
    feeds. *)
Lemma flatten_text_leaf s doc :
  string_leaf s doc ->
  exists pre post,
    chars (flatten_text doc) = pre ++ chars s ++ post /\ fenced pre post.
Proof.
  induction 1 as [|l x Hin _ (pre & post & Hx & Hf)|d v Hin
                  |d k v Hin _ (pre & post & Hv & Hf)].
  - exists [], []. simpl. rewrite app_nil_r. split; [done|apply fenced_nil].
  - destruct (join_elem (flatten_text x) (map flatten_text l))
      as (a & b & Hj & Hab); [by apply in_map|].
    exists (a ++ pre), (post ++ b). split; [|by apply fenced_compose].
    cbn [flatten_text]. rewrite Hj, Hx. by rewrite <- !app_assoc.
  - destruct (join_elem s
                (flat_map (fun kv => [str (JStr (fst kv)); flatten_text (snd kv)]) d))
      as (a & b & Hj & Hab).
    { apply in_flat_map. exists (s, v). split; [done|]. by left. }
    exists a, b. by cbn [flatten_text].
  - destruct (join_elem (flatten_text v)
                (flat_map (fun kv => [str (JStr (fst kv)); flatten_text (snd kv)]) d))
      as (a & b & Hj & Hab).
    { apply in_flat_map. exists (k, v). split; [done|]. right. by left. }
    exists (a ++ pre), (post ++ b). split; [|by apply fenced_compose].
    cbn [flatten_text]. rewrite Hj, Hv. by rewrite <- !app_assoc.
Qed.

Lemma spans_inside txt r i j :
  spans txt r i j -> i <= length txt -> j <= length txt.
Proof.
  revert i j.
  induction r as [|p|p lo hi|r1 IH1 r2 IH2|r1 IH1 r2 IH2| |name r IH];
    intros i j; simpl.
  - by intros ->.
  - intros (-> & a & Ha & _) _. by apply lookup_lt_Some in Ha.
  - intros (Hlo & _ & Hall) Hi.
    destruct (Nat.eq_dec i j) as [<-|]; [done|].
    destruct (Hall (j - 1)) as (a & Ha & _); [lia|].
    apply lookup_lt_Some in Ha. lia.
  - intros (m & H1 & H2) Hi. eauto.
  - intros [H|H]; eauto.
  - by intros [-> _].
  - eauto.
Qed.

Lemma lookup_shift (pre s post : list ascii) n :
  n < length s -> (pre ++ s ++ post) !! (length pre + n) = s !! n.
Proof.
  intros Hn. rewrite lookup_app_r by lia.
  replace (length pre + n - length pre) with n by lia.
  by rewrite lookup_app_l.
Qed.

Lemma word_at_shift (pre s post : list ascii) n :
  n < length s -> word_at (pre ++ s ++ post) (length pre + n) = word_at s n.
Proof. intros Hn. unfold word_at. by rewrite lookup_shift. Qed.

Lemma boundary_shift (pre s post : list ascii) i :
  fenced pre post -> i <= length s ->
  boundary (pre ++ s ++ post) (length pre + i) = boundary s i.
Proof.
  intros [Hpre Hpost] Hi. unfold boundary. f_equal.
  - destruct i as [|i].
    + rewrite Nat.add_0_r. destruct (length pre) as [|n] eqn:Hn; [done|].
      unfold word_at. rewrite lookup_app_l by lia.
      rewrite last_lookup, Hn in Hpre. simpl in Hpre.
      by destruct (pre !! n).
    + rewrite Nat.add_succ_r. apply word_at_shift. lia.
  - destruct (Nat.eq_dec i (length s)) as [->|]; [|apply word_at_shift; lia].
    unfold word_at. rewrite (lookup_ge_None_2 s) by lia.
    rewrite lookup_app_r by lia. rewrite lookup_app_r by lia.
    replace (length pre + length s - length pre - length s) with 0 by lia.
    rewrite <- head_lookup. by destruct (head post).
Qed.

(** A span of a fenced piece is a span of the whole text. *)
Lemma spans_shift (pre s post : list ascii) r :
  fenced pre post ->
  forall i j, i <= length s -> spans s r i j ->
    spans (pre ++ s ++ post) r (length pre + i) (length pre + j).
Proof.
  intros Hf.
  induction r as [|p|p lo hi|r1 IH1 r2 IH2|r1 IH1 r2 IH2| |name r IH];
    intros i j Hi; simpl.
  - by intros ->.
  - intros (-> & a & Ha & Hp). split; [lia|]. exists a. split; [|done].
    rewrite lookup_shift; [done|]. by apply lookup_lt_Some in Ha.
  - intros (Hlo & Hhi & Hall). split; [lia|]. split.
    { destruct hi; [lia|done]. }
    intros n Hn. destruct (Hall (n - length pre)) as (a & Ha & Hp); [lia|].
    exists a. split; [|done].
    replace n with (length pre + (n - length pre)) by lia.
    rewrite lookup_shift; [done|]. by apply lookup_lt_Some in Ha.
  - intros (m & H1 & H2). exists (length pre + m).
    split; [by apply IH1|]. apply IH2; [|done].
    by apply (spans_inside _ _ _ _ H1).
  - intros [H|H]; [left; by apply IH1|right; by apply IH2].
  - intros (-> & Hb). split; [done|]. by rewrite boundary_shift.
  - by apply IH.
Qed.

Lemma occurs_leaf r s doc :
  string_leaf s doc -> occurs r s -> occurs r (flatten_text doc).
Proof.
  intros Hleaf (i & j & Hi & Hs).
  destruct (flatten_text_leaf s doc Hleaf) as (pre & post & Hflat & Hf).
  rewrite <- length_chars in Hi.
  exists (length pre + i), (length pre + j). unfold occurs.
  rewrite <- length_chars, Hflat, !length_app.
  split; [lia|]. by apply spans_shift.
Qed.

Lemma finditer_leaf r s doc :
  string_leaf s doc -> finditer r s <> [] ->
  finditer r (flatten_text doc) <> [].
Proof.
  intros Hleaf Hs Hdoc. apply finditer_nil_iff in Hdoc. apply Hs.
  apply finditer_nil_iff. intros Hocc. apply Hdoc. by eapply occurs_leaf.
Qed.

Lemma scan_parts_nil {A B} (f g : A -> B) (l k : list A) :
  map f l ++ map g k = [] <-> l = [] /\ k = [].
Proof.
  split; [|by intros [-> ->]].
  intros [Hl Hk]%app_eq_nil. by destruct l, k.
Qed.

(** X12. No leak hides in the structure of a document.  When a string of
    the document (a string value or a dict key, at any depth) has a finding
    on its own, the flattened document has a finding too: for the scanner of
    [scanner.py], for [scan_sensitive] of [validate.py] and for the scanner
    of the rollback flow. *)
Theorem leaf_finding_found (s : string) (doc : json) :
  string_leaf s doc ->
  (scan_for_sensitive s <> [] -> scan_for_sensitive (flatten_text doc) <> [])
  /\ (ValidateE.scan_sensitive s <> [] ->
      ValidateE.scan_sensitive (ValidateE.flatten_text doc) <> [])
  /\ (Rollback.scan_for_sensitive s <> [] ->
      Rollback.scan_for_sensitive (RollbackMain.flatten_text doc) <> []).
Proof.
  intros Hleaf.
  assert (forall r1 r2,
            map (card_finding s) (finditer r1 s)
              ++ map (email_finding s) (finditer r2 s) <> [] ->
            map (card_finding (flatten_text doc)) (finditer r1 (flatten_text doc))
              ++ map (email_finding (flatten_text doc))
                   (finditer r2 (flatten_text doc)) <> []) as Hgen.
  { intros r1 r2 Hs Hdoc. apply scan_parts_nil in Hdoc as [H1 H2].
    apply Hs. apply scan_parts_nil. split.
    - destruct (finditer r1 s) eqn:E; [done|].
      destruct (finditer_leaf r1 s doc Hleaf); [by rewrite E|done].
    - destruct (finditer r2 s) eqn:E; [done|].
      destruct (finditer_leaf r2 s doc Hleaf); [by rewrite E|done]. }
  split; [apply Hgen|]. split; apply Hgen.
Qed.

Lemma leaf_finding_found_witness :
  scan_for_sensitive
    (flatten_text
       (JObj [("notes", JList [JStr "ok"; JObj [("bill to pat@example.com", JNull)]])]))
  <> [].
Proof.
  destruct (leaf_finding_found "bill to pat@example.com"
              (JObj [("notes",
                      JList [JStr "ok"; JObj [("bill to pat@example.com", JNull)]])]))
    as (H & _ & _).
  - apply (leaf_value _ _ "notes" (JList [JStr "ok";
                                          JObj [("bill to pat@example.com", JNull)]]));
      [by left|].
    apply (leaf_item _ _ (JObj [("bill to pat@example.com", JNull)]));
      [right; by left|].
    apply (leaf_key _ _ JNull). by left.
  - apply H. vm_compute. discriminate.
Defined.

End DetectorFacts.

(** ** Writer attribution, continued *)
Section AttributionMoreFacts.
Import Py Scanner.

(** What the first loop says of the event it stops at. *)
Lemma match_tier_some tn tb e mode :
  match_tier tn tb e = Ok (Some mode) ->
  is_write_completion e = true
  /\ exists p, logged_path e = Ok p /\ truthy p = true
     /\ ((mode = "exact_path" /\ _norm_path p = tn)
         \/ (mode = "suffix_path" /\ _norm_path p <> tn
             /\ endswith (_norm_path p) tn || endswith tn (_norm_path p) = true)
         \/ (mode = "basename" /\ _norm_path p <> tn
             /\ endswith (_norm_path p) tn || endswith tn (_norm_path p) = false
             /\ basename (_norm_path p) = tb)).
Proof.
  unfold match_tier, is_write_completion.
  destruct (eqb (get e "event_type") (JStr "tool_completed")); [|done].
  destruct (eqb (get e "tool_name") (JStr "write_local_json")); [|done].
  destruct (logged_path e) as [p|] eqn:Hp; [|done]. simpl.
  destruct (truthy p) eqn:Ht; [|done]. simpl.
  destruct (String.eqb_spec (_norm_path p) tn) as [Heq|Hne].
  { intros [= <-]. split; [done|]. exists p. auto. }
  destruct (endswith (_norm_path p) tn || endswith tn (_norm_path p)) eqn:Hs.
  { intros [= <-]. split; [done|]. exists p. auto 7. }
  destruct (String.eqb_spec (basename (_norm_path p)) tb) as [Hb|Hb]; [|done].
  intros [= <-]. split; [done|]. exists p. auto 8.
Qed.

(** An event the first loop passes over is no matching completion. *)
Lemma match_tier_none target e :
  match_tier (_norm_path (JStr target))
             (basename (_norm_path (JStr target))) e = Ok None ->
  ~ matching_completion target e.
Proof.
  intros Hnone (Hw & p & Hp & Ht & Hm). revert Hnone.
  unfold is_write_completion in Hw. apply andb_true_iff in Hw as [Hw1 Hw2].
  unfold match_tier. rewrite Hw1, Hw2, Hp. simpl. rewrite Ht. simpl.
  unfold tier_match in Hm. cbv zeta in Hm.
  destruct (String.eqb (_norm_path p) (_norm_path (JStr target))); [done|].
  destruct (endswith (_norm_path p) (_norm_path (JStr target))
            || endswith (_norm_path (JStr target)) (_norm_path p)); [done|].
  simpl in Hm. by rewrite Hm.
Qed.

Lemma item_ok (events : list event) i e :
  item events i = Ok e -> events !! i = Some e.
Proof. unfold item. destruct (events !! i); [by intros [= ->]|done]. Qed.

(** The first loop stops at the newest event that matches. *)
Lemma find_write_some events tn tb n i mode :
  find_write events tn tb n = Ok (Some (i, mode)) ->
  i < n
  /\ exists e, events !! i = Some e /\ match_tier tn tb e = Ok (Some mode)
     /\ forall j e', i < j < n -> events !! j = Some e' ->
          match_tier tn tb e' = Ok None.
Proof.
  induction n as [|n IH]; simpl; [done|].
  destruct (item events n) as [evt|] eqn:He; [|done]. simpl.
  apply item_ok in He.
  destruct (match_tier tn tb evt) as [[m|]|] eqn:Ht; [| |done]; simpl.
  - intros [= <- <-]. split; [lia|]. exists evt. repeat split; [done..|].
    intros j e' Hj. lia.
  - intros H. destruct (IH H) as (Hi & e & Hei & Hm & Hlater).
    split; [lia|]. exists e. repeat split; [done..|].
    intros j e' Hj Hj'. destruct (Nat.eq_dec j n) as [->|].
    + congruence.
    + apply (Hlater j); [lia|done].
Qed.

(** X13. An attribution is that of the newest matching write.  Whenever
    [attribute_writer] returns an attribution, some event of the log is a
    completion of [write_local_json] whose recorded path matches the target,
    no later event of the log is one, and the attribution carries that
    event's path, run id and timestamp; [match_mode] names the first tier
    under which the path matches: exact equality of the normalized paths,
    else one being a suffix of the other, else equal file names. *)
Theorem attribute_writer_newest (events : list event) (target : string)
    (a : attribution) :
  attribute_writer events target = Ok (Some a) ->
  exists i e p,
    events !! i = Some e
    /\ is_write_completion e = true
    /\ logged_path e = Ok p /\ truthy p = true
    /\ (let o := _norm_path p in
        let t := _norm_path (JStr target) in
        (match_mode a = "exact_path" /\ o = t)
        \/ (match_mode a = "suffix_path" /\ o <> t
            /\ endswith o t || endswith t o = true)
        \/ (match_mode a = "basename" /\ o <> t
            /\ endswith o t || endswith t o = false
            /\ basename o = basename t))
    /\ (forall j e', i < j -> events !! j = Some e' ->
          ~ matching_completion target e')
    /\ output_path_in_log a = p
    /\ run_id a = get e "run_id"
    /\ tool_completed_ts a = get e "ts"
    /\ target_output_arg a = target
    /\ tool_name a = "write_local_json".
Proof.
  unfold attribute_writer. cbv zeta.
  destruct (find_write events _ _ (length events)) as [[[i mode]|]|] eqn:Hw;
    [|done..].
  apply find_write_some in Hw as (Hi & e & He & Hm & Hlater).
  rewrite bind_ok, (item_lookup _ _ _ He), bind_ok.
  apply match_tier_some in Hm as (Hc & p & Hp & Ht & Hmode).
  rewrite Hp, bind_ok.
  destruct (find_agent events (get e "run_id") (S i)) as [ra|]; [|done].
  rewrite bind_ok.
  destruct (find_invoke events (get e "run_id") (get e "op_id") (S i))
    as [ri|]; [|done].
  rewrite bind_ok. intros [= <-]. cbn.
  exists i, e, p. repeat split; try done.
  intros j e' Hj He'. apply match_tier_none. apply (Hlater j); [|done].
  split; [done|]. by apply lookup_lt_Some in He'.
Qed.

Lemma attribute_writer_newest_witness :
  exists i e p,
    sample_log !! i = Some e
    /\ is_write_completion e = true
    /\ logged_path e = Ok p /\ truthy p = true
    /\ (let o := _norm_path p in
        let t := _norm_path (JStr "other/out.json") in
        ("basename" = "exact_path" /\ o = t)
        \/ ("basename" = "suffix_path" /\ o <> t
            /\ endswith o t || endswith t o = true)
        \/ ("basename" = "basename" /\ o <> t
            /\ endswith o t || endswith t o = false
            /\ basename o = basename t))
    /\ (forall j e', i < j -> sample_log !! j = Some e' ->
          ~ matching_completion "other/out.json" e')
    /\ JStr "/a/out.json" = p
    /\ JStr "run-1" = get e "run_id"
    /\ JStr "2026-01-01T00:00:02+00:00" = get e "ts"
    /\ "other/out.json" = "other/out.json"
    /\ "write_local_json" = "write_local_json".
Proof.
  apply (attribute_writer_newest sample_log "other/out.json"
           {| match_mode := "basename";
              target_output_arg := "other/out.json";
              output_path_in_log := JStr "/a/out.json";
              run_id := JStr "run-1";
              agent_name := JStr "shopper";
              agent_run_started_ts := JStr "2026-01-01T00:00:00+00:00";
              tool_name := "write_local_json";
              op_id := JStr "op-1";
              tool_invoked_ts := JStr "2026-01-01T00:00:01+00:00";
              tool_completed_ts := JStr "2026-01-01T00:00:02+00:00";
              tool_args := JObj [("path", JStr "/a/out.json")] |}).
  vm_compute. reflexivity.
Defined.

(** The second loop returns the nearest event at which it stops. *)
Lemma find_agent_spec events rid n name ts :
  find_agent events rid n = Ok (name, ts) ->
  (name = JNull /\ ts = JNull
   /\ forall j e, j < n -> events !! j = Some e -> starts_run rid e = false)
  \/ exists j e,
       j < n /\ events !! j = Some e /\ starts_run rid e = true
       /\ name = get e "agent_name" /\ ts = get e "ts"
       /\ forall j' e', j < j' < n -> events !! j' = Some e' ->
            starts_run rid e' = false.
Proof.
  induction n as [|n IH]; simpl.
  - intros [= <- <-]. left. repeat split. intros j e Hj. lia.
  - destruct (item events n) as [evt|] eqn:He; [|done]. simpl.
    apply item_ok in He.
    destruct (starts_run rid evt) eqn:Hs.
    + unfold starts_run in Hs.
      apply andb_true_iff in Hs as [[Hr Ht]%andb_true_iff Hn].
      assert (truthy rid && negb (eqb (get evt "run_id") rid) = false) as ->
        by (destruct (truthy rid), (eqb (get evt "run_id") rid); done).
      rewrite Ht, Hn. simpl. intros [= <- <-]. right.
      exists n, evt. repeat split; [lia|done| |].
      * unfold starts_run. by rewrite Hr, Ht, Hn.
      * intros j' e' Hj'. lia.
    + assert (forall r, (if truthy rid && negb (eqb (get evt "run_id") rid)
                         then find_agent events rid n
                         else if eqb (get evt "event_type") (JStr "agent_run_started")
                                 && truthy (get evt "agent_name")
                              then r else find_agent events rid n)
                        = find_agent events rid n) as ->.
      { intros r. unfold starts_run in Hs.
        destruct (truthy rid), (eqb (get evt "run_id") rid); simpl in *;
          try done; by rewrite Hs. }
      intros H. destruct (IH H) as [(-> & -> & Hnone)|(j & e & Hj & Hej & Hq & -> & -> & Hnear)].
      * left. repeat split. intros j e Hj Hej.
        destruct (Nat.eq_dec j n) as [->|]; [congruence|].
        apply (Hnone j); [lia|done].
      * right. exists j, e. repeat split; [lia|done..|].
        intros j' e' Hj' Hej'.
        destruct (Nat.eq_dec j' n) as [->|]; [congruence|].
        apply (Hnear j'); [lia|done].
Qed.

(** The third loop returns the nearest event at which it stops. *)
Lemma find_invoke_spec events rid oid n ts targs iop :
  find_invoke events rid oid n = Ok (ts, targs, iop) ->
  (ts = JNull /\ targs = JNull /\ iop = JNull
   /\ forall j e, j < n -> events !! j = Some e ->
        invokes_write rid oid e = false)
  \/ exists j e,
       j < n /\ events !! j = Some e /\ invokes_write rid oid e = true
       /\ ts = get e "ts" /\ targs = get e "tool_args" /\ iop = get e "op_id"
       /\ forall j' e', j < j' < n -> events !! j' = Some e' ->
            invokes_write rid oid e' = false.
Proof.
  induction n as [|n IH]; simpl.
  - intros [= <- <- <-]. left. repeat split. intros j e Hj. lia.
  - destruct (item events n) as [evt|] eqn:He; [|done]. simpl.
    apply item_ok in He.
    destruct (invokes_write rid oid evt) eqn:Hs.
    + unfold invokes_write in Hs.
      apply andb_true_iff in Hs as [[[Hr Ht]%andb_true_iff Hn]%andb_true_iff Ho].
      assert (truthy rid && negb (eqb (get evt "run_id") rid) = false) as ->
        by (destruct (truthy rid), (eqb (get evt "run_id") rid); done).
      rewrite Ht, Hn. simpl.
      assert (forall r r' : result (json * json * json),
                (if truthy oid && eqb (get evt "op_id") oid then r
                 else if negb (truthy oid) then r else r') = r) as ->
        by (intros r r'; destruct (truthy oid), (eqb (get evt "op_id") oid); done).
      intros [= <- <- <-]. right.
      exists n, evt. repeat split; [lia|done| |].
      * unfold invokes_write. by rewrite Hr, Ht, Hn, Ho.
      * intros j' e' Hj'. lia.
    + assert (forall r : result (json * json * json),
                (if truthy rid && negb (eqb (get evt "run_id") rid)
                 then find_invoke events rid oid n
                 else if negb (eqb (get evt "event_type") (JStr "tool_invoked"))
                 then find_invoke events rid oid n
                 else if negb (eqb (get evt "tool_name") (JStr "write_local_json"))
                 then find_invoke events rid oid n
                 else if truthy oid && eqb (get evt "op_id") oid then r
                 else if negb (truthy oid) then r
                 else find_invoke events rid oid n)
                = find_invoke events rid oid n) as ->.
      { intros r. unfold invokes_write in Hs.
        destruct (truthy rid), (eqb (get evt "run_id") rid),
          (eqb (get evt "event_type") (JStr "tool_invoked")),
          (eqb (get evt "tool_name") (JStr "write_local_json")),
          (truthy oid), (eqb (get evt "op_id") oid); simpl in *; done. }
      intros H.
      destruct (IH H) as [(-> & -> & -> & Hnone)
                         |(j & e & Hj & Hej & Hq & -> & -> & -> & Hnear)].
      * left. repeat split. intros j e Hj Hej.
        destruct (Nat.eq_dec j n) as [->|]; [congruence|].
        apply (Hnone j); [lia|done].
      * right. exists j, e. repeat split; [lia|done..|].
        intros j' e' Hj' Hej'.
        destruct (Nat.eq_dec j' n) as [->|]; [congruence|].
        apply (Hnear j'); [lia|done].
Qed.



End AttributionMoreFacts.

(** ** The validator, continued *)
Section ValidatorMoreFacts.
Import Py.

Lemma insert_mtime_perm key x l : ValidateE.insert_mtime key x l ≡ₚ x :: l.
Proof.
  induction l as [|y l IH]; simpl; [done|].
  destruct (key x <? key y)%Z; [|done].
  rewrite IH. apply Permutation_swap.
Qed.

Lemma sort_mtime_perm key l : foldr (ValidateE.insert_mtime key) [] l ≡ₚ l.
Proof.
  induction l as [|x l IH]; simpl; [done|].
  rewrite insert_mtime_perm. by rewrite IH.
Qed.

(** The head of the list sorted newest first is a newest element. *)
Lemma head_sort_mtime key l x :
  head (foldr (ValidateE.insert_mtime key) [] l) = Some x ->
  x ∈ l /\ Forall (fun y => (key y <= key x)%Z) l.
Proof.
  revert x. induction l as [|a l IH]; intros x; simpl; [done|].
  destruct (foldr (ValidateE.insert_mtime key) [] l) as [|y rest] eqn:Hs.
  - assert (l = []) as ->.
    { apply Permutation_nil_r. by rewrite <- (sort_mtime_perm key l), Hs. }
    simpl. intros [= <-]. split; [apply list_elem_of_here|].
    constructor; [lia|constructor].
  - destruct (IH y eq_refl) as [Hy Hmax]. simpl.
    destruct (Z.ltb_spec (key a) (key y)) as [Hlt|Hge]; simpl; intros [= <-].
    + split; [by apply list_elem_of_further|]. constructor; [lia|done].
    + split; [apply list_elem_of_here|]. constructor; [lia|].
      eapply Forall_impl; [exact Hmax|]. simpl. intros z Hz. lia.
Qed.

(** X15. The baseline the validator falls back on.  The path
    [most_recent_snapshot] returns joins the directory with one of its
    entries whose name contains the file name of the artifact, and no such
    entry has a later modification time; it returns [None] exactly when the
    path is not a directory or no entry contains the file name. *)
Theorem most_recent_snapshot_newest
    (w : ValidateE.world) (dir fname : string) :
  (forall p, ValidateE.most_recent_snapshot w dir fname = Some p ->
     ValidateE.w_isdir w dir = true
     /\ exists name,
          name ∈ ValidateE.w_listdir w dir
          /\ str_contains name fname = true
          /\ p = path_join dir name
          /\ forall name', name' ∈ ValidateE.w_listdir w dir ->
               str_contains name' fname = true ->
               (ValidateE.w_getmtime w (path_join dir name')
                <= ValidateE.w_getmtime w p)%Z)
  /\ (ValidateE.most_recent_snapshot w dir fname = None
      <-> ValidateE.w_isdir w dir = false
          \/ forall name, name ∈ ValidateE.w_listdir w dir ->
               str_contains name fname = false).
Proof.
  unfold ValidateE.most_recent_snapshot. split.
  - intros p. destruct (ValidateE.w_isdir w dir); simpl; [|done].
    intros Hp. apply head_sort_mtime in Hp as [Hin Hmax].
    split; [done|].
    apply list_elem_of_In, in_map_iff in Hin as (name & <- & Hin).
    apply list_elem_of_In, list_elem_of_filter in Hin as [Hc Hin].
    exists name. repeat split; [done..|].
    intros name' Hin' Hc'. rewrite Forall_forall in Hmax.
    apply (Hmax (path_join dir name')).
    apply list_elem_of_In, in_map_iff. exists name'. split; [done|].
    apply list_elem_of_In, list_elem_of_filter. done.
  - destruct (ValidateE.w_isdir w dir); simpl; [|by split; [left|]].
    match goal with
    | |- head (foldr _ [] ?c) = None <-> _ => set (cands := c)
    end.
    split.
    + intros Hnone. right. intros name Hin.
      destruct (str_contains name fname) eqn:Hc; [|done].
      assert (path_join dir name ∈ cands) as Hcand.
      { apply list_elem_of_In, in_map_iff. exists name. split; [done|].
        apply list_elem_of_In, list_elem_of_filter. done. }
      rewrite <- (sort_mtime_perm (ValidateE.w_getmtime w) cands) in Hcand.
      destruct (foldr _ [] cands); [by apply elem_of_nil in Hcand|done].
    + intros [?|Hall]; [done|].
      assert (cands = []) as ->; [|done].
      subst cands.
      destruct (filter _ (ValidateE.w_listdir w dir)) as [|name l] eqn:Hf;
        [done|].
      assert (name ∈ filter (fun name => str_contains name fname = true)
                       (ValidateE.w_listdir w dir)) as Hin
        by (rewrite Hf; apply list_elem_of_here).
      apply list_elem_of_filter in Hin as [Hc Hin].
      rewrite (Hall _ Hin) in Hc. done.
Qed.

Lemma most_recent_snapshot_newest_witness :
  ValidateE.w_isdir ValidateE.sample_world "snapshot" = true
  /\ exists name,
       name ∈ ValidateE.w_listdir ValidateE.sample_world "snapshot"
       /\ str_contains name "shopping_summary.json" = true
       /\ ValidateE.snap_file = path_join "snapshot" name
       /\ forall name', name' ∈ ValidateE.w_listdir ValidateE.sample_world "snapshot" ->
            str_contains name' "shopping_summary.json" = true ->
            (ValidateE.w_getmtime ValidateE.sample_world (path_join "snapshot" name')
             <= ValidateE.w_getmtime ValidateE.sample_world ValidateE.snap_file)%Z.
Proof.
  destruct (most_recent_snapshot_newest ValidateE.sample_world "snapshot"
              "shopping_summary.json") as [H _].
  apply H. vm_compute. reflexivity.
Defined.

Lemma flat_map_nil {A B} (f : A -> list B) (l : list A) :
  flat_map f l = [] <-> Forall (fun x => f x = []) l.
Proof.
  induction l as [|x l IH]; simpl; [by split|].
  split.
  - intros [Hx Hl]%app_eq_nil. constructor; [done|by apply IH].
  - intros H. apply Forall_cons in H as [-> Hl]. by apply IH.
Qed.

(** X16. [validate_schema] of [00_05_e/validate.py] reports no issue exactly
    when the six required fields are present, [key_needs] is a list and
    [created_at] is a string of ten characters or more. *)
Theorem validate_schema_passes_iff (obj : dict) :
  ValidateE.validate_schema obj = []
  <-> Forall (fun field => contains obj field = true)
             ValidateE.REQUIRED_TOP_LEVEL_FIELDS
      /\ is_list (get obj "key_needs") = true
      /\ exists s, get obj "created_at" = JStr s /\ 10 <= String.length s.
Proof.
  unfold ValidateE.validate_schema. split.
  - intros [Hreq [Hkn Hca]%app_eq_nil]%app_eq_nil.
    apply flat_map_nil in Hreq.
    assert (Forall (fun field => contains obj field = true)
              ValidateE.REQUIRED_TOP_LEVEL_FIELDS) as Hall.
    { eapply Forall_impl; [exact Hreq|]. simpl. intros f Hf.
      by destruct (contains obj f). }
    split; [done|].
    assert (contains obj "key_needs" = true) as Hk.
    { rewrite Forall_forall in Hall. apply Hall, list_elem_of_In.
      do 2 right. by left. }
    assert (contains obj "created_at" = true) as Hc.
    { rewrite Forall_forall in Hall. apply Hall, list_elem_of_In.
      do 5 right. by left. }
    rewrite Hk in Hkn. rewrite Hc in Hca. split.
    + by destruct (is_list (get obj "key_needs")).
    + destruct (get obj "created_at") as [| | | |s| |]; try done.
      exists s. split; [done|].
      destruct (Nat.ltb_spec (String.length s) 10); [done|lia].
  - intros (Hall & Hkn & s & Hs & Hlen).
    rewrite Hkn, Hs, andb_false_r.
    assert (flat_map (fun field =>
                        if negb (contains obj field)
                        then ["Missing required field: " +:+ field] else [])
                     ValidateE.REQUIRED_TOP_LEVEL_FIELDS = []) as ->.
    { apply flat_map_nil. eapply Forall_impl; [exact Hall|].
      simpl. by intros f ->. }
    destruct (contains obj "created_at"); [|done].
    by destruct (Nat.ltb_spec (String.length s) 10); [lia|].
Qed.

Lemma normalize_from_elem seen fs k :
  k ∈ ValidateE.normalize_from seen fs
  <-> (k ∉ seen) /\ k ∈ map ValidateE.finding_key fs.
Proof.
  revert seen. induction fs as [|f fs IH]; intros seen; simpl.
  - split; [by intros ?%elem_of_nil|by intros [_ ?%elem_of_nil]].
  - destruct (decide (ValidateE.finding_key f ∈ seen)) as [Hin|Hin].
    + rewrite IH, elem_of_cons. split; [tauto|].
      intros [Hk [->|Hfs]]; done.
    + rewrite !elem_of_cons, IH, not_elem_of_union, elem_of_singleton.
      destruct (decide (k = ValidateE.finding_key f)) as [->|Hne]; tauto.
Qed.

Lemma normalize_from_nodup seen fs : NoDup (ValidateE.normalize_from seen fs).
Proof.
  revert seen. induction fs as [|f fs IH]; intros seen; simpl; [constructor|].
  destruct (decide (ValidateE.finding_key f ∈ seen)); [done|].
  constructor; [|done]. rewrite normalize_from_elem, not_elem_of_union.
  rewrite elem_of_singleton. tauto.
Qed.

Lemma normalize_from_snoc seen fs f :
  ValidateE.normalize_from seen (fs ++ [f])
  = ValidateE.normalize_from seen fs
    ++ (if decide (ValidateE.finding_key f ∈ seen
                   \/ ValidateE.finding_key f ∈ map ValidateE.finding_key fs)
        then [] else [ValidateE.finding_key f]).
Proof.
  revert seen. induction fs as [|g fs IH]; intros seen; simpl.
  - destruct (decide (ValidateE.finding_key f ∈ seen)) as [Hf|Hf].
    + by rewrite decide_True by auto.
    + rewrite decide_False; [done|]. intros [?|?%elem_of_nil]; done.
  - destruct (decide (ValidateE.finding_key g ∈ seen)) as [Hg|Hg].
    + rewrite IH. f_equal. apply decide_ext. rewrite elem_of_cons.
      split; [tauto|]. intros [?|[->|?]]; auto.
    + rewrite IH. simpl. f_equal. f_equal. apply decide_ext.
      rewrite elem_of_union, elem_of_singleton, elem_of_cons. tauto.
Qed.

(** X17. [normalize_findings] removes the repetitions and nothing else.  Its
    result has no pair twice; the pairs it holds are the pairs of type and
    value, stripped, of the findings it was given; and it keeps them in the
    order of their first occurrence: a finding added at the end adds its
    pair at the end, unless the pair is already there. *)
Theorem normalize_findings_dedupes (findings : list dict) :
  NoDup (ValidateE.normalize_findings findings)
  /\ (forall k, k ∈ ValidateE.normalize_findings findings
                <-> k ∈ map ValidateE.finding_key findings)
  /\ (forall f,
        ValidateE.normalize_findings (findings ++ [f])
        = ValidateE.normalize_findings findings
          ++ (if decide (ValidateE.finding_key f
                           ∈ ValidateE.normalize_findings findings)
              then [] else [ValidateE.finding_key f])).
Proof.
  unfold ValidateE.normalize_findings.
  split; [apply normalize_from_nodup|]. split.
  - intros k. rewrite normalize_from_elem. split; [by intros [_ ?]|].
    intros Hk. split; [apply not_elem_of_empty|done].
  - intros f. rewrite normalize_from_snoc.
    f_equal. apply decide_ext. rewrite normalize_from_elem. split.
    + intros [?%elem_of_empty|?]; [done|]. split; [apply not_elem_of_empty|done].
    + intros [_ ?]. by right.
Qed.

End ValidatorMoreFacts.

(** ** The files of [00_05_b] *)
Section BeginStateFacts.
Import Py RollbackMain.



(** X19. The validator of [00_05_b] gives no verdict.  Its [main] never
    returns a report: either it exits with status 2 because the artifact or
    the baseline is missing, or a file fails to load, or, when both load,
    [validate_schema] raises [NameError] for the list of required fields,
    which the file never defines. *)
Theorem begin_validate_no_verdict (w : ValidateE.world) (a : ValidateE.args) :
  (exists e, ValidateBMain.main w a = inl e)
  /\ (forall bp cur base,
        ValidateE.w_exists w (ValidateE.a_output a) = true ->
        ValidateE.pick_baseline w a = Some bp ->
        bp <> "" ->
        ValidateE.w_exists w bp = true ->
        ValidateE.w_load_json w (ValidateE.a_output a) = Ok cur ->
        ValidateE.w_load_json w bp = Ok base ->
        ValidateBMain.main w a
        = inl (ValidateBMain.NameError "REQUIRED_TOP_LEVEL_FIELDS")).
Proof.
  split.
  - unfold ValidateBMain.main. cbv zeta.
    destruct (negb (ValidateE.w_exists w (ValidateE.a_output a))); [eauto|].
    destruct (ValidateE.pick_baseline w a) as [bp|]; [|eauto].
    destruct (String.eqb bp "" || negb (ValidateE.w_exists w bp)); [eauto|].
    destruct (ValidateE.w_load_json w (ValidateE.a_output a)); [|eauto].
    destruct (ValidateE.w_load_json w bp); [|eauto].
    simpl. eauto.
  - intros bp cur base Hout Hpick Hne Hbp Hcur Hbase.
    unfold ValidateBMain.main. cbv zeta. rewrite Hout, Hpick. simpl.
    destruct (String.eqb_spec bp ""); [done|].
    by rewrite Hbp, Hcur, Hbase.
Qed.

Lemma begin_validate_no_verdict_witness :
  ValidateBMain.main ValidateE.sample_world ValidateE.sample_args
  = inl (ValidateBMain.NameError "REQUIRED_TOP_LEVEL_FIELDS").
Proof.
  destruct (begin_validate_no_verdict ValidateE.sample_world
              ValidateE.sample_args) as [_ H].
  apply (H ValidateE.snap_file ValidateE.restored ValidateE.baseline_doc).
  - reflexivity.
  - vm_compute. reflexivity.
  - discriminate.
  - reflexivity.
  - reflexivity.
  - reflexivity.
Defined.

End BeginStateFacts.

(** ** The event log *)
Section ObservabilityFacts.
Import Py Observability.

Lemma eqb_str_r v k :
  eqb v (JStr k) = match v with JStr s => String.eqb s k | _ => false end.
Proof. by destruct v. Qed.

Lemma count_of_bump c k k' :
  count_of (JStr k) (bump c (JStr k'))
  = count_of (JStr k) c + (if String.eqb k' k then 1 else 0).
Proof.
  induction c as [|[k0 n] c IH]; simpl.
  - by destruct (String.eqb k' k).
  - rewrite !eqb_str_r. destruct k0 as [| | | |s| |]; simpl; try apply IH.
    destruct (String.eqb_spec s k') as [->|Hne].
    + simpl. destruct (String.eqb_spec k' k); simpl; lia.
    + simpl. destruct (String.eqb_spec s k) as [->|]; [|done].
      destruct (String.eqb_spec k' k); [congruence|lia].
Qed.

Lemma summarize_from_app rid c l1 l2 :
  summarize_from rid c (l1 ++ l2)
  = match summarize_from rid c l1 with
    | inr c' => summarize_from rid c' l2
    | inl e => inl e
    end.
Proof.
  revert c. induction l1 as [|[v|] l1 IH]; intros c; simpl; [done| |done].
  destruct v; try done.
  destruct (negb (eqb (get d "run_id") (JStr rid))); [done|].
  by destruct (hashable (get_default d "event_type" (JStr "unknown"))).
Qed.

Lemma summarize_from_counts rid lines :
  Forall (well_typed rid) lines ->
  forall c, exists c',
    summarize_from rid c lines = inr c'
    /\ forall k, count_of (JStr k) c'
                 = count_of (JStr k) c + length (List.filter (counted rid k) lines).
Proof.
  induction 1 as [|[v|] lines Hl _ IH]; intros c; simpl.
  - exists c. split; [done|]. intros k. lia.
  - destruct v as [| | | | | |evt]; try done. simpl in Hl.
    destruct (eqb (get evt "run_id") (JStr rid)) eqn:Hr; simpl.
    + destruct (Hl eq_refl) as [s Hs]. rewrite Hs. simpl.
      destruct (IH (bump c (JStr s))) as (c' & -> & Hc').
      exists c'. split; [done|]. intros k. rewrite Hc', count_of_bump.
      destruct (String.eqb s k); simpl; lia.
    + apply IH.
  - apply IH.
Qed.

(** X20. [summarize_run] counts the events of the current run by type.  On
    a log whose decodable lines are dicts and whose events of the run have a
    string for event type (or none, which counts as [unknown]),
    [summarize_run] raises nothing and the count it returns for a type is
    the number of lines that are events of the run with that type; lines
    that do not decode and events of other runs count for nothing; a missing
    file gives no count at all. *)
Theorem summarize_run_counts (rid path : string) (st : logfiles) :
  (forall lines, st !! path = Some lines ->
     Forall (well_typed rid) lines ->
     exists c,
       summarize_run rid path st = inr c
       /\ forall k, count_of (JStr k) c
                    = length (List.filter (counted rid k) lines))
  /\ (st !! path = None -> summarize_run rid path st = inr []).
Proof.
  unfold summarize_run. split.
  - intros lines -> Hwt.
    destruct (summarize_from_counts rid lines Hwt []) as (c & Hc & Hk).
    exists c. split; [done|]. intros k. by rewrite Hk.
  - by intros ->.
Qed.

Lemma summarize_run_counts_witness :
  let lines :=
    [Some (JObj [("run_id", JStr "r1"); ("event_type", JStr "tool_invoked")]);
     None;
     Some (JObj [("run_id", JStr "r2"); ("event_type", JStr "tool_invoked")]);
     Some (JObj [("run_id", JStr "r1")]);
     Some (JObj [("run_id", JStr "r1"); ("event_type", JStr "tool_invoked")])] in
  exists c,
    summarize_run "r1" "events.jsonl" {[ "events.jsonl" := lines ]} = inr c
    /\ forall k, count_of (JStr k) c
                 = length (List.filter (counted "r1" k) lines).
Proof.
  intros lines.
  destruct (summarize_run_counts "r1" "events.jsonl"
              {[ "events.jsonl" := lines ]}) as [H _].
  apply H.
  - reflexivity.
  - repeat constructor; simpl; intros _; eauto.
Defined.

Lemma lookup_dict_set d k v k' :
  lookup k' (dict_set d k v)
  = if String.eqb k' k then Some v else lookup k' d.
Proof.
  induction d as [|[k0 v0] d IH]; simpl.
  - by destruct (String.eqb k' k).
  - destruct (String.eqb_spec k0 k) as [->|Hne]; simpl.
    + by destruct (String.eqb_spec k' k).
    + rewrite IH. destruct (String.eqb_spec k' k0) as [->|]; [|done].
      destruct (String.eqb_spec k0 k); [congruence|done].
Qed.

(** The keywords override the fields of the same name and leave the others
    alone. *)
Lemma lookup_fold_set fields d k :
  contains fields k = false ->
  lookup k (fold_left (fun d kv => dict_set d (fst kv) (snd kv)) fields d)
  = lookup k d.
Proof.
  revert d. induction fields as [|[k0 v0] fields IH]; intros d; [done|].
  unfold contains. simpl.
  destruct (String.eqb_spec k k0) as [->|Hne]; [done|].
  intros Hk. rewrite IH by done. rewrite lookup_dict_set.
  by destruct (String.eqb_spec k k0).
Qed.

(** X21. An event logged is an event counted.  When the keywords of
    [log_event] repeat no parameter name and do not override [run_id], the
    call appends one line to the log; if [summarize_run] returned counts on
    the log before, it returns counts after, with the count of the event
    type one higher and every other count of a string type unchanged. *)
Theorem log_event_counted
    (rid : string) (now : StateUtils.datetime) (path et : string)
    (fields : dict) (st : logfiles) (c : counts) :
  contains fields "log_path" = false ->
  contains fields "event_type" = false ->
  contains fields "run_id" = false ->
  summarize_run rid path st = inr c ->
  exists st' c',
    log_event rid now path et fields st = (inr tt, st')
    /\ summarize_run rid path st' = inr c'
    /\ (forall k, count_of (JStr k) c'
                  = count_of (JStr k) c + (if String.eqb et k then 1 else 0))
    /\ forall p, p <> path -> st' !! p = st !! p.
Proof.
  intros Hlp Het Hrid Hsum.
  assert (get (event_of rid now et fields) "run_id" = JStr rid) as Hr.
  { unfold get, event_of. by rewrite lookup_fold_set. }
  assert (get_default (event_of rid now et fields) "event_type" (JStr "unknown")
          = JStr et) as He.
  { unfold get_default, event_of. by rewrite lookup_fold_set. }
  assert (forall c0, summarize_from rid c0
                       [Some (JObj (event_of rid now et fields))]
                     = inr (bump c0 (JStr et))) as Hone.
  { intros c0. simpl. rewrite Hr, He. simpl. by rewrite String.eqb_refl. }
  exists (<[path := match st !! path with
                    | Some l => l ++ [Some (JObj (event_of rid now et fields))]
                    | None => [Some (JObj (event_of rid now et fields))]
                    end]> st), (bump c (JStr et)).
  split; [unfold log_event; by rewrite Hlp, Het|].
  split; [|split].
  - unfold summarize_run in *. rewrite lookup_insert_eq.
    destruct (st !! path) as [lines|].
    + by rewrite summarize_from_app, Hsum, Hone.
    + injection Hsum as <-. apply Hone.
  - intros k. apply count_of_bump.
  - intros p Hp. by rewrite lookup_insert_ne.
Qed.

Lemma log_event_counted_witness :
  let st : logfiles :=
    {[ "events.jsonl" :=
         [Some (JObj [("run_id", JStr "r1"); ("event_type", JStr "tool_invoked")])] ]} in
  exists st' c',
    log_event "r1" RollbackMain.t_logged "events.jsonl" "tool_invoked"
      [("tool_name", JStr "write_local_json")] st = (inr tt, st')
    /\ summarize_run "r1" "events.jsonl" st' = inr c'
    /\ (forall k, count_of (JStr k) c'
                  = count_of (JStr k) [(JStr "tool_invoked", 1)]
                    + (if String.eqb "tool_invoked" k then 1 else 0))
    /\ forall p, p <> "events.jsonl" -> st' !! p = st !! p.
Proof.
  intros st.
  apply (log_event_counted "r1" RollbackMain.t_logged "events.jsonl"
           "tool_invoked" [("tool_name", JStr "write_local_json")] st
           [(JStr "tool_invoked", 1)]); reflexivity.
Defined.

End ObservabilityFacts.

(** ** From the write tool to the attribution *)
Section PipelineFacts.
Import Py Observability AgentTools Scanner.

Lemma as_events_app l1 l2 e1 e2 :
  as_events l1 = Some e1 -> as_events l2 = Some e2 ->
  as_events (l1 ++ l2) = Some (e1 ++ e2).
Proof.
  revert e1. induction l1 as [|v l1 IH]; intros e1; simpl.
  - by intros [= <-].
  - destruct v; try done. destruct (as_events l1) as [e|]; [|done].
    simpl. intros [= <-] H2. by rewrite (IH e eq_refl H2).
Qed.

Lemma omap_id_app {A} (l1 l2 : list (option A)) :
  omap id (l1 ++ l2) = omap id l1 ++ omap id l2.
Proof. apply omap_app. Qed.

Lemma find_agent_step events rid n evt :
  events !! n = Some evt ->
  find_agent events rid (S n)
  = if starts_run rid evt then Ok (get evt "agent_name", get evt "ts")
    else find_agent events rid n.
Proof.
  intros He. cbn [find_agent]. rewrite (item_lookup _ _ _ He), bind_ok.
  unfold starts_run.
  destruct (truthy rid), (eqb (get evt "run_id") rid),
    (eqb (get evt "event_type") (JStr "agent_run_started")),
    (truthy (get evt "agent_name")); reflexivity.
Qed.

Lemma find_invoke_step events rid oid n evt :
  events !! n = Some evt ->
  find_invoke events rid oid (S n)
  = if invokes_write rid oid evt
    then Ok (get evt "ts", get evt "tool_args", get evt "op_id")
    else find_invoke events rid oid n.
Proof.
  intros He. cbn [find_invoke]. rewrite (item_lookup _ _ _ He), bind_ok.
  unfold invokes_write.
  destruct (truthy rid), (eqb (get evt "run_id") rid),
    (eqb (get evt "event_type") (JStr "tool_invoked")),
    (eqb (get evt "tool_name") (JStr "write_local_json")),
    (truthy oid), (eqb (get evt "op_id") oid); reflexivity.
Qed.

(** The second loop walks down to the nearest event at which it stops. *)
Lemma find_agent_skip rid (pre post : list event) e :
  starts_run rid e = true ->
  Forall (fun e' => starts_run rid e' = false) post ->
  find_agent (pre ++ e :: post) rid (length (pre ++ e :: post))
  = Ok (get e "agent_name", get e "ts").
Proof.
  intros He Hpost.
  assert (forall k, k <= length post ->
            find_agent (pre ++ e :: post) rid (S (length pre) + k)
            = Ok (get e "agent_name", get e "ts")) as Hk.
  { induction k as [|k IH]; intros Hle.
    - rewrite Nat.add_0_r.
      rewrite (find_agent_step _ _ _ e) by (by apply list_lookup_middle).
      by rewrite He.
    - destruct (lookup_lt_is_Some_2 post k) as [e' He']; [lia|].
      rewrite Nat.add_succ_r.
      rewrite (find_agent_step _ _ _ e').
      + rewrite Forall_forall in Hpost.
        rewrite (Hpost e') by (by eapply list_elem_of_lookup_2).
        apply IH. lia.
      + rewrite lookup_app_r by lia.
        replace (S (length pre) + k - length pre) with (S k) by lia.
        done. }
  rewrite length_app. simpl length.
  replace (length pre + S (length post)) with (S (length pre) + length post)
    by lia.
  by apply Hk.
Qed.

Lemma lookup_snoc2 {A} (pre : list A) (x y : A) :
  (pre ++ [x; y]) !! length pre = Some x
  /\ (pre ++ [x; y]) !! S (length pre) = Some y
  /\ length (pre ++ [x; y]) = S (S (length pre)).
Proof.
  split; [|split].
  - rewrite lookup_app_r by lia. by rewrite Nat.sub_diag.
  - rewrite lookup_app_r by lia.
    by replace (S (length pre) - length pre) with 1 by lia.
  - rewrite length_app. simpl. lia.
Qed.

Lemma eqb_str_refl s : eqb (JStr s) (JStr s) = true.
Proof. simpl. apply String.eqb_refl. Qed.

(** X22. A write made by the tool is attributed to it.  When the agent run
    was announced in the log and no other run start that names an agent
    follows it, a successful [write_local_json] appends its two entries to
    the log, and [attribute_writer], given the path written, attributes the
    write at the tier [exact_path]: to the agent announced, the run, the
    operation id and the two instants of the call. *)
Theorem tool_write_attributed
    (lp rid op path agent : string) (t0 t1 t2 : StateUtils.datetime)
    (str_exc : error -> string) (st : logfiles) (old mid : list dict) :
  lp <> "" -> path <> "" -> agent <> "" ->
  as_events (iter_jsonl st lp)
    = Some (old ++ started_event rid t0 agent :: mid) ->
  Forall (fun e => starts_run (JStr rid) e = false) mid ->
  exists st' events a,
    write_local_json lp rid op t1 t2 path None str_exc st = (inr path, st')
    /\ as_events (iter_jsonl st' lp) = Some events
    /\ events = old ++ started_event rid t0 agent :: mid
                 ++ [invoked_event rid op t1 path; completed_event rid op t2 path]
    /\ attribute_writer events path = Ok (Some a)
    /\ match_mode a = "exact_path"
    /\ output_path_in_log a = JStr path
    /\ run_id a = JStr rid
    /\ agent_name a = JStr agent
    /\ agent_run_started_ts a = JStr (RollbackMain.isoformat t0)
    /\ op_id a = JStr op
    /\ tool_invoked_ts a = JStr (RollbackMain.isoformat t1)
    /\ tool_completed_ts a = JStr (RollbackMain.isoformat t2)
    /\ tool_args a = JObj [("path", JStr path)].
Proof.
  intros Hlp Hpath Hagent Hold Hmid.
  set (inv := invoked_event rid op t1 path).
  set (comp := completed_event rid op t2 path).
  set (started := started_event rid t0 agent) in *.
  set (events := old ++ started :: mid ++ [inv; comp]).
  set (written :=
         match st !! lp with
         | Some l => l ++ [Some (JObj inv)]
         | None => [Some (JObj inv)]
         end).
  exists (<[lp := written ++ [Some (JObj comp)]]> (<[lp := written]> st)), events.
  assert (write_local_json lp rid op t1 t2 path None str_exc st
          = (inr path, <[lp := written ++ [Some (JObj comp)]]> (<[lp := written]> st)))
    as Hrun.
  { unfold write_local_json, _log.
    destruct (String.eqb_spec lp ""); [done|].
    unfold log_event. cbn [contains lookup String.eqb Ascii.eqb Bool.eqb orb fst].
    by rewrite lookup_insert_eq. }
  assert (as_events (iter_jsonl (<[lp := written ++ [Some (JObj comp)]]>
                                   (<[lp := written]> st)) lp) = Some events)
    as Hevents.
  { unfold iter_jsonl in *. rewrite lookup_insert_eq. subst written events.
    replace (old ++ started :: mid ++ [inv; comp])
      with ((old ++ started :: mid) ++ [inv; comp])
      by (by rewrite <- app_assoc).
    destruct (st !! lp) as [l|].
    - rewrite <- app_assoc, omap_id_app. by apply as_events_app.
    - simpl in Hold. destruct old; simpl in Hold; discriminate. }
  assert (truthy (JStr path) = true) as Htp
    by (simpl; by destruct (String.eqb_spec path "")).
  assert (truthy (JStr agent) = true) as Hta
    by (simpl; by destruct (String.eqb_spec agent "")).
  assert (logged_path comp = Ok (JStr path)) as Hlogged.
  { unfold logged_path.
    change (get comp "output_path") with (JStr path). by rewrite Htp. }
  assert (match_tier (_norm_path (JStr path))
            (basename (_norm_path (JStr path))) comp
          = Ok (Some "exact_path")) as Htier.
  { unfold match_tier.
    change (get comp "event_type") with (JStr "tool_completed").
    change (get comp "tool_name") with (JStr "write_local_json").
    rewrite Hlogged, bind_ok, Htp. cbn [negb eqb].
    by rewrite !String.eqb_refl. }
  assert (events = (old ++ started :: mid) ++ [inv; comp]) as Hsplit
    by (subst events; by rewrite <- app_assoc).
  clearbody events. subst events.
  set (pre := old ++ started :: mid) in *.
  set (events := pre ++ [inv; comp]) in *.
  destruct (lookup_snoc2 pre inv comp) as (Hinv & Hcomp & Hlen).
  fold events in Hinv, Hcomp, Hlen. unfold event in *.
  assert (find_write events (_norm_path (JStr path))
            (basename (_norm_path (JStr path))) (length events)
          = Ok (Some (S (length pre), "exact_path")))
    as Hwrite.
  { unfold event. rewrite Hlen. cbn [find_write].
    by rewrite (item_lookup _ _ _ Hcomp), bind_ok, Htier, bind_ok. }
  assert (find_agent events (JStr rid) (S (S (length pre)))
          = Ok (JStr agent, JStr (RollbackMain.isoformat t0))) as Hfa.
  { rewrite <- Hlen. subst events pre. rewrite <- app_assoc.
    change (find_agent (old ++ started :: (mid ++ [inv; comp])) (JStr rid)
              (length (old ++ started :: (mid ++ [inv; comp])))
            = Ok (get started "agent_name", get started "ts")).
    apply find_agent_skip.
    - unfold starts_run.
      change (get started "run_id") with (JStr rid).
      change (get started "event_type") with (JStr "agent_run_started").
      change (get started "agent_name") with (JStr agent).
      by rewrite eqb_str_refl, orb_true_r, Hta.
    - apply Forall_app. split; [done|].
      constructor; [|constructor; [|constructor]]; unfold starts_run.
      + change (get inv "event_type") with (JStr "tool_invoked").
        by rewrite andb_false_r.
      + change (get comp "event_type") with (JStr "tool_completed").
        by rewrite andb_false_r. }
  assert (find_invoke events (JStr rid) (JStr op) (S (S (length pre)))
          = Ok (JStr (RollbackMain.isoformat t1),
                JObj [("path", JStr path)], JStr op)) as Hfi.
  { rewrite (find_invoke_step _ _ _ _ comp Hcomp).
    assert (invokes_write (JStr rid) (JStr op) comp = false) as ->.
    { unfold invokes_write.
      change (get comp "event_type") with (JStr "tool_completed").
      by rewrite andb_false_r. }
    rewrite (find_invoke_step _ _ _ _ inv Hinv).
    assert (invokes_write (JStr rid) (JStr op) inv = true) as ->.
    { unfold invokes_write.
      change (get inv "run_id") with (JStr rid).
      change (get inv "event_type") with (JStr "tool_invoked").
      change (get inv "tool_name") with (JStr "write_local_json").
      change (get inv "op_id") with (JStr op).
      by rewrite !eqb_str_refl, !orb_true_r. }
    reflexivity. }
  eexists. split; [exact Hrun|]. split; [exact Hevents|].
  split; [subst events pre; by rewrite <- app_assoc|].
  split.
  { unfold attribute_writer. cbv zeta. unfold event.
    rewrite Hwrite, bind_ok, (item_lookup _ _ _ Hcomp), bind_ok.
    rewrite Hlogged, bind_ok.
    change (get comp "run_id") with (JStr rid).
    change (get comp "op_id") with (JStr op).
    rewrite Hfa, bind_ok, Hfi, bind_ok. reflexivity. }
  cbn [match_mode output_path_in_log run_id agent_name agent_run_started_ts
       op_id tool_invoked_ts tool_completed_ts tool_args fst snd].
  repeat split.
  unfold por. by destruct (truthy (JStr op)).
Qed.

Lemma tool_write_attributed_witness :
  let st : logfiles :=
    {[ "logs/agent_events.jsonl" :=
         [Some (JObj (started_event "r1" RollbackMain.t_quarantine
                        "Shopping Assistant Agent"))] ]} in
  exists st' events a,
    write_local_json "logs/agent_events.jsonl" "r1" "op-7"
      RollbackMain.t_quarantine RollbackMain.t_logged
      "out/shopping_summary.json" None (fun _ => "") st
      = (inr "out/shopping_summary.json", st')
    /\ as_events (iter_jsonl st' "logs/agent_events.jsonl") = Some events
    /\ attribute_writer events "out/shopping_summary.json" = Ok (Some a)
    /\ match_mode a = "exact_path"
    /\ agent_name a = JStr "Shopping Assistant Agent"
    /\ op_id a = JStr "op-7".
Proof.
  intros st.
  destruct (tool_write_attributed "logs/agent_events.jsonl" "r1" "op-7"
              "out/shopping_summary.json" "Shopping Assistant Agent"
              RollbackMain.t_quarantine RollbackMain.t_quarantine
              RollbackMain.t_logged (fun _ => "") st [] [])
    as (st' & events & a & H1 & H2 & _ & H3 & H4 & _ & _ & H5 & _ & H6 & _).
  - discriminate.
  - discriminate.
  - discriminate.
  - reflexivity.
  - constructor.
  - exists st', events, a. repeat split; assumption.
Defined.

End PipelineFacts.

(** ** The names of the snapshots against the filters that read them *)
Section SnapshotNameFacts.
Import Py.

Lemma startswith_app (a b : string) : startswith (a +:+ b) a = true.
Proof. unfold startswith. apply prefixb_spec. exists (chars b). apply chars_app. Qed.

(** X23. The snapshots of the pipeline can be rolled back to.  The name
    [snapshot_file] gives a snapshot contains the file name of its source,
    so [most_recent_snapshot] takes it for a candidate; and the name of a
    snapshot of [shopping_summary.json] taken under the label [before], as
    [main.py] takes it, passes the test of [list_candidate_snapshots].  The
    name of a file quarantined by the rollback flow does not pass it. *)
Theorem snapshot_names_are_candidates
    (src label rid : string) (now : StateUtils.datetime) :
  str_contains (StateUtils.snap_name src label now rid) (basename src) = true
  /\ (basename src = "shopping_summary.json" ->
      RollbackMain.candidate_name (StateUtils.snap_name src "before" now rid)
      = true
      /\ forall reason,
           RollbackMain.candidate_name
             (RollbackMain.quarantined_name src reason now) = false).
Proof.
  split.
  - unfold StateUtils.snap_name, str_contains. apply infixb_spec.
    exists []. rewrite chars_app. eauto.
  - intros Hb. split.
    + unfold RollbackMain.candidate_name, StateUtils.snap_name. rewrite Hb.
      apply andb_true_iff. split.
      * change ("shopping_summary.json" +:+ "." +:+ "before" +:+ "." +:+ ?x)
          with ("shopping_summary.json.before." +:+ x).
        apply startswith_app.
      * apply endswith_spec.
        exists ("shopping_summary.json" +:+ "." +:+ "before" +:+ "."
                +:+ StateUtils.utc_ts_slug now +:+ "." +:+ rid).
        by rewrite !append_assoc_s.
    + intros reason. unfold RollbackMain.candidate_name,
        RollbackMain.quarantined_name. rewrite Hb. reflexivity.
Qed.

Lemma snapshot_names_are_candidates_witness :
  RollbackMain.candidate_name
    (StateUtils.snap_name "out/shopping_summary.json" "before"
       StateUtils.t_early "run-1") = true
  /\ forall reason,
       RollbackMain.candidate_name
         (RollbackMain.quarantined_name "out/shopping_summary.json" reason
            StateUtils.t_early) = false.
Proof.
  destruct (snapshot_names_are_candidates "out/shopping_summary.json" "before"
              "run-1" StateUtils.t_early) as [_ H].
  apply H. reflexivity.
Defined.

End SnapshotNameFacts.

(** ** Writer attribution: when it returns *)
Section AttributionTotalFacts.
Import Py Scanner.

Lemma match_tier_total tn tb e :
  (is_write_completion e = true -> truthy (get e "output_path") = false ->
   args_is_map e = true) ->
  exists r, match_tier tn tb e = Ok r.
Proof.
  intros Hwf.
  destruct (is_write_completion e) eqn:Hw;
    [|rewrite match_tier_not_completion by done; eauto].
  assert (exists p, logged_path e = Ok p) as [p Hp].
  { destruct (truthy (get e "output_path")) eqn:Ht.
    - unfold logged_path. rewrite Ht. eauto.
    - apply logged_path_map; auto. }
  unfold is_write_completion in Hw. apply andb_true_iff in Hw as [Hw1 Hw2].
  unfold match_tier. rewrite Hw1, Hw2, Hp. simpl.
  repeat case_match; eauto.
Qed.

Lemma find_write_total events tn tb n :
  n <= length events ->
  Forall (fun e => is_write_completion e = true ->
                   truthy (get e "output_path") = false ->
                   args_is_map e = true) events ->
  exists r, find_write events tn tb n = Ok r.
Proof.
  intros Hn Hwf. induction n as [|n IH]; simpl; [eauto|].
  destruct (lookup_lt_is_Some_2 events n) as [e He]; [lia|].
  rewrite (item_lookup _ _ _ He), bind_ok.
  rewrite Forall_forall in Hwf.
  destruct (match_tier_total tn tb e) as [[mode|] ->];
    [apply Hwf; by eapply list_elem_of_lookup_2| |]; simpl; [eauto|].
  apply IH. lia.
Qed.

Lemma find_write_none_inv events tn tb n :
  find_write events tn tb n = Ok None ->
  forall i e, i < n -> events !! i = Some e -> match_tier tn tb e = Ok None.
Proof.
  induction n as [|n IH]; simpl; [intros _ i e Hi; lia|].
  destruct (item events n) as [evt|] eqn:He; [|done]. simpl.
  apply item_ok in He.
  destruct (match_tier tn tb evt) as [[m|]|] eqn:Ht; [done| |done]; simpl.
  intros H i e Hi Hei. destruct (Nat.eq_dec i n) as [->|]; [congruence|].
  apply (IH H i); [lia|done].
Qed.

(** X24. [attribute_writer] on a well-formed log.  When the [tool_args] of
    every write-tool completion that records no [output_path] is absent or
    a map, [attribute_writer] raises nothing, and it returns [None] exactly
    when no event of the log is a write-tool completion whose recorded path
    matches the target under one of the three tiers. *)
Theorem attribute_writer_total (events : list event) (target : string) :
  Forall (fun e => is_write_completion e = true ->
                   truthy (get e "output_path") = false ->
                   args_is_map e = true) events ->
  exists r,
    attribute_writer events target = Ok r
    /\ (r = None
        <-> Forall (fun e => ~ matching_completion target e) events).
Proof.
  intros Hwf. unfold attribute_writer. cbv zeta.
  destruct (find_write_total events (_norm_path (JStr target))
              (basename (_norm_path (JStr target))) (length events))
    as [[[i mode]|] Hw]; [done|done| |]; rewrite Hw, bind_ok.
  - pose proof (find_write_some _ _ _ _ _ _ Hw) as (Hi & e & He & Hm & _).
    rewrite (item_lookup _ _ _ He), bind_ok.
    apply match_tier_some in Hm as (Hc & p & Hp & Ht & Hmode).
    rewrite Hp, bind_ok.
    destruct (find_agent_ok events (get e "run_id") (S i)) as [ra ->]; [lia|].
    destruct (find_invoke_ok events (get e "run_id") (get e "op_id") (S i))
      as [ri ->]; [lia|].
    rewrite !bind_ok. eexists. split; [reflexivity|].
    split; [done|]. intros Hno. exfalso.
    rewrite Forall_forall in Hno.
    apply (Hno e); [by eapply list_elem_of_lookup_2|].
    split; [done|]. exists p. split; [done|]. split; [done|].
    unfold tier_match. cbv zeta.
    destruct Hmode as [[_ Heq]|[(_ & _ & Hs)|(_ & _ & _ & Hb)]].
    + by rewrite Heq, String.eqb_refl.
    + by rewrite Hs, orb_true_r.
    + by rewrite Hb, String.eqb_refl, orb_true_r.
  - exists None. split; [done|]. split; [|done]. intros _.
    apply Forall_forall. intros e Hin.
    apply list_elem_of_lookup_1 in Hin as [i Hi].
    apply match_tier_none.
    apply (find_write_none_inv _ _ _ _ Hw i); [|done].
    by apply lookup_lt_Some in Hi.
Qed.

Lemma attribute_writer_total_witness :
  exists r,
    attribute_writer sample_log "/b/report.txt" = Ok r
    /\ (r = None
        <-> Forall (fun e => ~ matching_completion "/b/report.txt" e)
                   sample_log).
Proof.
  apply (attribute_writer_total sample_log "/b/report.txt").
  repeat constructor; intros; reflexivity.
Defined.

End AttributionTotalFacts.

(** ** The rollback flow, run again *)
Section RollbackAgainFacts.
Import Py RollbackMain.





End RollbackAgainFacts.
